(** * markdown-katex: the renderer wrapper ([wrapper.py])

    A shallow embedding of the external-renderer invocation and caching
    layer: binary resolution, command building, the content-addressed
    render cache and the janitor sweep, together with the part of the
    Python runtime and of the operating system they talk to. *)

From Stdlib Require Import ZArith NArith List String Ascii Bool Lia Sorted.
From Stdlib.Strings Require Import Byte.
From stdpp Require Import gmap.

Local Open Scope N_scope.

(** ** Python text and bytes *)

(** A Python [str] is a sequence of Unicode code points; [bytes] is a
    sequence of octets. *)
Definition char : Type := N.
Definition str : Type := list char.
Definition bytes : Type := list byte.

(** A source literal (ASCII only) as a [str]. *)
Definition lit (s : string) : str :=
  map (fun a => N_of_ascii a) (list_ascii_of_string s).

Definition byte_of_N (n : N) : byte :=
  match Byte.of_N (n mod 256) with
  | Some b => b
  | None => x00
  end.

Module Text.

(** [str.isspace] for one character: the code points Python treats as
    white space (bidirectional class WS, B or S, or category Zs). *)
Definition isspace (c : char) : bool :=
  ((9 <=? c) && (c <=? 13)) || ((28 <=? c) && (c <=? 32))
  || (c =? 133) || (c =? 160) || (c =? 5760)
  || ((8192 <=? c) && (c <=? 8202))
  || (c =? 8232) || (c =? 8233) || (c =? 8239) || (c =? 8287)
  || (c =? 12288).

Fixpoint lstrip (s : str) : str :=
  match s with
  | c :: s' => if isspace c then lstrip s' else s
  | [] => []
  end.

Definition rstrip (s : str) : str := rev (lstrip (rev s)).

(** [s.strip()] *)
Definition strip (s : str) : str := rstrip (lstrip s).

(** [s.startswith(p)] *)
Fixpoint startswith (s p : str) {struct p} : bool :=
  match p, s with
  | [], _ => true
  | a :: p', b :: s' => (a =? b) && startswith s' p'
  | _ :: _, [] => false
  end.

(** [p in s] *)
Fixpoint contains (s p : str) : bool :=
  startswith s p ||
  match s with
  | _ :: s' => contains s' p
  | [] => false
  end.

(** [s.split(sep)] for a separator of one character; the result is never
    empty: it is the head field and the remaining fields. *)
Fixpoint split_fields (sep : char) (s : str) : str * list str :=
  match s with
  | [] => ([], [])
  | c :: s' =>
      let '(f, fs) := split_fields sep s' in
      if c =? sep then ([], f :: fs) else (c :: f, fs)
  end.

Definition split (sep : char) (s : str) : list str :=
  let '(f, fs) := split_fields sep s in f :: fs.

(** [s.split()]: maximal runs of characters that are not white space. *)
Fixpoint split_ws_aux (cur : str) (s : str) : list str :=
  match s with
  | [] => match cur with [] => [] | _ => [rev cur] end
  | c :: s' =>
      if isspace c
      then match cur with
           | [] => split_ws_aux [] s'
           | _ => rev cur :: split_ws_aux [] s'
           end
      else split_ws_aux (c :: cur) s'
  end.

Definition split_ws (s : str) : list str := split_ws_aux [] s.

(** [sep.join(parts)] *)
Fixpoint join (sep : str) (parts : list str) : str :=
  match parts with
  | [] => []
  | [p] => p
  | p :: ps => p ++ sep ++ join sep ps
  end.

(** [s.replace(old, new)] for a non-empty [old]: scanning from the left,
    every occurrence that does not overlap an earlier one is replaced.
    [skip] counts the characters of a matched occurrence still to drop. *)
Fixpoint replace_from (old new : str) (skip : nat) (s : str) : str :=
  match s with
  | [] => []
  | c :: s' =>
      match skip with
      | S k => replace_from old new k s'
      | O =>
          if startswith s old
          then new ++ replace_from old new (Nat.pred (List.length old)) s'
          else c :: replace_from old new O s'
      end
  end.

Definition replace (s old new : str) : str := replace_from old new O s.

(** [str(n)] for an [int]. *)
Fixpoint digits (d : Decimal.uint) : str :=
  match d with
  | Decimal.Nil => []
  | Decimal.D0 d => 48 :: digits d
  | Decimal.D1 d => 49 :: digits d
  | Decimal.D2 d => 50 :: digits d
  | Decimal.D3 d => 51 :: digits d
  | Decimal.D4 d => 52 :: digits d
  | Decimal.D5 d => 53 :: digits d
  | Decimal.D6 d => 54 :: digits d
  | Decimal.D7 d => 55 :: digits d
  | Decimal.D8 d => 56 :: digits d
  | Decimal.D9 d => 57 :: digits d
  end.

Definition str_of_int (z : Z) : str :=
  match Z.to_int z with
  | Decimal.Pos d => digits d
  | Decimal.Neg d => 45 :: digits d
  end.

(** Lexicographic order on [str], the order of [sorted] and [max]. *)
Fixpoint compare (a b : str) : comparison :=
  match a, b with
  | [], [] => Eq
  | [], _ :: _ => Lt
  | _ :: _, [] => Gt
  | x :: a', y :: b' =>
      match N.compare x y with
      | Eq => compare a' b'
      | o => o
      end
  end.

Definition leb (a b : str) : bool :=
  match compare a b with Gt => false | _ => true end.

Definition eqb (a b : str) : bool :=
  match compare a b with Eq => true | _ => false end.

(** *** The UTF-8 codec (strict error handling) *)

Definition is_surrogate (c : char) : bool := (55296 <=? c) && (c <=? 57343).

(** The bytes of one code point; [None] where [encode] raises
    [UnicodeEncodeError], on a lone surrogate. *)
Definition encode_char (c : char) : option bytes :=
  if c <? 128 then Some [byte_of_N c]
  else if c <? 2048 then
    Some [byte_of_N (192 + c / 64); byte_of_N (128 + c mod 64)]
  else if c <? 65536 then
    if is_surrogate c then None
    else Some [byte_of_N (224 + c / 4096);
               byte_of_N (128 + (c / 64) mod 64);
               byte_of_N (128 + c mod 64)]
  else if c <? 1114112 then
    Some [byte_of_N (240 + c / 262144);
          byte_of_N (128 + (c / 4096) mod 64);
          byte_of_N (128 + (c / 64) mod 64);
          byte_of_N (128 + c mod 64)]
  else None.

(** [s.encode('utf-8')] *)
Fixpoint encode (s : str) : option bytes :=
  match s with
  | [] => Some []
  | c :: s' =>
      match encode_char c, encode s' with
      | Some b, Some bs => Some (b ++ bs)
      | _, _ => None
      end
  end.

Definition is_cont (b : byte) : bool :=
  (128 <=? Byte.to_N b) && (Byte.to_N b <=? 191).

Definition low6 (b : byte) : N := Byte.to_N b - 128.

(** [b.decode('utf-8')]; [None] where it raises [UnicodeDecodeError]:
    a stray or missing continuation byte, an overlong form, a surrogate
    or a value past U+10FFFF. *)
Fixpoint decode (bs : bytes) : option str :=
  match bs with
  | [] => Some []
  | b0 :: r0 =>
      let n0 := Byte.to_N b0 in
      if n0 <? 128 then option_map (cons n0) (decode r0)
      else if (194 <=? n0) && (n0 <=? 223) then
        match r0 with
        | b1 :: r1 =>
            if is_cont b1
            then option_map (cons ((n0 - 192) * 64 + low6 b1)) (decode r1)
            else None
        | _ => None
        end
      else if (224 <=? n0) && (n0 <=? 239) then
        match r0 with
        | b1 :: b2 :: r2 =>
            let c := (n0 - 224) * 4096 + low6 b1 * 64 + low6 b2 in
            if is_cont b1 && is_cont b2 && (2048 <=? c)
               && negb (is_surrogate c)
            then option_map (cons c) (decode r2)
            else None
        | _ => None
        end
      else if (240 <=? n0) && (n0 <=? 244) then
        match r0 with
        | b1 :: b2 :: b3 :: r3 =>
            let c := (n0 - 240) * 262144 + low6 b1 * 4096
                     + low6 b2 * 64 + low6 b3 in
            if is_cont b1 && is_cont b2 && is_cont b3
               && (65536 <=? c) && (c <? 1114112)
            then option_map (cons c) (decode r3)
            else None
        | _ => None
        end
      else None
  end.

(** Lower-case hexadecimal, two digits per byte. *)
Definition hex_digit (n : N) : char := if n <? 10 then 48 + n else 87 + n.

Definition hex (bs : bytes) : str :=
  flat_map (fun b => [hex_digit (Byte.to_N b / 16);
                      hex_digit (Byte.to_N b mod 16)]) bs.

End Text.

(** ** SHA-256 (FIPS 180-4), the function behind [hashlib.sha256] *)

Module Sha256.

Definition mask32 : N := 4294967295.
Definition w32 (x : N) : N := N.land x mask32.
Definition add32 (x y : N) : N := w32 (x + y).
Definition rotr (k x : N) : N :=
  N.lor (N.shiftr x k) (w32 (N.shiftl x (32 - k))).
Definition not32 (x : N) : N := N.lxor x mask32.

Definition Ch (x y z : N) : N := N.lxor (N.land x y) (N.land (not32 x) z).
Definition Maj (x y z : N) : N :=
  N.lxor (N.lxor (N.land x y) (N.land x z)) (N.land y z).
Definition Sigma0 (x : N) : N :=
  N.lxor (N.lxor (rotr 2 x) (rotr 13 x)) (rotr 22 x).
Definition Sigma1 (x : N) : N :=
  N.lxor (N.lxor (rotr 6 x) (rotr 11 x)) (rotr 25 x).
Definition sigma0 (x : N) : N :=
  N.lxor (N.lxor (rotr 7 x) (rotr 18 x)) (N.shiftr x 3).
Definition sigma1 (x : N) : N :=
  N.lxor (N.lxor (rotr 17 x) (rotr 19 x)) (N.shiftr x 10).

(** The constants are the first 32 bits of the fractional parts of the
    cube roots (for [K]) and of the square roots (for [H0]) of the first
    primes. *)
Definition is_prime (n : N) : bool :=
  forallb (fun d => negb (n mod N.of_nat d =? 0))
          (seq 2 (N.to_nat n - 2)).

Definition primes : list N :=
  List.filter is_prime (map N.of_nat (seq 2 310)).

(** The integer part of the [k]-th root of [x], found bit by bit from
    bit [bits - 1] down. *)
Fixpoint floor_root (k : N) (bits : nat) (x r : N) : N :=
  match bits with
  | O => r
  | S b =>
      let c := r + 2 ^ N.of_nat b in
      floor_root k b x (if c ^ k <=? x then c else r)
  end.

Definition frac_root (k p : N) : N :=
  floor_root k 40 (p * 2 ^ (32 * k)) 0 mod 2 ^ 32.

Definition K : list N := Eval vm_compute in map (frac_root 3) primes.

Definition H0 : list N :=
  Eval vm_compute in map (frac_root 2) (firstn 8 primes).

(** Big-endian bytes of a value, most significant first. *)
Fixpoint be_bytes (n : nat) (x : N) : bytes :=
  match n with
  | O => []
  | S n' => byte_of_N (N.shiftr x (8 * N.of_nat n')) :: be_bytes n' x
  end.

Definition be_value (bs : bytes) : N :=
  fold_left (fun acc b => acc * 256 + Byte.to_N b) bs 0.

(** Padding: one 1 bit, zeros up to 448 modulo 512, then the bit length
    on 64 bits. *)
Definition pad (msg : bytes) : bytes :=
  let len := N.of_nat (List.length msg) in
  let zeros := N.to_nat ((119 - len mod 64) mod 64) in
  msg ++ [x80] ++ repeat x00 zeros ++ be_bytes 8 (8 * len).

Fixpoint words (n : nat) (bs : bytes) : list N :=
  match n with
  | O => []
  | S n' => be_value (firstn 4 bs) :: words n' (skipn 4 bs)
  end.

(** One round; [w] is the window holding the sixteen schedule words
    W(t) .. W(t+15). *)
Definition round (st : list N * list N) (k : N) : list N * list N :=
  let '(v, w) := st in
  let a := nth 0 v 0 in let b := nth 1 v 0 in
  let c := nth 2 v 0 in let d := nth 3 v 0 in
  let e := nth 4 v 0 in let f := nth 5 v 0 in
  let g := nth 6 v 0 in let h := nth 7 v 0 in
  let wt := nth 0 w 0 in
  let t1 := add32 (add32 (add32 (add32 h (Sigma1 e)) (Ch e f g)) k) wt in
  let t2 := add32 (Sigma0 a) (Maj a b c) in
  let wnext := add32 (add32 (add32 (sigma1 (nth 14 w 0)) (nth 9 w 0))
                            (sigma0 (nth 1 w 0))) wt in
  ([add32 t1 t2; a; b; c; add32 d t1; e; f; g], tl w ++ [wnext]).

Definition compress (h : list N) (block : bytes) : list N :=
  let '(v, _) := fold_left round K (h, words 16 block) in
  map (fun p => add32 (fst p) (snd p)) (combine h v).

Fixpoint blocks (n : nat) (h : list N) (bs : bytes) : list N :=
  match n with
  | O => h
  | S n' => blocks n' (compress h (firstn 64 bs)) (skipn 64 bs)
  end.

Definition digest (msg : bytes) : bytes :=
  let p := pad msg in
  flat_map (be_bytes 4) (blocks (Nat.div (List.length p) 64) H0 p).

Definition hexdigest (msg : bytes) : str := Text.hex (digest msg).

End Sha256.

Definition bytes_of_lit (s : string) : bytes := list_byte_of_string s.

(** ** The interpreter's exceptions *)

(** The subclasses of [OSError] that occur, and [ENAMETOOLONG] for the
    plain [OSError] raised for a name longer than the system allows. *)
Inductive os_error : Type :=
| FileNotFoundError
| FileExistsError
| IsADirectoryError
| NotADirectoryError
| PermissionError
| ENAMETOOLONG.

Inductive exn : Type :=
| OSError (e : os_error) (path : str)
| CalledProcessError (code : Z)
| UnicodeEncodeError
| UnicodeDecodeError
| KeyError (key : Z)
| NotImplementedError (msg : str)
| KatexError (msg : str).

Inductive result (A : Type) : Type :=
| Ok (a : A)
| Raise (e : exn).
Arguments Ok {A} a.
Arguments Raise {A} e.

(** ** The file system, the clock and child processes *)

(** What the system has at a path: a regular file of the caller, which
    the caller may read and write, with its content and modification
    time (seconds since the epoch); a directory the caller may list and
    search; a regular file of another user, which the caller neither
    owns nor may write, with its content if the caller may read it; or
    a name at which every system call fails with the given error,
    because it lies below a directory the caller may not search, is a
    link to such a place, or is longer than the system allows.  Whether
    an entry can be removed is the business of its directory and is
    told by [locked] below. *)
Inductive node : Type :=
| File (data : bytes) (mtime : Z)
| Dir (mtime : Z)
| Foreign (content : option bytes) (mtime : Z)
| Denied (e : os_error).

Definition is_regular (n : option node) : bool :=
  match n with
  | Some (File _ _) | Some (Foreign _ _) => true
  | _ => false
  end.

(** [pathlib]'s [_ignore_error]: the failures of [stat] that [exists]
    and [is_file] take for absence; every other one they raise again.
    (Of its four error numbers [ENOENT] and [ENOTDIR] are modelled.) *)
Definition _ignore_error (e : os_error) : bool :=
  match e with
  | FileNotFoundError | NotADirectoryError => true
  | _ => false
  end.

(** What a child process wrote, in the order written, on its standard
    output and standard error. *)
Inductive stream : Type := Stdout | Stderr.

Definition output_of (s : stream) (chunks : list (stream * bytes)) : bytes :=
  flat_map (fun c => match c.1, s with
                     | Stdout, Stdout | Stderr, Stderr => c.2
                     | _, _ => []
                     end) chunks.

Definition merged (chunks : list (stream * bytes)) : bytes :=
  flat_map snd chunks.

(** The fate of a command line handed to the operating system: it cannot
    be launched, or it runs to completion with an exit status (negative:
    killed by that signal), its output, and the files as it leaves them.
    (A child that never ends, or that blocks on a full pipe while the
    parent waits, has no outcome and is left out.) *)
Inductive outcome : Type :=
| LaunchFailure (e : os_error)
| Exited (ret_code : Z) (chunks : list (stream * bytes))
         (files : gmap str node).

(** Every call into the operating system is recorded. *)
Inductive event : Type :=
| EvEnviron
| EvTime
| EvExists (p : str)
| EvIsFile (p : str)
| EvStat (p : str)
| EvRead (p : str)
| EvWrite (p : str)
| EvTouch (p : str)
| EvUnlink (p : str)
| EvMkdir (p : str)
| EvIterdir (p : str)
| EvGlob (p : str) (infix : str)
| EvSpawn (argv : list str)
| EvClose.

(** The mutable world: what the system has at each path, keyed by the
    path text, the clock, and the record of system calls so far.  The
    clock stands still during a call, which is short against the
    retention window of a day; from one call to the next it moves, and
    each call reads it anew. *)
Record world : Type := World {
  fs : gmap str node;
  now : Z;
  trace : list event
}.

(** What the module finds fixed when it is imported and while it runs:
    the platform's names and separators, where the package and the
    temporary directory are, the [PATH] variable, the table of the
    [signal] module, the decimal digits of the interpreter's Unicode
    database, the paths whose removal the system refuses (a read-only
    directory, a file held open on Windows), and how the programs of the
    machine behave. *)
Record host : Type := Host {
  platform_system : str;
  platform_machine : str;
  os_sep : char;
  os_pathsep : char;
  os_linesep : str;
  gettempdir : str;
  package_dir : str;
  environ_PATH : option str;
  signal_dict : list (str * Z);
  is_decimal : char -> bool;
  locked : str -> bool;
  run : list str -> gmap str node -> Z -> outcome
}.

(** ** Computations: state and exceptions *)

Definition M (A : Type) : Type := world -> result A * world.

Definition ret {A} (a : A) : M A := fun w => (Ok a, w).

Definition raise {A} (e : exn) : M A := fun w => (Raise e, w).

Definition bind {A B} (m : M A) (k : A -> M B) : M B :=
  fun w =>
    match m w with
    | (Ok a, w') => k a w'
    | (Raise e, w') => (Raise e, w')
    end.

Notation "'let*' x ':=' m 'in' k" := (bind m (fun x => k))
  (at level 10, x name, m at level 100, k at level 200).

(** [try: body finally: cleanup]: the cleanup runs on every exit of the
    body; an exception of the cleanup replaces the body's outcome. *)
Definition try_finally {A} (body : M A) (cleanup : M unit) : M A :=
  fun w =>
    let '(r, w1) := body w in
    match cleanup w1 with
    | (Ok _, w2) => (r, w2)
    | (Raise e, w2) => (Raise e, w2)
    end.

(** [v = None; try: v = init(); body(v) finally: cleanup(v)] *)
Definition try_finally_from {A V} (init : M V) (body : V -> M A)
    (cleanup : option V -> M unit) : M A :=
  fun w =>
    match init w with
    | (Ok v, w1) => try_finally (body v) (cleanup (Some v)) w1
    | (Raise e, w1) => try_finally (raise e) (cleanup None) w1
    end.

(** [try: body except <handled>: handler] *)
Definition try_except {A} (body : M A) (handled : exn -> bool)
    (handler : M A) : M A :=
  fun w =>
    match body w with
    | (Raise e, w1) => if handled e then handler w1 else (Raise e, w1)
    | r => r
    end.

Definition lift {A} (r : result A) : M A := fun w => (r, w).

(** The world once a system call is on record, and once the files have
    changed. *)
Definition noted (e : event) (w : world) : world :=
  World (fs w) (now w) (trace w ++ [e]).

Definition with_fs (f : gmap str node) (w : world) : world :=
  World f (now w) (trace w).

Definition log (e : event) : M unit := fun w => (Ok tt, noted e w).

Definition get_fs : M (gmap str node) := fun w => (Ok (fs w), w).

Definition put_fs (f : gmap str node) : M unit :=
  fun w => (Ok tt, with_fs f w).

Definition get_now : M Z := fun w => (Ok (now w), w).

(** A loop over a list with no early exit. *)
Fixpoint for_each {A} (xs : list A) (body : A -> M unit) : M unit :=
  match xs with
  | [] => ret tt
  | x :: xs' => let* _ := body x in for_each xs' body
  end.

(** ** System calls *)

Section Program.

Context (h : host).

(** [pl.Path(s)] of a text, by the rules of a POSIX path: empty and [.]
    components go, runs of separators count as one (two at the very
    start are kept), and what is left of nothing is [.].  (Drive
    prefixes and the second separator of Windows are left out.) *)
Definition path_root (s : str) : str :=
  let sep := os_sep h in
  if Text.startswith s [sep; sep] && negb (Text.startswith s [sep; sep; sep])
  then [sep; sep]
  else if Text.startswith s [sep] then [sep]
  else [].

Definition Path (s : str) : str :=
  let components :=
    List.filter (fun c => negb (Text.eqb c [] || Text.eqb c (lit ".")))
                (Text.split (os_sep h) s) in
  match path_root s, components with
  | [], [] => lit "."
  | root, _ => root ++ Text.join [os_sep h] components
  end.

(** [dir / name] for a path [dir] and a plain file name: the name alone
    below the current directory, no second separator after a root. *)
Definition joinpath (dir name : str) : str :=
  if Text.eqb dir (lit ".") then name
  else if Text.eqb dir (path_root dir) then dir ++ name
  else dir ++ [os_sep h] ++ name.

(** [p.name]: the final component. *)
Definition path_name (p : str) : str :=
  List.last (Text.split (os_sep h) p) [].

(** [p] is an entry of the directory [dir]: [dir / name] for its own
    final component [name]. *)
Definition is_child (dir p : str) : bool :=
  let name := path_name p in
  negb (Text.eqb name [] || Text.eqb name (lit "."))
  && Text.eqb (joinpath dir name) p.

Definition children (dir : str) (f : gmap str node) : list str :=
  List.filter (is_child dir) (map fst (map_to_list f)).

(** [os.environ.get('PATH')] *)
Definition environ_get_PATH : M (option str) :=
  let* _ := log EvEnviron in ret (environ_PATH h).

(** [time.time()] *)
Definition time : M Z :=
  let* _ := log EvTime in get_now.

(** The error [os.stat] fails with at a path, if it fails. *)
Definition stat_errno (n : option node) : option os_error :=
  match n with
  | None => Some FileNotFoundError
  | Some (Denied e) => Some e
  | Some _ => None
  end.

(** [p.exists()]:
    [try: self.stat()
     except OSError as e: if not _ignore_error(e): raise; return False
     return True] *)
Definition exists_ (p : str) : M bool :=
  let* _ := log (EvExists p) in
  let* f := get_fs in
  match stat_errno (f !! p) with
  | None => ret true
  | Some e => if _ignore_error e then ret false else raise (OSError e p)
  end.

(** [p.is_file()]:
    [try: return S_ISREG(self.stat().st_mode)
     except OSError as e: if not _ignore_error(e): raise; return False] *)
Definition is_file (p : str) : M bool :=
  let* _ := log (EvIsFile p) in
  let* f := get_fs in
  match stat_errno (f !! p) with
  | None => ret (is_regular (f !! p))
  | Some e => if _ignore_error e then ret false else raise (OSError e p)
  end.

(** [p.stat().st_mtime] *)
Definition stat_mtime (p : str) : M Z :=
  let* _ := log (EvStat p) in
  let* f := get_fs in
  match f !! p with
  | Some (File _ m) | Some (Foreign _ m) => ret m
  | Some (Dir m) => ret m
  | Some (Denied e) => raise (OSError e p)
  | None => raise (OSError FileNotFoundError p)
  end.

(** Reading a whole file opened with [p.open(mode='rb')]. *)
Definition read_bytes (p : str) : M bytes :=
  let* _ := log (EvRead p) in
  let* f := get_fs in
  match f !! p with
  | Some (File data _) | Some (Foreign (Some data) _) => ret data
  | Some (Foreign None _) => raise (OSError PermissionError p)
  | Some (Dir _) => raise (OSError IsADirectoryError p)
  | Some (Denied e) => raise (OSError e p)
  | None => raise (OSError FileNotFoundError p)
  end.

(** Universal newlines, as text mode applies them when reading. *)
Fixpoint universal_newlines (s : str) : str :=
  match s with
  | [] => []
  | 13 :: s' =>
      10 :: match s' with
            | 10 :: s'' => universal_newlines s''
            | _ => universal_newlines s'
            end
  | c :: s' => c :: universal_newlines s'
  end.

Definition decode_text (data : bytes) : result str :=
  match Text.decode data with
  | Some s => Ok (universal_newlines s)
  | None => Raise UnicodeDecodeError
  end.

(** [with p.open(mode='r', encoding='utf-8') as fobj: fobj.read()] *)
Definition read_text (p : str) : M str :=
  let* data := read_bytes p in
  lift (decode_text data).

(** [with p.open(mode='wb') as fobj: fobj.write(data)]; the directory of
    [p] is there at every call site, which makes it first. *)
Definition write_bytes (p : str) (data : bytes) : M unit :=
  let* _ := log (EvWrite p) in
  let* f := get_fs in
  match f !! p with
  | Some (Dir _) => raise (OSError IsADirectoryError p)
  | Some (Foreign _ _) => raise (OSError PermissionError p)
  | Some (Denied e) => raise (OSError e p)
  | Some (File _ _) | None =>
      let* t := get_now in
      put_fs (<[p := File data t]> f)
  end.

(** On writing, text mode turns every line feed into [os.linesep]. *)
Definition write_newlines (s : str) : str :=
  flat_map (fun c => if c =? 10 then os_linesep h else [c]) s.

(** [with p.open(mode='w', encoding='utf-8') as fobj: fobj.write(s)]:
    opening truncates the file before the text is encoded. *)
Definition write_text (p : str) (s : str) : M unit :=
  let* _ := write_bytes p [] in
  match Text.encode (write_newlines s) with
  | Some data =>
      let* f := get_fs in
      let* t := get_now in
      put_fs (<[p := File data t]> f)
  | None => raise UnicodeEncodeError
  end.

(** [p.touch()]: [os.utime(p, None)], and where that fails the file is
    opened for writing, which creates it if it is not there.  Neither
    is granted for a file the caller neither owns nor may write. *)
Definition touch (p : str) : M unit :=
  let* _ := log (EvTouch p) in
  let* f := get_fs in
  let* t := get_now in
  match f !! p with
  | Some (File data _) => put_fs (<[p := File data t]> f)
  | Some (Dir _) => put_fs (<[p := Dir t]> f)
  | Some (Foreign _ _) => raise (OSError PermissionError p)
  | Some (Denied e) => raise (OSError e p)
  | None => put_fs (<[p := File [] t]> f)
  end.

(** [p.unlink()] *)
Definition unlink (p : str) : M unit :=
  let* _ := log (EvUnlink p) in
  let* f := get_fs in
  match f !! p with
  | None => raise (OSError FileNotFoundError p)
  | Some (Dir _) => raise (OSError IsADirectoryError p)
  | Some (Denied e) => raise (OSError e p)
  | Some (File _ _) | Some (Foreign _ _) =>
      if locked h p then raise (OSError PermissionError p)
      else put_fs (delete p f)
  end.

(** [p.mkdir(parents=True, exist_ok=True)] *)
Definition mkdir (p : str) : M unit :=
  let* _ := log (EvMkdir p) in
  let* f := get_fs in
  match f !! p with
  | Some (Dir _) => ret tt
  | Some (File _ _) | Some (Foreign _ _) =>
      raise (OSError FileExistsError p)
  | Some (Denied e) => raise (OSError e p)
  | None =>
      let* t := get_now in
      put_fs (<[p := Dir t]> f)
  end.

(** [list(p.iterdir())]: the entries, in the order the system lists
    them. *)
Definition iterdir (p : str) : M (list str) :=
  let* _ := log (EvIterdir p) in
  let* f := get_fs in
  match f !! p with
  | Some (Dir _) => ret (children p f)
  | Some (File _ _) | Some (Foreign _ _) =>
      raise (OSError NotADirectoryError p)
  | Some (Denied e) => raise (OSError e p)
  | None => raise (OSError FileNotFoundError p)
  end.

(** [list(p.glob('*' + infix + '*'))] for an [infix] free of pattern
    characters: the entries whose name has [infix] inside, listed by
    name without being examined.  (The directory globbed is the one the
    module was imported from, which the caller can search.) *)
Definition glob_infix (p : str) (infix : str) : M (list str) :=
  let* _ := log (EvGlob p infix) in
  let* f := get_fs in
  ret (List.filter (fun c => Text.contains (path_name c) infix)
                   (children p f)).

(** A finished child process, as [Popen] and [wait] show it. *)
Record process : Type := Process {
  returncode : Z;
  chunks : list (stream * bytes)
}.

(** Launching [argv] and waiting for it to end. *)
Definition spawn (argv : list str) : M process :=
  let* _ := log (EvSpawn argv) in
  let* f := get_fs in
  let* t := get_now in
  match run h argv f t with
  | LaunchFailure e => raise (OSError e (hd [] argv))
  | Exited code out f' =>
      let* _ := put_fs f' in
      ret (Process code out)
  end.

(** [sp.check_output(argv, stderr=sp.STDOUT)] *)
Definition check_output (argv : list str) : M bytes :=
  let* proc := spawn argv in
  if (returncode proc =? 0)%Z then ret (merged (chunks proc))
  else raise (CalledProcessError (returncode proc)).

(** [b.decode('utf-8')] *)
Definition decode_utf8 (data : bytes) : result str :=
  match Text.decode data with
  | Some s => Ok s
  | None => Raise UnicodeDecodeError
  end.

(** [s.encode('utf-8')] *)
Definition encode_utf8 (s : str) : result bytes :=
  match Text.encode s with
  | Some data => Ok data
  | None => Raise UnicodeEncodeError
  end.

(** ** Module constants *)

(** [SIG_NAME_BY_NUM]: the items of the [signal] module sorted in
    descending order, those named [SIG...] but not [SIG_...] kept, and
    entered into a dictionary by number, a later item replacing an
    earlier one with the same number. *)
Definition item_leb (a b : str * Z) : bool :=
  match Text.compare a.1 b.1 with
  | Lt => true
  | Gt => false
  | Eq => (a.2 <=? b.2)%Z
  end.

Fixpoint insert_desc (x : str * Z) (l : list (str * Z)) : list (str * Z) :=
  match l with
  | [] => [x]
  | y :: l' => if item_leb y x then x :: l else y :: insert_desc x l'
  end.

Definition sorted_reverse (l : list (str * Z)) : list (str * Z) :=
  fold_right insert_desc [] l.

Definition is_signal_name (v : str) : bool :=
  Text.startswith v (lit "SIG") && negb (Text.startswith v (lit "SIG_")).

Definition SIG_NAME_BY_NUM : gmap Z str :=
  fold_left (fun d item => if is_signal_name item.1
                           then <[item.2 := item.1]> d else d)
            (sorted_reverse (signal_dict h)) ∅.

Definition TMP_DIR : str := joinpath (Path (gettempdir h)) (lit "mdkatex").
Definition LIBDIR : str := package_dir h.
Definition PKG_BIN_DIR : str := joinpath LIBDIR (lit "bin").
Definition FALLBACK_BIN_DIR : str :=
  [os_sep h] ++ lit "usr" ++ [os_sep h] ++ lit "local"
  ++ [os_sep h] ++ lit "bin".
Definition CMD_NAME : str := lit "katex".
Definition OSNAME : str := platform_system h.
Definition MACHINE : str := platform_machine h.
Definition TMP_LOCAL_CMD_CACHE : str :=
  joinpath TMP_DIR (lit "local_katex_cmd.txt").

(** ** Binary resolution *)

Definition _get_env_paths : M (list str) :=
  let* env_path := environ_get_PATH in
  ret ((match env_path with
        | Some ((_ :: _) as path_strs) =>
            map Path (Text.split (os_pathsep h) path_strs)
        | _ => []
        end)
       ++
       (match env_path with
        | None => [FALLBACK_BIN_DIR]
        | Some s => if Text.contains s FALLBACK_BIN_DIR then []
                    else [FALLBACK_BIN_DIR]
        end)).

Definition _get_local_bin_candidates : list str :=
  if Text.eqb OSNAME (lit "Windows")
  then [CMD_NAME ++ lit ".cmd"; CMD_NAME ++ lit ".exe";
        lit "npx.cmd --no-install " ++ CMD_NAME;
        lit "npx.exe --no-install " ++ CMD_NAME;
        CMD_NAME ++ lit ".ps1";
        lit "npx.ps1 --no-install " ++ CMD_NAME]
  else [CMD_NAME; lit "npx --no-install " ++ CMD_NAME].

(** [re.match('\d+\.\d+\.\d+', s) is not None] *)
Fixpoint skip_decimals (s : str) : str :=
  match s with
  | c :: s' => if is_decimal h c then skip_decimals s' else s
  | [] => []
  end.

Definition decimals (s : str) : option str :=
  match s with
  | c :: s' => if is_decimal h c then Some (skip_decimals s') else None
  | [] => None
  end.

Definition match_version (s : str) : bool :=
  match decimals s with
  | Some (46 :: r1) =>
      match decimals r1 with
      | Some (46 :: r2) =>
          match decimals r2 with Some _ => true | None => false end
      | _ => false
      end
  | _ => false
  end.

(** A loop left by [return] at the first iteration that yields a value. *)
Fixpoint first_some {A B} (xs : list A) (body : A -> M (option B))
    : M (option B) :=
  match xs with
  | [] => ret None
  | x :: xs' =>
      let* r := body x in
      match r with
      | Some b => ret (Some b)
      | None => first_some xs' body
      end
  end.

Definition is_launch_or_exit_error (e : exn) : bool :=
  match e with
  | CalledProcessError _ | OSError _ _ => true
  | _ => false
  end.

(** The body of the inner loop of [_get_usr_parts]: [None] stands for
    [continue]. *)
Definition try_candidate (path local_cmd : str) : M (option (list str)) :=
  let local_cmd_parts := Text.split_ws local_cmd in
  let bin_name := hd [] local_cmd_parts in
  let local_bin := joinpath path bin_name in
  let* found := is_file local_bin in
  if negb found then ret None
  else
    let local_cmd_parts := local_bin :: tl local_cmd_parts in
    let* accepted :=
      try_except
        (let* output_data :=
           check_output (local_cmd_parts ++ [lit "--version"]) in
         let* output_text := lift (decode_utf8 output_data) in
         ret (match_version (Text.strip output_text)))
        is_launch_or_exit_error
        (ret false) in
    if negb accepted then ret None
    else
      let* _ := mkdir TMP_DIR in
      let* _ := write_text TMP_LOCAL_CMD_CACHE
                  (Text.join [10] local_cmd_parts) in
      ret (Some local_cmd_parts).

Definition _get_usr_parts : M (option (list str)) :=
  let* cached := exists_ TMP_LOCAL_CMD_CACHE in
  let* reused :=
    (if cached then
       let* local_cmd := read_text TMP_LOCAL_CMD_CACHE in
       let local_cmd_parts := Text.split 10 local_cmd in
       let* alive := exists_ (Path (hd [] local_cmd_parts)) in
       ret (if alive then Some local_cmd_parts else None)
     else ret None) in
  match reused with
  | Some local_cmd_parts => ret (Some local_cmd_parts)
  | None =>
      let* paths := _get_env_paths in
      first_some paths (fun path =>
        first_some _get_local_bin_candidates (try_candidate path))
  end.

Definition pkg_err_msg : str :=
  lit "Platform not supported, katex binary not found. Install manually using 'npm install katex'.".

Definition max_path (p : str) (ps : list str) : str :=
  fold_left (fun m q => if Text.leb q m then m else q) ps p.

Definition _get_pkg_bin_path : M str :=
  let machine :=
    if Text.eqb MACHINE (lit "AMD64") then lit "x86_64" else MACHINE in
  let infix := lit "_" ++ machine ++ lit "-" ++ OSNAME in
  let* bin_files := glob_infix PKG_BIN_DIR infix in
  match bin_files with
  | p :: ps => ret (max_path p ps)
  | [] => raise (NotImplementedError pkg_err_msg)
  end.

Definition get_bin_cmd : M (list str) :=
  let* usr_bin_cmd := _get_usr_parts in
  match usr_bin_cmd with
  | None => let* p := _get_pkg_bin_path in ret [p]
  | Some parts => ret parts
  end.

(** ** Building the command *)

(** [ArgValue = Union[str, int, float, bool]].  A [float] is carried by
    the text [str] prints for it. *)
Inductive ArgValue : Type :=
| VStr (s : str)
| VInt (n : Z)
| VFloat (repr : str)
| VBool (b : bool).

(** [Options = Dict[str, ArgValue]], in iteration order. *)
Definition Options : Type := list (str * ArgValue).

(** [str(v)] *)
Definition str_of_value (v : ArgValue) : str :=
  match v with
  | VStr s => s
  | VInt n => Text.str_of_int n
  | VFloat repr => repr
  | VBool true => lit "True"
  | VBool false => lit "False"
  end.

(** The loop over [options.items()]; [yielded] is what the generator
    has produced so far. *)
Fixpoint yield_options (yielded : list str) (items : Options) : list str :=
  match items with
  | [] => yielded
  | (option_name, option_value) :: items' =>
      let arg_name :=
        if Text.startswith option_name (lit "--") then option_name
        else lit "--" ++ option_name in
      match option_value with
      | VBool true => yield_options (yielded ++ [arg_name]) items'
      | VBool false => yield_options yielded items'
      | _ =>
          let arg_value := str_of_value option_value in
          yield_options (yielded ++ [arg_name] ++ [arg_value]) items'
      end
  end.

(** [list(_iter_cmd_parts(options))] *)
Definition _iter_cmd_parts (options : option Options) : M (list str) :=
  let* bin_cmd := get_bin_cmd in
  match options with
  | Some ((_ :: _) as items) => ret (yield_options bin_cmd items)
  | _ => ret bin_cmd
  end.

(** ** The cache key *)

(** A [hashlib.sha256] object is the message fed to it so far. *)
Definition hasher : Type := bytes.
Definition sha256_new (data : bytes) : hasher := data.
Definition sha256_update (hs : hasher) (data : bytes) : hasher := hs ++ data.
Definition sha256_hexdigest (hs : hasher) : str := Sha256.hexdigest hs.

Fixpoint update_all (hs : hasher) (cmd_parts : list str) : result hasher :=
  match cmd_parts with
  | [] => Ok hs
  | cmd_part :: rest =>
      match encode_utf8 cmd_part with
      | Ok data => update_all (sha256_update hs data) rest
      | Raise e => Raise e
      end
  end.

Definition _cmd_digest (tex : str) (cmd_parts : list str) : result str :=
  match encode_utf8 tex with
  | Ok data =>
      match update_all (sha256_new data) cmd_parts with
      | Ok hs => Ok (sha256_hexdigest hs)
      | Raise e => Raise e
      end
  | Raise e => Raise e
  end.

(** ** Running the renderer *)

(** [proc.stdout.close()] and [proc.stderr.close()] *)
Definition close_pipes : M unit := log EvClose.

(** [_iter_output_lines(buf)]: the lines [buf.readline()] returns until
    it returns nothing; a line ends after its line feed.  [line] holds
    the bytes of the line being read, last first. *)
Fixpoint readlines (line : bytes) (buf : bytes) : list bytes :=
  match buf with
  | [] => match line with [] => [] | _ => [rev line] end
  | b :: buf' =>
      if Byte.eqb b x0a then rev (b :: line) :: readlines [] buf'
      else readlines (b :: line) buf'
  end.

Definition _iter_output_lines (buf : bytes) : list bytes := readlines [] buf.

(** [read_output(buf)] *)
Definition read_output (buf : bytes) : result str :=
  decode_utf8 (concat (_iter_output_lines buf)).

Definition tmp_input_file_of (tmp_output_file : str) : str :=
  joinpath TMP_DIR
    (Text.replace (path_name tmp_output_file) (lit ".html") (lit ".tex")).

Definition signal_err_msg (tex : str) (ret_code : Z) (signame : str) : str :=
  (lit "Error processing '" ++ tex ++ lit "': ")
  ++ lit "katex_cli process ended with "
  ++ (lit "code " ++ Text.str_of_int ret_code
      ++ lit " (" ++ signame ++ lit ")").

Definition exit_err_msg (tex : str) (output : str) : str :=
  lit "Error processing '" ++ tex ++ lit "': " ++ output.

(** [cmd_parts.extend([...])]: the list that reaches [Popen]. *)
Definition extend_cmd_parts (cmd_parts : list str)
    (tmp_input_file tmp_output_file : str) : list str :=
  cmd_parts ++ [lit "--input"; tmp_input_file;
                lit "--output"; tmp_output_file].

(** What [_write_tex2html] does with a process that has ended: the part
    of its [try] block after [proc.wait()]. *)
Definition check_exit (tex : str) (proc : process) : result unit :=
  let ret_code := returncode proc in
  if (ret_code <? 0)%Z then
    match SIG_NAME_BY_NUM !! Z.abs ret_code with
    | Some signame => Raise (KatexError (signal_err_msg tex ret_code signame))
    | None => Raise (KeyError (Z.abs ret_code))
    end
  else if (ret_code >? 0)%Z then
    match read_output (output_of Stdout (chunks proc)) with
    | Ok stdout =>
        match read_output (output_of Stderr (chunks proc)) with
        | Ok errout =>
            let output := Text.strip (stdout ++ [10] ++ errout) in
            Raise (KatexError (exit_err_msg tex output))
        | Raise e => Raise e
        end
    | Raise e => Raise e
    end
  else Ok tt.

Definition _write_tex2html (cmd_parts : list str) (tex : str)
    (tmp_output_file : str) : M unit :=
  let tmp_input_file := tmp_input_file_of tmp_output_file in
  let* input_data := lift (encode_utf8 tex) in
  let* _ := mkdir TMP_DIR in
  let* _ := write_bytes tmp_input_file input_data in
  let cmd_parts := extend_cmd_parts cmd_parts tmp_input_file tmp_output_file in
  let* _ :=
    try_finally_from (spawn cmd_parts)
      (fun proc => lift (check_exit tex proc))
      (fun proc =>
         match proc with
         | Some _ => close_pipes
         | None => ret tt
         end) in
  unlink tmp_input_file.

(** ** The janitor *)

(** The body of the loop of [_cleanup_tmp_dir]. *)
Definition sweep_entry (min_mtime : Z) (fpath : str) : M unit :=
  let* regular := is_file fpath in
  if regular then
    let* mtime := stat_mtime fpath in
    if (mtime <? min_mtime)%Z then unlink fpath else ret tt
  else ret tt.

Definition _cleanup_tmp_dir : M unit :=
  let* t := time in
  let min_mtime := (t - 24 * 60 * 60)%Z in
  let* entries := iterdir TMP_DIR in
  for_each entries (sweep_entry min_mtime).

(** ** The render call *)

(** The [try] block of [tex2html]. *)
Definition tex2html_try (cmd_parts : list str) (tex : str)
    (tmp_output_file : str) : M str :=
  let* hit := exists_ tmp_output_file in
  let* _ := (if hit then touch tmp_output_file
             else _write_tex2html cmd_parts tex tmp_output_file) in
  let* result := read_text tmp_output_file in
  ret (Text.strip result).

Definition cache_file (digest : str) : str :=
  joinpath TMP_DIR (digest ++ lit ".html").

Definition tex2html (tex : str) (options : option Options) : M str :=
  let* cmd_parts := _iter_cmd_parts options in
  let* digest := lift (_cmd_digest tex cmd_parts) in
  let tmp_filename := digest ++ lit ".html" in
  let tmp_output_file := joinpath TMP_DIR tmp_filename in
  try_finally (tex2html_try cmd_parts tex tmp_output_file)
              _cleanup_tmp_dir.

End Program.

(** ** Regular expressions *)

Module Re.

(** The patterns of the module: literal text, a run of characters of
    one class (at least [min] of them; greedy, or lazy as [+?] is), an
    optional part, a sequence, and a named group. *)
Inductive regex : Type :=
| Lit (s : str)
| Many (p : char -> bool) (min : nat) (greedy : bool)
| Opt (r : regex)
| Cat (r1 r2 : regex)
| Group (name : string) (r : regex).

Definition seq (rs : list regex) : regex := fold_right Cat (Lit []) rs.

(** The groups of a match, the last one captured first. *)
Definition captures : Type := list (string * str).

Section Exec.

Context {A : Type}.

(** A greedy run takes all it can and gives back one character at a
    time while the rest of the pattern fails; [n] counts what is
    taken. *)
Fixpoint many_greedy (p : char -> bool) (min n : nat) (s : str)
    (k : str -> option A) : option A :=
  match s with
  | c :: s' =>
      if p c then
        match many_greedy p min (S n) s' k with
        | Some a => Some a
        | None => if Nat.leb min n then k s else None
        end
      else if Nat.leb min n then k s else None
  | [] => if Nat.leb min n then k s else None
  end.

(** A lazy run takes as little as it can and one character more while
    the rest of the pattern fails. *)
Fixpoint many_lazy (p : char -> bool) (min n : nat) (s : str)
    (k : str -> option A) : option A :=
  match (if Nat.leb min n then k s else None) with
  | Some a => Some a
  | None =>
      match s with
      | c :: s' => if p c then many_lazy p min (S n) s' k else None
      | [] => None
      end
  end.

(** Matching by backtracking: [k] is the rest of the pattern, applied
    to the rest of the text and the groups captured so far. *)
Fixpoint exec (r : regex) (s : str) (caps : captures)
    (k : str -> captures -> option A) : option A :=
  match r with
  | Lit t =>
      if Text.startswith s t then k (skipn (List.length t) s) caps else None
  | Many p min greedy =>
      (if greedy then many_greedy else many_lazy) p min O s
        (fun rest => k rest caps)
  | Opt r' =>
      match exec r' s caps k with
      | Some a => Some a
      | None => k s caps
      end
  | Cat r1 r2 => exec r1 s caps (fun rest caps' => exec r2 rest caps' k)
  | Group name r' =>
      exec r' s caps
        (fun rest caps' =>
           k rest ((name, firstn (List.length s - List.length rest) s)
                   :: caps'))
  end.

End Exec.

(** A match at the start of [s]: the text after it and its groups. *)
Definition match_at (r : regex) (s : str) : option (str * captures) :=
  exec r s [] (fun rest caps => Some (rest, caps)).

(** [m.group(name)] *)
Fixpoint group (name : string) (caps : captures) : str :=
  match caps with
  | [] => []
  | (n, v) :: caps' => if String.eqb n name then v else group name caps'
  end.

(** [r.finditer(s)]: the matches from left to right, none overlapping
    an earlier one.  [skip] counts the characters of the last match
    still to pass.  (After a match of no character the scan moves on
    by one; no pattern of the module has such a match.) *)
Fixpoint finditer_from (r : regex) (skip : nat) (s : str) : list captures :=
  match skip with
  | S n =>
      match s with
      | [] => []
      | _ :: s' => finditer_from r n s'
      end
  | O =>
      match match_at r s with
      | Some (rest, caps) =>
          caps :: match s with
                  | [] => []
                  | _ :: s' =>
                      finditer_from r
                        (Nat.pred (List.length s - List.length rest)) s'
                  end
      | None =>
          match s with
          | [] => []
          | _ :: s' => finditer_from r O s'
          end
      end
  end.

Definition finditer (r : regex) (s : str) : list captures :=
  finditer_from r O s.

(** [r.search(s)]: the first position at which [r] matches, as what
    stands before the match, the match and what stands after it. *)
Fixpoint search_from (r : regex) (before : str) (s : str)
    : option (str * str * str) :=
  match match_at r s with
  | Some (rest, _) =>
      Some (rev before, firstn (List.length s - List.length rest) s, rest)
  | None =>
      match s with
      | [] => None
      | c :: s' => search_from r (c :: before) s'
      end
  end.

Definition search (r : regex) (s : str) : option (str * str * str) :=
  search_from r [] s.

(** The pattern has a group called [name]. *)
Fixpoint has_group (name : string) (r : regex) : bool :=
  match r with
  | Lit _ | Many _ _ _ => false
  | Opt r' => has_group name r'
  | Cat r1 r2 => has_group name r1 || has_group name r2
  | Group n r' => String.eqb n name || has_group name r'
  end.

End Re.

(** ** Dictionaries *)

(** A [dict] with text keys, in insertion order: a new key goes to the
    end, a key that is there keeps its place. *)
Definition dict (V : Type) : Type := list (str * V).

Fixpoint dict_get {V} (k : str) (d : dict V) : option V :=
  match d with
  | [] => None
  | (k', v) :: d' => if Text.eqb k' k then Some v else dict_get k d'
  end.

(** [d[k] = v] *)
Fixpoint dict_set {V} (k : str) (v : V) (d : dict V) : dict V :=
  match d with
  | [] => [(k, v)]
  | (k', v') :: d' =>
      if Text.eqb k' k then (k', v) :: d' else (k', v') :: dict_set k v d'
  end.

(** [d.pop(k, None)] *)
Definition dict_pop {V} (k : str) (d : dict V) : dict V :=
  List.filter (fun item => negb (Text.eqb item.1 k)) d.

(** [d.update(other)] *)
Definition dict_update {V} (d other : dict V) : dict V :=
  fold_left (fun acc item => dict_set item.1 item.2 acc) other d.

(** ** The options of the renderer *)

(** [s.splitlines()] *)
Definition is_linebreak (c : char) : bool :=
  ((10 <=? c) && (c <=? 13)) || ((28 <=? c) && (c <=? 30))
  || (c =? 133) || (c =? 8232) || (c =? 8233).

Fixpoint splitlines_from (line : str) (s : str) : list str :=
  match s with
  | [] => match line with [] => [] | _ => [rev line] end
  | c :: s' =>
      if is_linebreak c then
        rev line :: match s' with
                    | c' :: s'' =>
                        if (c =? 13) && (c' =? 10)
                        then splitlines_from [] s''
                        else splitlines_from [] s'
                    | [] => []
                    end
      else splitlines_from (c :: line) s'
  end.

Definition splitlines (s : str) : list str := splitlines_from [] s.

(** [s.split(sep, 1)[-1]]: what follows the first [sep], or all of [s]
    when [sep] does not occur. *)
Fixpoint after_first (sep : str) (s : str) : option str :=
  if Text.startswith s sep then Some (skipn (List.length sep) s)
  else match s with
       | [] => None
       | _ :: s' => after_first sep s'
       end.

Definition split_once_last (s sep : str) : str :=
  default s (after_first sep s).

Definition DEFAULT_HELP_TEXT : str :=
  let text :=
    [10] ++ concat (map (fun line => lit line ++ [10])
      ["Options:";
       "  -V, --version              output the version number";
       "  -d, --display-mode         Render math in display...";
       "  --leqno                    Render display math in...";
       "  --fleqn                    Render display math fl...";
       "  -t, --no-throw-on-error    Render errors (in the ...";
       "  -c, --error-color <color>  A color string given i...";
       "  -b, --color-is-text-color  Makes \color behave li...";
       "  -S, --strict               Turn on strict / LaTeX...";
       "  -s, --max-size <n>         If non-zero, all user-...";
       "  -e, --max-expand <n>       Limit the number of ma...";
       "  -m, --macro <def>          Define custom macro of...";
       "  -f, --macro-file <path>    Read macro definitions...";
       "  -i, --input <path>         Read LaTeX input from ...";
       "  -o, --output <path>        Write html output to t...";
       "  -h, --help                 output usage information"]%string) in
  Text.replace (Text.replace text [10] (lit " ")) (lit "NL") [10].

Definition OptionsHelp : Type := dict str.

Definition is_name_char (c : char) : bool :=
  ((97 <=? c) && (c <=? 122)) || (c =? 45).

Section Catalogue.

(** The alphanumeric characters of the interpreter's Unicode database
    ([str.isalnum]), which decide what [\w] matches. *)
Context (isalnum : char -> bool).

Definition is_word (c : char) : bool := isalnum c || (c =? 95).

Definition is_text_char (c : char) : bool :=
  Text.isspace c || is_word c
  || existsb (N.eqb c) (lit " (){},:;.'\/[]").

(** [OPTION_PATTERN], compiled with [re.VERBOSE]. *)
Definition OPTION_REGEX : Re.regex :=
  Re.seq
    [Re.Lit (lit "--");
     Re.Group "name" (Re.Many is_name_char 1 true);
     Re.Many Text.isspace 1 true;
     Re.Opt (Re.seq [Re.Lit (lit "<"); Re.Many is_name_char 1 true;
                     Re.Lit (lit ">")]);
     Re.Many Text.isspace 1 true;
     Re.Group "text"
       (Re.seq [Re.Many (fun c => negb (c =? 10)) 0 true;
                Re.Many is_text_char 0 true])].

(** The body of the loop over the matches. *)
Definition add_option (options : OptionsHelp) (m : Re.captures)
    : OptionsHelp :=
  let name := Re.group "name" m in
  let text := Re.group "text" m in
  let text := Text.join (lit " ") (map Text.strip (splitlines text)) in
  dict_set name (Text.strip text) options.

Definition _parse_options_help_text (help_text : str) : OptionsHelp :=
  let options_text := split_once_last help_text (lit "Options:") in
  let options :=
    fold_left add_option (Re.finditer OPTION_REGEX options_text) [] in
  let options := dict_pop (lit "version") options in
  let options := dict_pop (lit "help") options in
  let options := dict_pop (lit "input") options in
  let options := dict_pop (lit "output") options in
  dict_pop (lit "display-mode") options.

Context (h : host).

(** [proc.stdout.close()] *)
Definition close_stdout : M unit := log EvClose.

(** The command is started with its standard output on a pipe and read
    to the end of the stream, which is when the command has ended; its
    exit status is not looked at. *)
Definition _get_cmd_help_text : M str :=
  let* bin_parts := get_bin_cmd h in
  let cmd_parts := bin_parts ++ [lit "--help"] in
  try_finally_from (spawn h cmd_parts)
    (fun proc => lift (read_output (output_of Stdout (chunks proc))))
    (fun proc =>
       match proc with
       | Some _ => close_stdout
       | None => ret tt
       end).

Definition is_not_implemented (e : exn) : bool :=
  match e with
  | NotImplementedError _ => true
  | _ => false
  end.

(** [parse_options()]; the module's [_PARSED_OPTIONS] goes in and comes
    out beside the result. *)
Definition parse_options (_PARSED_OPTIONS : OptionsHelp)
    : M (OptionsHelp * OptionsHelp) :=
  match _PARSED_OPTIONS with
  | _ :: _ => ret (_PARSED_OPTIONS, _PARSED_OPTIONS)
  | [] =>
      let options := _parse_options_help_text DEFAULT_HELP_TEXT in
      let* options :=
        try_except
          (let* help_text := _get_cmd_help_text in
           let cmd_options := _parse_options_help_text help_text in
           ret (dict_update options cmd_options))
          is_not_implemented
          (ret options) in
      ret (options, dict_update _PARSED_OPTIONS options)
  end.

End Catalogue.

(** ** Inline formulas ([extension.py]) *)

(** [INLINE_DELIM_RE]: a dollar sign, one or more characters that are
    neither white space nor a dollar sign, as few as will do, and a
    dollar sign. *)
Definition is_inline_char (c : char) : bool :=
  negb (Text.isspace c || (c =? 36)).

Definition INLINE_DELIM_RE : Re.regex :=
  Re.Group "1"
    (Re.seq [Re.Lit (lit "$"); Re.Many is_inline_char 1 false;
             Re.Lit (lit "$")]).

Record InlineCodeItem : Type := {
  inline_text : str;
  item_start : nat;
  item_end : nat
}.

(** [s.count(c)] for one character. *)
Definition count_char (c : char) (s : str) : nat :=
  List.length (List.filter (N.eqb c) s).

(** The loop of [iter_inline_katex] as one pass over the line:
    [INLINE_DELIM_RE.search(line, pos)] finds the first position from
    [pos] on at which the pattern matches, and the next search starts
    where that match ends.  [s] is the line from [pos] on and [skip]
    counts the characters of the last match still to pass. *)
Fixpoint iter_inline_from (line : str) (skip pos : nat) (s : str)
    : list InlineCodeItem :=
  match skip with
  | S n =>
      match s with
      | [] => []
      | _ :: s' => iter_inline_from line n (S pos) s'
      end
  | O =>
      match Re.match_at INLINE_DELIM_RE s with
      | Some (rest, _) =>
          let start := pos in
          let end_ := (pos + (List.length s - List.length rest))%nat in
          let later :=
            match s with
            | [] => []
            | _ :: s' =>
                iter_inline_from line
                  (Nat.pred (List.length s - List.length rest)) (S pos) s'
            end in
          if Nat.odd (count_char 96 (firstn start line)) then later
          else {| inline_text := firstn (end_ - start) (skipn start line);
                  item_start := start;
                  item_end := end_ |} :: later
      | None =>
          match s with
          | [] => []
          | _ :: s' => iter_inline_from line O (S pos) s'
          end
      end
  end.

Definition iter_inline_katex (line : str) : list InlineCodeItem :=
  iter_inline_from line O O line.

(** [s.endswith(p)] *)
Definition endswith (s p : str) : bool := Text.startswith (rev s) (rev p).

Definition _clean_inline_text (inline_text : str) : str :=
  let inline_text :=
    if Text.startswith inline_text (lit "$")
    then skipn (List.length (lit "$")) inline_text else inline_text in
  if endswith inline_text (lit "$")
  then firstn (List.length inline_text - List.length (lit "$")) inline_text
  else inline_text.

(** ** Inline SVG as images ([extension.py]) *)

(** [base64.standard_b64encode] *)
Definition b64_alphabet : str :=
  lit "ABCDEFGHIJKLMNOPQRSTUVWXYZabcdefghijklmnopqrstuvwxyz0123456789+/".

Definition b64_digit (n : N) : byte :=
  byte_of_N (nth (N.to_nat n) b64_alphabet 61).

Fixpoint standard_b64encode (data : bytes) : bytes :=
  match data with
  | [] => []
  | [a] =>
      let x := Byte.to_N a in
      [b64_digit (x / 4); b64_digit (x mod 4 * 16); x3d; x3d]
  | [a; b] =>
      let x := Byte.to_N a in
      let y := Byte.to_N b in
      [b64_digit (x / 4); b64_digit (x mod 4 * 16 + y / 16);
       b64_digit (y mod 16 * 4); x3d]
  | a :: b :: c :: rest =>
      let x := Byte.to_N a in
      let y := Byte.to_N b in
      let z := Byte.to_N c in
      b64_digit (x / 4) :: b64_digit (x mod 4 * 16 + y / 16)
      :: b64_digit (y mod 16 * 4 + z / 64) :: b64_digit (z mod 64)
      :: standard_b64encode rest
  end.

(** [SVG_ELEM_RE], compiled with [re.DOTALL]: the dot is any
    character. *)
Definition SVG_ELEM_RE : Re.regex :=
  Re.seq [Re.Lit (lit "<svg"); Re.Many (fun _ => true) 0 false;
          Re.Lit (lit "</svg>")].

Definition SVG_XMLNS : str :=
  (lit "xmlns=" ++ [34] ++ lit "http://www.w3.org/2000/svg" ++ [34]
   ++ lit " ")
  ++ (lit "xmlns:xlink=" ++ [34] ++ lit "http://www.w3.org/1999/xlink"
      ++ [34] ++ lit " ").

(** [B64IMG_TMPL.format(img_text=...)] *)
Definition B64IMG_TMPL (img_text : str) : str :=
  lit "<img src=" ++ [34] ++ lit "data:image/svg+xml;base64," ++ img_text
  ++ [34] ++ lit "/>".

(** One turn of the loop of [svg2img]: the text with its first element
    replaced, or [None] at the [break]. *)
Definition svg2img_step (html : str) : result (option str) :=
  match Re.search SVG_ELEM_RE html with
  | Some (before, svg_text, after) =>
      let svg_text :=
        if negb (Text.contains svg_text (lit "xmlns"))
        then Text.replace svg_text (lit "<svg ") (lit "<svg " ++ SVG_XMLNS)
        else svg_text in
      match encode_utf8 svg_text with
      | Ok svg_data =>
          let img_b64_data := standard_b64encode svg_data in
          match decode_utf8 img_b64_data with
          | Ok img_b64_text =>
              let img_b64_tag := B64IMG_TMPL img_b64_text in
              Ok (Some (before ++ img_b64_tag ++ after))
          | Raise e => Raise e
          end
      | Raise e => Raise e
      end
  | None => Ok None
  end.

(** The loop, for at most [fuel] turns; [None] when they do not
    suffice. *)
Fixpoint svg2img_loop (fuel : nat) (html : str) : option (result str) :=
  match fuel with
  | O => None
  | S fuel' =>
      match svg2img_step html with
      | Ok (Some html') => svg2img_loop fuel' html'
      | Ok None => Some (Ok html)
      | Raise e => Some (Raise e)
      end
  end.

(** The places at which [p] begins in [s]. *)
Fixpoint openings (p : str) (s : str) : nat :=
  match s with
  | [] => O
  | _ :: s' => ((if Text.startswith s p then 1 else 0) + openings p s')%nat
  end.

(** [svg2img(html)]: every turn of the loop takes away an opening
    [<svg], so one turn more than there are openings is enough. *)
Definition svg2img (html : str) : option (result str) :=
  svg2img_loop (S (openings (lit "<svg") html)) html.

(** ** Rendering for the extension ([extension.py]) *)

(** The truth value of an option's value. *)
Definition truthy (v : ArgValue) : bool :=
  match v with
  | VStr s => negb (Text.eqb s [])
  | VInt n => negb (n =? 0)%Z
  | VFloat repr =>
      negb (Text.eqb repr (lit "0.0") || Text.eqb repr (lit "-0.0"))
  | VBool b => b
  end.

Module Extension.

Section Rendering.

Context (h : host).

(** [tex2html(tex, options)] of the extension.  The dictionary is the
    caller's and the two [pop]s change it in place: what the caller
    holds after a call that returned comes out beside the result.
    ([svg2img] returns for every text.) *)
Definition tex2html (tex : str) (options : option Options)
    : M (str * option Options) :=
  let no_inline_svg :=
    match options with
    | Some ((_ :: _) as o) =>
        match dict_get (lit "no_inline_svg") o with
        | Some v => truthy v
        | None => false
        end
    | _ => false
    end in
  let options :=
    match options with
    | Some ((_ :: _) as o) =>
        Some (dict_pop (lit "insert_fonts_css")
                (dict_pop (lit "no_inline_svg") o))
    | _ => options
    end in
  let* result := tex2html h tex options in
  let* result :=
    (if no_inline_svg
     then lift (default (Ok result) (svg2img result))
     else ret result) in
  ret (result, options).

End Rendering.

End Extension.

(** ** The specification's reading of the command builder *)

(** The tokens one option contributes, in the words of the contract. *)
Definition spec_flag_name (name : str) : str :=
  if Text.startswith name (lit "--") then name else lit "--" ++ name.

Definition spec_option_tokens (item : str * ArgValue) : list str :=
  match item.2 with
  | VBool true => [spec_flag_name item.1]
  | VBool false => []
  | v => [spec_flag_name item.1; str_of_value v]
  end.

Definition spec_build (prefix : list str) (options : option Options)
    : list str :=
  prefix ++ flat_map spec_option_tokens (default [] options).

(** The message the digest is taken of, in the words of the contract:
    the bytes of the text, then those of each token in order. *)
Fixpoint encode_all (parts : list str) : option bytes :=
  match parts with
  | [] => Some []
  | p :: ps =>
      match Text.encode p, encode_all ps with
      | Some b, Some bs => Some (b ++ bs)
      | _, _ => None
      end
  end.

Definition spec_digest_message (tex : str) (cmd_parts : list str)
    : option bytes :=
  match Text.encode tex, encode_all cmd_parts with
  | Some t, Some a => Some (t ++ a)
  | _, _ => None
  end.

(** ** Vocabulary of the statements *)

(** A lower-case hexadecimal digit. *)
Definition is_lower_hex (c : char) : bool :=
  ((48 <=? c) && (c <=? 57)) || ((97 <=? c) && (c <=? 102)).

(** The command lines started, in order. *)
Definition spawns (evs : list event) : list (list str) :=
  flat_map (fun e => match e with EvSpawn argv => [argv] | _ => [] end) evs.

(** A computation that leaves the clock alone and adds to the record
    only system calls that satisfy [P]. *)
Definition traced (P : event -> Prop) {A} (m : M A) : Prop :=
  forall w, now (m w).2 = now w
            /\ exists evs, trace (m w).2 = trace w ++ evs /\ Forall P evs.

Definition not_spawn (e : event) : Prop :=
  match e with EvSpawn _ => False | _ => True end.

Definition spawn_only (argv : list str) (e : event) : Prop :=
  match e with EvSpawn a => a = argv | _ => True end.

(** A regular file last modified before [min_mtime]. *)
Definition stale (min_mtime : Z) (n : option node) : bool :=
  match n with
  | Some (File _ m) | Some (Foreign _ m) => (m <? min_mtime)%Z
  | _ => false
  end.

Definition retention : Z := 86400.

(** What the methods of a path answer for a node: [exists] answers
    [True]; [exists] and [is_file] answer and do not raise; [is_file]
    answers [False]. *)
Definition is_present (n : option node) : bool :=
  match stat_errno n with None => true | Some _ => false end.

Definition examinable (n : option node) : bool :=
  match stat_errno n with None => true | Some e => _ignore_error e end.

Definition is_no_file (n : option node) : bool :=
  examinable n && negb (is_regular n).

(** Where a file can be written: at nothing or at a file of the caller;
    where [mkdir] with [exist_ok] succeeds: at nothing or at a
    directory. *)
Definition writable (n : option node) : bool :=
  match n with None | Some (File _ _) => true | _ => false end.

Definition dir_or_absent (n : option node) : bool :=
  match n with None | Some (Dir _) => true | _ => false end.

(** A regular file that the caller may read, the caller's own or
    another user's, with its bytes: those a read returns. *)
Definition holds (n : option node) (data : bytes) : Prop :=
  exists m, n = Some (File data m) \/ n = Some (Foreign (Some data) m).

(** Every entry of the cache directory can be examined, and none that
    the sweep would delete is one the system refuses to remove. *)
Definition sweep_safe (h : host) (f : gmap str node) (t : Z) : Prop :=
  forall p, is_child h (TMP_DIR h) p = true ->
            examinable (f !! p) = true
            /\ (stale (t - retention) (f !! p) = true ->
                locked h p = false).

(** An entry at which the sweep made at time [t] fails with the error
    [e]: it cannot be examined, or it is stale and the system refuses
    to remove it. *)
Definition resists (h : host) (f : gmap str node) (t : Z) (p : str)
    (e : os_error) : Prop :=
  (stat_errno (f !! p) = Some e /\ _ignore_error e = false)
  \/ (stale (t - retention) (f !! p) = true /\ locked h p = true
      /\ e = PermissionError).

(** The files once [mkdir] has made sure of the directory [p]. *)
Definition with_dir (p : str) (t : Z) (f : gmap str node) : gmap str node :=
  match f !! p with
  | None => <[p := Dir t]> f
  | Some _ => f
  end.

(** The files the renderer is started on: the cache directory made sure
    of, and the input file written. *)
Definition staged (h : host) (w : world) (tmp_input_file : str)
    (input_data : bytes) : gmap str node :=
  <[tmp_input_file := File input_data (now w)]>
    (with_dir (TMP_DIR h) (now w) (fs w)).

(** A well-formed item of a line: its text is the slice
    [line[start:end]], a formula between two dollar signs that is not
    empty and holds neither white space nor a dollar sign, and an even
    number of backticks stands before it. *)
Definition inline_item (line : str) (i : InlineCodeItem) : Prop :=
  exists body,
    inline_text i = [36] ++ body ++ [36]
    /\ body <> []
    /\ forallb is_inline_char body = true
    /\ firstn (item_end i - item_start i) (skipn (item_start i) line)
       = inline_text i
    /\ item_end i = (item_start i + List.length (inline_text i))%nat
    /\ (item_end i <= List.length line)%nat
    /\ Nat.even (count_char 96 (firstn (item_start i) line)) = true.

(** The system calls of the janitor. *)
Definition is_sweep (e : event) : Prop :=
  match e with
  | EvTime | EvIterdir _ | EvIsFile _ | EvStat _ | EvUnlink _ => True
  | _ => False
  end.

(** The system calls that look and do not touch. *)
Definition is_look (e : event) : Prop :=
  match e with
  | EvEnviron | EvExists _ | EvIsFile _ | EvRead _ | EvGlob _ _ => True
  | _ => False
  end.

(** The same files and clock, no further process started: nothing
    happened but looking. *)
Definition undisturbed (w w' : world) : Prop :=
  fs w' = fs w /\ now w' = now w /\ spawns (trace w') = spawns (trace w)
  /\ exists evs, trace w' = trace w ++ evs /\ Forall is_look evs.

(** The file a candidate command is looked for at in a directory of the
    search path, the command that results, and its version query. *)
Definition candidate_bin (h : host) (path local_cmd : str) : str :=
  joinpath h path (hd [] (Text.split_ws local_cmd)).

Definition candidate_parts (h : host) (path local_cmd : str) : list str :=
  candidate_bin h path local_cmd :: tl (Text.split_ws local_cmd).

Definition version_argv (h : host) (path local_cmd : str) : list str :=
  candidate_parts h path local_cmd ++ [lit "--version"].

(** A version query that does not make its candidate the resolved
    command: it cannot be started, it fails, or what it prints does not
    begin with a version number. *)
Definition rejected (h : host) (o : outcome) : Prop :=
  match o with
  | LaunchFailure _ => True
  | Exited code out _ =>
      code <> 0%Z
      \/ exists text, Text.decode (merged out) = Some text
                      /\ match_version h (Text.strip text) = false
  end.

(** [is_file] answers, and does not raise, at every candidate name in
    every directory of a search path. *)
Definition answered (h : host) (paths : list str) (f : gmap str node)
    : Prop :=
  forall p c, In p paths -> In c (_get_local_bin_candidates h) ->
              examinable (f !! candidate_bin h p c) = true.

(** The system calls of a search: reading the search path, looking at
    files and starting programs. *)
Definition is_probe (e : event) : Prop :=
  match e with
  | EvEnviron | EvExists _ | EvIsFile _ | EvSpawn _ => True
  | _ => False
  end.

(** The files as a finished or failed launch leaves them. *)
Definition files_after (o : outcome) (f : gmap str node) : gmap str node :=
  match o with
  | LaunchFailure _ => f
  | Exited _ _ f' => f'
  end.

(** The name pattern of the bundled binaries of this platform, and an
    entry of the package's [bin] directory that matches it. *)
Definition bundle_infix (h : host) : str :=
  lit "_"
  ++ (if Text.eqb (MACHINE h) (lit "AMD64") then lit "x86_64" else MACHINE h)
  ++ lit "-" ++ OSNAME h.

Definition bundled (h : host) (f : gmap str node) (p : str) : Prop :=
  is_child h (PKG_BIN_DIR h) p = true
  /\ is_Some (f !! p)
  /\ Text.contains (path_name h p) (bundle_infix h) = true.

(** ** A concrete machine for examples *)

Module Scenario.

(** The integer attributes of the [signal] module on Linux. *)
Definition sig (name : string) (num : Z) : str * Z := (lit name, num).

Definition linux_signals : list (str * Z) :=
  [sig "ITIMER_PROF" 2; sig "ITIMER_REAL" 0; sig "ITIMER_VIRTUAL" 1;
   sig "NSIG" 65; sig "SIGABRT" 6; sig "SIGALRM" 14; sig "SIGBUS" 7;
   sig "SIGCHLD" 17; sig "SIGCLD" 17; sig "SIGCONT" 18; sig "SIGFPE" 8;
   sig "SIGHUP" 1; sig "SIGILL" 4; sig "SIGINT" 2; sig "SIGIO" 29;
   sig "SIGIOT" 6; sig "SIGKILL" 9; sig "SIGPIPE" 13; sig "SIGPOLL" 29;
   sig "SIGPROF" 27; sig "SIGPWR" 30; sig "SIGQUIT" 3; sig "SIGRTMAX" 64;
   sig "SIGRTMIN" 34; sig "SIGSEGV" 11; sig "SIGSTKFLT" 16;
   sig "SIGSTOP" 19; sig "SIGSYS" 31; sig "SIGTERM" 15; sig "SIGTRAP" 5;
   sig "SIGTSTP" 20; sig "SIGTTIN" 21; sig "SIGTTOU" 22; sig "SIGURG" 23;
   sig "SIGUSR1" 10; sig "SIGUSR2" 12; sig "SIGVTALRM" 26;
   sig "SIGWINCH" 28; sig "SIGXCPU" 24; sig "SIGXFSZ" 25;
   sig "SIG_BLOCK" 0; sig "SIG_DFL" 0; sig "SIG_IGN" 1;
   sig "SIG_SETMASK" 2; sig "SIG_UNBLOCK" 1].

Definition ascii_decimal (c : char) : bool := (48 <=? c) && (c <=? 57).

(** A Linux machine; what varies between examples is the [PATH], the
    paths that resist removal and the behaviour of programs. *)
Definition linux (path : option str) (locked : str -> bool)
    (run : list str -> gmap str node -> Z -> outcome) : host :=
  {| platform_system := lit "Linux";
     platform_machine := lit "x86_64";
     os_sep := 47;
     os_pathsep := 58;
     os_linesep := [10];
     gettempdir := lit "/tmp";
     package_dir := lit "/opt/markdown_katex";
     environ_PATH := path;
     signal_dict := linux_signals;
     is_decimal := ascii_decimal;
     locked := locked;
     run := run |}.

Definition nothing_locked (p : str) : bool := false.

(** The token that follows [--output]. *)
Fixpoint output_arg (argv : list str) : option str :=
  match argv with
  | a :: ((b :: _) as rest) =>
      if Text.eqb a (lit "--output") then Some b else output_arg rest
  | _ => None
  end.

(** A stand-in for the programs of the machine.  Asked for its version,
    a program prints [version] and exits with [version_code]; asked to
    render, it writes the line [html] (if any) to the output path,
    prints [said] and exits with [render_code]. *)
Definition stub (version_code : Z) (version : string)
    (render_code : Z) (said : list (stream * bytes)) (html : option string)
    : list str -> gmap str node -> Z -> outcome :=
  fun argv f t =>
    if Text.eqb (List.last argv []) (lit "--version")
    then Exited version_code [(Stdout, bytes_of_lit version)] f
    else Exited render_code said
           (match html, output_arg argv with
            | Some d, Some p => <[p := File (bytes_of_lit d ++ [x0a]) t]> f
            | _, _ => f
            end).

Definition clock : Z := 1700000000.

Definition x_squared : str := lit "x^2".
Definition display_mode : option Options :=
  Some [(lit "display-mode", VBool true)].

Definition regular (s : string) (mtime : Z) : node :=
  File (bytes_of_lit s) mtime.

(** *** A machine with [npx] but no installed katex

    [npx --no-install katex --version] fails with status 1, so every
    resolution falls back to the bundled binary after asking [npx] once
    more. *)
Definition npx_host : host :=
  linux (Some (lit "/usr/bin")) nothing_locked
        (stub 1 "npm ERR! could not determine executable to run"
              0 [] (Some "<span>x2</span>"%string)).

Definition npx_files : gmap str node :=
  list_to_map
    [(lit "/usr/bin/npx", regular "#!/usr/bin/env node" 1600000000%Z);
     (lit "/opt/markdown_katex/bin/katex_v0.13.0_x86_64-Linux",
      regular "ELF" 1600000000%Z)].

Definition npx_world : world := World npx_files clock [].

(** *** A machine with katex installed and a persisted resolution *)

Definition cache_dir : str := lit "/tmp/mdkatex".
Definition resolution_file : str := lit "/tmp/mdkatex/local_katex_cmd.txt".
Definition katex_exe : str := lit "/usr/bin/katex".

(** The command for [x^2] in display mode, its digest and its files. *)
Definition x2_parts : list str := [katex_exe; lit "--display-mode"].
Definition x2_digest : str :=
  lit "924fd163abe4dd7c1104b27be3ba87ceb16ae069ce48c7797ab6f7ae6b49f20b".
Definition x2_html : str :=
  lit "/tmp/mdkatex/924fd163abe4dd7c1104b27be3ba87ceb16ae069ce48c7797ab6f7ae6b49f20b.html".
Definition x2_tex : str :=
  lit "/tmp/mdkatex/924fd163abe4dd7c1104b27be3ba87ceb16ae069ce48c7797ab6f7ae6b49f20b.tex".
Definition x2_argv : list str :=
  x2_parts ++ [lit "--input"; x2_tex; lit "--output"; x2_html].

Definition installed (locked : str -> bool) (render_code : Z)
    (said : list (stream * bytes)) (html : option string) : host :=
  linux (Some (lit "/usr/bin")) locked (stub 0 "0.16.9" render_code said html).

Definition resolved_files : gmap str node :=
  list_to_map
    [(cache_dir, Dir (clock - 7200));
     (resolution_file, regular "/usr/bin/katex" (clock - 7200));
     (katex_exe, regular "#!/usr/bin/env node" 1600000000%Z)].

Definition resolution_events : list event :=
  [EvExists resolution_file; EvRead resolution_file; EvExists katex_exe].

(** The world once resolution has read the persisted file. *)
Definition resolved (files : gmap str node) : world :=
  World files clock resolution_events.

(** The renderer works and the output for [x^2] is cached. *)
Definition hit_host : host :=
  installed nothing_locked 0 [] (Some "<span>x2</span>"%string).

Definition x2_output : bytes := bytes_of_lit "<span>x2</span>" ++ [x0a].

Definition hit_files : gmap str node :=
  <[x2_html := File x2_output (clock - 3600)]> resolved_files.

Definition hit_world : world := World hit_files clock [].

(** The renderer rejects its input: status 1, a complaint on standard
    error, no output file. *)
Definition failing_host : host :=
  installed nothing_locked 1 [(Stderr, bytes_of_lit "parse error")] None.

Definition failing_world : world := World resolved_files clock [].

(** The renderer writes part of its output and a banner on standard
    output before it fails. *)
Definition partial_host : host :=
  installed nothing_locked 1
    [(Stdout, bytes_of_lit "KaTeX"); (Stderr, bytes_of_lit "parse error")]
    (Some "<span>"%string).

(** The renderer is terminated by signal 15. *)
Definition killed_host : host := installed nothing_locked (-15) [] None.

(** The renderer cannot be started: its file is not executable. *)
Definition unlaunchable_host : host :=
  linux (Some (lit "/usr/bin")) nothing_locked
        (fun argv f t => LaunchFailure PermissionError).

(** A stale file in the cache directory that cannot be removed. *)
Definition stale_file : str := lit "/tmp/mdkatex/stale.html".

Definition locked_host : host :=
  installed (fun p => Text.eqb p stale_file) 0 []
            (Some "<span>x2</span>"%string).

Definition locked_files : gmap str node :=
  <[stale_file := regular "<span>old</span>" (clock - 90000)]> hit_files.

Definition locked_world : world := World locked_files clock [].

(** A machine on which nothing has been resolved or rendered yet. *)
Definition fresh_world : world :=
  World {[ katex_exe := regular "#!/usr/bin/env node" 1600000000%Z ]}
        clock [].

(** The cached output for [x^2] is not UTF-8. *)
Definition garbled_world : world :=
  World (<[x2_html := File [xff; xfe] (clock - 3600)]> resolved_files)
        clock [].

(** The renderer fails and complains in bytes that are not UTF-8. *)
Definition mojibake_host : host :=
  installed nothing_locked 1 [(Stderr, [xff])] None.

(** The renderer fails while a stale file cannot be removed. *)
Definition failing_locked_host : host :=
  installed (fun p => Text.eqb p stale_file) 1
            [(Stderr, bytes_of_lit "parse error")] None.

Definition stale_world : world :=
  World (<[stale_file := regular "<span>old</span>" (clock - 90000)]>
           resolved_files)
        clock [].

(** A cache directory with an entry on each side of the retention
    boundary, a subdirectory and a file below it. *)
Definition old_file : str := lit "/tmp/mdkatex/old.html".
Definition young_file : str := lit "/tmp/mdkatex/young.html".
Definition sub_dir : str := lit "/tmp/mdkatex/sub".
Definition deep_file : str := lit "/tmp/mdkatex/sub/deep.html".

Definition sweep_files : gmap str node :=
  list_to_map
    [(cache_dir, Dir (clock - 7200));
     (old_file, regular "old" (clock - retention - 1));
     (young_file, regular "young" (clock - retention + 1));
     (sub_dir, Dir (clock - 200000));
     (deep_file, regular "deep" (clock - 200000))].

Definition sweep_world : world := World sweep_files clock [].

(** *** Machines without an installed katex *)

Definition bundled_exe : str :=
  lit "/opt/markdown_katex/bin/katex_v0.13.0_x86_64-Linux".

(** Nothing but the bundled binary of the package. *)
Definition bundle_world : world :=
  World {[ bundled_exe := regular "ELF" 1600000000%Z ]} clock [].

(** Nothing at all. *)
Definition bare_world : world := World ∅ clock [].

(** The resolution file holds bytes that are not UTF-8. *)
Definition corrupt_world : world :=
  World (<[resolution_file := File [xff; xfe] (clock - 7200)]> resolved_files)
        clock [].

(** Every program prints bytes that are not UTF-8 and exits with 0. *)
Definition garbling_host : host :=
  linux (Some (lit "/usr/bin")) nothing_locked
        (fun argv f t => Exited 0 [(Stdout, [xff])] f).

(** The renderer is ended by the real-time signal 35. *)
Definition signalled_host : host := installed nothing_locked (-35) [] None.

(** The renderer exits with 0 and writes nothing. *)
Definition silent_host : host := installed nothing_locked 0 [] None.

(** A text that holds a lone surrogate. *)
Definition surrogate_text : str := lit "x" ++ [55296].

(** *** A katex that answers [--help] *)

Definition ascii_alnum (c : char) : bool :=
  ((48 <=? c) && (c <=? 57)) || ((65 <=? c) && (c <=? 90))
  || ((97 <=? c) && (c <=? 122)).

Definition katex_help_lines : list string :=
  ["Usage: katex [options]";
   "Options:";
   "  -V, --version              output the version number";
   "  -d, --display-mode         Render math in display mode";
   "  -t, --no-throw-on-error    Render errors (in the color given by";
   "                             --error-color) instead of throwing";
   "  -c, --error-color <color>  A color string given in the format";
   "                             'rgb' or 'rrggbb'";
   "  -h, --help                 output usage information"]%string.

Definition katex_help : bytes :=
  concat (map (fun line => bytes_of_lit line ++ [x0a]) katex_help_lines).

Definition katex_help_text : str :=
  concat (map (fun line => lit line ++ [10]) katex_help_lines).

(** Asked for help, the command prints it and exits with status 2;
    otherwise it is the working renderer. *)
Definition helpful_host : host :=
  linux (Some (lit "/usr/bin")) nothing_locked
        (fun argv f t =>
           if Text.eqb (List.last argv []) (lit "--help")
           then Exited 2 [(Stdout, katex_help)] f
           else stub 0 "0.16.9" 0 [] (Some "<span>x2</span>"%string)
                     argv f t).

Definition katex_options : OptionsHelp :=
  [(lit "no-throw-on-error", lit "Render errors (in the color given by");
   (lit "error-color",
    lit "A color string given in the format 'rgb' or 'rrggbb'")].

(** A line of Markdown with two formulas and one in a code span. *)
Definition inline_sample : str := lit "cost $a+b$ and `$c$` or $d$".

(** *** Options of the extension *)

Definition flagged : option Options :=
  Some [(lit "no_inline_svg", VBool true); (lit "display-mode", VBool true);
        (lit "insert_fonts_css", VBool false)].

(** The renderer draws. *)
Definition svg_host : host :=
  installed nothing_locked 0 [] (Some "<p><svg >x2</svg></p>"%string).

(** *** Files and names that are out of the caller's reach *)

(** The cached output for [x^2] belongs to another user. *)
Definition foreign_world : world :=
  World (<[x2_html := Foreign (Some x2_output) (clock - 3600)]>
           resolved_files)
        clock [].

(** The resolution file names katex on its first line, and goes on in
    bytes that are not UTF-8. *)
Definition torn_resolution : bytes :=
  bytes_of_lit "/usr/bin/katex" ++ [x0a; xff].

Definition torn_world : world :=
  World (<[resolution_file := File torn_resolution (clock - 7200)]>
           resolved_files)
        clock [].

(** The resolution file is another user's, and closed to the caller. *)
Definition sealed_world : world :=
  World (<[resolution_file := Foreign None (clock - 7200)]> resolved_files)
        clock [].

(** The resolution file names a path in a directory the caller may not
    search. *)
Definition hidden_world : world :=
  World (<[resolution_file := regular "/root/bin/katex" (clock - 7200)]>
           (<[lit "/root/bin/katex" := Denied PermissionError]>
              resolved_files))
        clock [].

(** The search path begins with a directory the caller may not search;
    katex is installed in the next one. *)
Definition closed_exe : str := lit "/root/bin/katex".

Definition closed_path_host : host :=
  linux (Some (lit "/root/bin:/usr/bin")) nothing_locked
        (stub 0 "0.16.9" 0 [] (Some "<span>x2</span>"%string)).

Definition closed_path_world : world :=
  World (<[closed_exe := Denied PermissionError]>
           {[ katex_exe := regular "#!/usr/bin/env node" 1600000000%Z ]})
        clock [].

(** Two stale files in the cache directory, one of which cannot be
    removed. *)
Definition two_stale_world : world :=
  World (<[old_file := regular "old" (clock - 90000)]> locked_files)
        clock [].

(** An entry of the cache directory that cannot be examined: a link
    into a directory the caller may not search. *)
Definition barred_file : str := lit "/tmp/mdkatex/link.html".

Definition barred_world : world :=
  World (<[barred_file := Denied PermissionError]> hit_files) clock [].


End Scenario.

(** * Properties *)

Example sha256_constants :
  length Sha256.K = 64%nat
  /\ hd 0 Sha256.K = 0x428a2f98 /\ List.last Sha256.K 0 = 0xc67178f2
  /\ hd 0 Sha256.H0 = 0x6a09e667 /\ List.last Sha256.H0 0 = 0x5be0cd19.
Proof. vm_compute. repeat split. Qed.

Example sha256_abc :
  Sha256.hexdigest (bytes_of_lit "abc")
  = lit "ba7816bf8f01cfea414140de5dae2223b00361a396177a9cb410ff61f20015ad".
Proof. vm_compute. reflexivity. Qed.

Example sha256_empty :
  Sha256.hexdigest []
  = lit "e3b0c44298fc1c149afbf4c8996fb92427ae41e4649b934ca495991b7852b855".
Proof. vm_compute. reflexivity. Qed.

Example sha256_two_blocks :
  Sha256.hexdigest
    (bytes_of_lit "abcdbcdecdefdefgefghfghighijhijkijkljklmklmnlmnomnopnopq")
  = lit "248d6a61d20638b8e5c026930c3e6039a33ce45964ff2167f6ecedd419db06c1".
Proof. vm_compute. reflexivity. Qed.

(** ** Paths and text on a POSIX machine *)

Example path_normal_forms :
  map (Path Scenario.hit_host)
      [[]; lit "/usr/bin/"; lit "/usr//bin"; lit "./a/./b"; lit "//a//b";
       lit "///a"]
  = [lit "."; lit "/usr/bin"; lit "/usr/bin"; lit "a/b"; lit "//a/b";
     lit "/a"].
Proof. reflexivity. Qed.

Example joinpath_forms :
  joinpath Scenario.hit_host (lit ".") (lit "katex") = lit "katex"
  /\ joinpath Scenario.hit_host (lit "/") (lit "katex") = lit "/katex"
  /\ joinpath Scenario.hit_host (lit "/usr/bin") (lit "katex")
     = lit "/usr/bin/katex".
Proof. repeat split. Qed.

Example is_child_forms :
  is_child Scenario.hit_host (lit "/tmp/mdkatex") (lit "/tmp/mdkatex/a.html")
  = true
  /\ is_child Scenario.hit_host (lit "/tmp/mdkatex")
       (lit "/tmp/mdkatex/sub/a.html") = false
  /\ is_child Scenario.hit_host (lit "/tmp/mdkatex") (lit "/tmp/mdkatex")
     = false.
Proof. repeat split. Qed.

Example text_forms :
  Text.split 58 (lit "/usr/bin:/bin") = [lit "/usr/bin"; lit "/bin"]
  /\ Text.split 10 [] = [[]]
  /\ Text.split_ws (lit "npx --no-install  katex ")
     = [lit "npx"; lit "--no-install"; lit "katex"]
  /\ Text.strip (lit "  a b  ") = lit "a b"
  /\ Text.replace (lit "ab.html.htmlx") (lit ".html") (lit ".tex")
     = lit "ab.tex.texx"
  /\ Text.str_of_int (-15) = lit "-15"
  /\ Text.str_of_int 0 = lit "0".
Proof. repeat split. Qed.

Example version_forms :
  map (match_version Scenario.hit_host)
      [lit "0.16.9"; lit "0.16"; lit "v0.16.9"; lit "10.2.33 extra"]
  = [true; false; false; true].
Proof. reflexivity. Qed.

(** The lookup built from the Linux table is the one the interpreter
    builds: aliases lose to the name that sorts first. *)
Example linux_signal_names :
  SIG_NAME_BY_NUM Scenario.hit_host !! 15%Z = Some (lit "SIGTERM")
  /\ SIG_NAME_BY_NUM Scenario.hit_host !! 6%Z = Some (lit "SIGABRT")
  /\ SIG_NAME_BY_NUM Scenario.hit_host !! 17%Z = Some (lit "SIGCHLD")
  /\ SIG_NAME_BY_NUM Scenario.hit_host !! 29%Z = Some (lit "SIGIO")
  /\ SIG_NAME_BY_NUM Scenario.hit_host !! 0%Z = None
  /\ SIG_NAME_BY_NUM Scenario.hit_host !! 35%Z = None.
Proof. vm_compute. repeat split. Qed.

(** ** The command builder *)

Example yield_options_forms :
  yield_options [lit "katex"]
    [(lit "display-mode", VBool true); (lit "leqno", VBool false);
     (lit "--max-size", VInt 5); (lit "error-color", VStr (lit "#f00"))]
  = [lit "katex"; lit "--display-mode"; lit "--max-size"; lit "5";
     lit "--error-color"; lit "#f00"].
Proof. reflexivity. Qed.


Lemma yield_options_flat_map (items : Options) :
  forall yielded,
    yield_options yielded items
    = yielded ++ flat_map spec_option_tokens items.
Proof.
  induction items as [|[name value] items IH]; intros yielded; simpl.
  - now rewrite app_nil_r.
  - unfold spec_option_tokens at 1, spec_flag_name; simpl.
    destruct value as [s|n|r|[|]]; rewrite IH; simpl;
      rewrite <- ?app_assoc; reflexivity.
Qed.

Lemma yield_options_spec_build (prefix : list str) (options : option Options) :
  match options with
  | Some ((_ :: _) as items) => yield_options prefix items
  | _ => prefix
  end = spec_build prefix options.
Proof.
  unfold spec_build.
  destruct options as [[|item items]|]; simpl default.
  - simpl. now rewrite app_nil_r.
  - now rewrite yield_options_flat_map.
  - simpl. now rewrite app_nil_r.
Qed.

(** C6.  The argument vector is the resolved prefix followed, for each
    option in iteration order, by the flag alone for [True], nothing for
    [False], and the flag and the value's text otherwise, a name that
    lacks the leading [--] receiving it. *)
Theorem iter_cmd_parts_spec (h : host) (options : option Options) (w : world) :
  _iter_cmd_parts h options w
  = (let* prefix := get_bin_cmd h in ret (spec_build prefix options)) w.
Proof.
  unfold _iter_cmd_parts, bind.
  destruct (get_bin_cmd h w) as [[prefix|e] w']; [|reflexivity].
  rewrite <- yield_options_spec_build.
  now destruct options as [[|item items]|].
Qed.

(** ** Text *)

Lemma startswith_app (s rest : str) : Text.startswith (s ++ rest) s = true.
Proof.
  induction s as [|c s IH]; simpl; [easy|]. rewrite N.eqb_refl. exact IH.
Qed.

Lemma contains_here (s p : str) :
  Text.startswith s p = true -> Text.contains s p = true.
Proof. intros H. destruct s; cbn [Text.contains]; rewrite H; reflexivity. Qed.

Lemma contains_later (before s p : str) :
  Text.contains s p = true -> Text.contains (before ++ s) p = true.
Proof.
  intros H. induction before as [|c before IH]; [easy|].
  rewrite <- app_comm_cons. cbn [Text.contains].
  rewrite IH. apply orb_true_r.
Qed.

(** A text contains each of its pieces. *)
Lemma contains_middle (before s after : str) :
  Text.contains (before ++ s ++ after) s = true.
Proof. apply contains_later, contains_here, startswith_app. Qed.

Lemma contains_end (before s : str) :
  Text.contains (before ++ s) s = true.
Proof.
  rewrite <- (app_nil_r s) at 1. apply contains_middle.
Qed.

Lemma exit_err_msg_contains (tex output : str) :
  Text.contains (exit_err_msg tex output) tex = true
  /\ Text.contains (exit_err_msg tex output) output = true.
Proof.
  unfold exit_err_msg. split.
  - apply contains_middle.
  - rewrite !app_assoc. apply contains_end.
Qed.


Lemma compare_eq (a : str) : forall b, Text.compare a b = Eq -> a = b.
Proof.
  induction a as [|x a IH]; intros [|y b]; simpl; try easy.
  destruct (N.compare_spec x y) as [->|?|?]; try easy.
  intros H. f_equal. now apply IH.
Qed.

Lemma eqb_eq (a b : str) : Text.eqb a b = true -> a = b.
Proof.
  unfold Text.eqb. destruct (Text.compare a b) eqn:E; try easy.
  intros _. now apply compare_eq.
Qed.

(** Reading a stream line by line and joining the lines gives back the
    bytes of the stream. *)
Lemma readlines_concat (buf : bytes) :
  forall line, concat (readlines line buf) = rev line ++ buf.
Proof.
  induction buf as [|b buf IH]; intros line; simpl.
  - destruct line; simpl; now rewrite ?app_nil_r.
  - destruct (Byte.eqb b x0a); simpl; rewrite IH; simpl;
      now rewrite <- ?app_assoc.
Qed.

Lemma read_output_decode (buf : bytes) : read_output buf = decode_utf8 buf.
Proof.
  unfold read_output, _iter_output_lines. now rewrite readlines_concat.
Qed.

(** ** The UTF-8 codec *)

Lemma to_N_byte_of_N (n : N) : n < 256 -> Byte.to_N (byte_of_N n) = n.
Proof.
  intros Hn. unfold byte_of_N. rewrite N.mod_small by exact Hn.
  destruct (Byte.of_N n) as [b|] eqn:E.
  - now apply Byte.to_of_N.
  - apply Byte.of_N_None_iff in E. lia.
Qed.

(** Quotient and remainder by 64 as unknowns bound by what is known of
    them. *)
Ltac split64 x q r :=
  pose proof (N.div_mod x 64 ltac:(discriminate));
  pose proof (N.mod_lt x 64 ltac:(discriminate));
  generalize dependent (x mod 64); intros r;
  generalize dependent (x / 64); intros q; intros.

Ltac decide_compare :=
  repeat first
    [ rewrite (proj2 (N.ltb_lt _ _)) by lia
    | rewrite (proj2 (N.ltb_ge _ _)) by lia
    | rewrite (proj2 (N.leb_le _ _)) by lia
    | rewrite (proj2 (N.leb_gt _ _)) by lia
    | progress cbn [andb negb] ].

(** Decoding undoes the encoding of one character. *)
Lemma decode_encode_char (c : char) (bs rest : bytes) :
  Text.encode_char c = Some bs ->
  Text.decode (bs ++ rest) = option_map (cons c) (Text.decode rest).
Proof.
  unfold char in c. unfold Text.encode_char, Text.is_surrogate.
  destruct (N.ltb_spec c 128) as [H1|H1].
  { intros [= <-]. cbn [app Text.decode].
    rewrite to_N_byte_of_N by lia.
    now rewrite (proj2 (N.ltb_lt _ _) H1). }
  destruct (N.ltb_spec c 2048) as [H2|H2].
  { intros [= <-]. cbn [app Text.decode].
    unfold Text.is_cont, Text.low6.
    split64 c q0 r0.
    rewrite !to_N_byte_of_N by lia.
    decide_compare. do 2 f_equal. lia. }
  destruct (N.ltb_spec c 65536) as [H3|H3].
  { destruct ((55296 <=? c) && (c <=? 57343)) eqn:Hs; [discriminate|].
    intros [= <-]. cbn [app Text.decode].
    unfold Text.is_cont, Text.low6, Text.is_surrogate.
    replace (c / 4096) with (c / 64 / 64)
      by (rewrite N.Div0.div_div; reflexivity).
    assert (Hc : forall x, x = c ->
              (55296 <=? x) && (x <=? 57343) = false) by now intros ? ->.
    clear Hs.
    split64 (c / 64) q1 r1. split64 c q0 r0.
    rewrite !to_N_byte_of_N by lia.
    decide_compare.
    rewrite Hc by lia. cbn [andb negb]. do 2 f_equal. lia. }
  destruct (N.ltb_spec c 1114112) as [H4|H4]; [|discriminate].
  intros [= <-]. cbn [app Text.decode].
  unfold Text.is_cont, Text.low6.
  replace (c / 262144) with (c / 64 / 64 / 64)
    by (rewrite !N.Div0.div_div; reflexivity).
  replace (c / 4096) with (c / 64 / 64)
    by (rewrite N.Div0.div_div; reflexivity).
  split64 (c / 64 / 64) q2 r2. split64 (c / 64) q1 r1. split64 c q0 r0.
  rewrite !to_N_byte_of_N by lia.
  decide_compare. do 2 f_equal. lia.
Qed.

(** Decoding undoes encoding. *)
Lemma decode_encode (s : str) :
  forall data, Text.encode s = Some data -> Text.decode data = Some s.
Proof.
  induction s as [|c s IH]; intros data; cbn [Text.encode].
  - now intros [= <-].
  - destruct (Text.encode_char c) as [b|] eqn:Hc; [|discriminate].
    destruct (Text.encode s) as [bs|]; [|discriminate].
    intros [= <-]. rewrite (decode_encode_char c b bs Hc).
    now rewrite (IH bs eq_refl).
Qed.

(** Two texts with the same encoding are the same text. *)
Lemma encode_inj (s s' : str) (data : bytes) :
  Text.encode s = Some data -> Text.encode s' = Some data -> s = s'.
Proof.
  intros H H'. apply decode_encode in H, H'. congruence.
Qed.

(** ** The shape of a SHA-256 digest *)

Lemma round_length (st : list N * list N) (k : N) :
  List.length (Sha256.round st k).1 = 8%nat.
Proof. now destruct st. Qed.

Lemma rounds_length (ks : list N) :
  forall st, List.length st.1 = 8%nat ->
             List.length (fold_left Sha256.round ks st).1 = 8%nat.
Proof.
  induction ks as [|k ks IH]; intros st Hst; simpl; [easy|].
  apply IH, round_length.
Qed.

Lemma compress_length (hs : list N) (block : bytes) :
  List.length hs = 8%nat -> List.length (Sha256.compress hs block) = 8%nat.
Proof.
  intros Hh. unfold Sha256.compress.
  pose proof (rounds_length Sha256.K (hs, Sha256.words 16 block) Hh) as Hv.
  destruct (fold_left Sha256.round Sha256.K (hs, Sha256.words 16 block))
    as [v ws].
  simpl in Hv. rewrite length_map, length_combine. lia.
Qed.

Lemma blocks_length (n : nat) :
  forall hs bs, List.length hs = 8%nat ->
                List.length (Sha256.blocks n hs bs) = 8%nat.
Proof.
  induction n as [|n IH]; intros hs bs Hh; simpl; [easy|].
  apply IH, compress_length, Hh.
Qed.

(** A digest has 256 bits. *)
Lemma digest_length (msg : bytes) : List.length (Sha256.digest msg) = 32%nat.
Proof.
  unfold Sha256.digest.
  pose proof (blocks_length
                (Nat.div (List.length (Sha256.pad msg)) 64)
                Sha256.H0 (Sha256.pad msg) eq_refl) as Hlen.
  destruct (Sha256.blocks _ Sha256.H0 (Sha256.pad msg))
    as [|a [|b [|c [|d [|e [|f [|g [|i [|? ?]]]]]]]]]; try discriminate.
  reflexivity.
Qed.

Lemma hex_digit_lower (n : N) : n < 16 -> is_lower_hex (Text.hex_digit n) = true.
Proof.
  intros Hn. unfold is_lower_hex, Text.hex_digit.
  destruct (N.ltb_spec n 10).
  - rewrite (proj2 (N.leb_le 48 _)), (proj2 (N.leb_le _ 57)) by lia. easy.
  - rewrite (proj2 (N.leb_le 97 _)), (proj2 (N.leb_le _ 102)) by lia.
    apply orb_true_r.
Qed.

Lemma hex_shape (bs : bytes) :
  List.length (Text.hex bs) = (2 * List.length bs)%nat
  /\ forallb is_lower_hex (Text.hex bs) = true.
Proof.
  induction bs as [|b bs [IHlen IHhex]]; [easy|].
  unfold Text.hex in *. cbn [flat_map app List.length forallb].
  rewrite IHlen, IHhex. split; [lia|].
  pose proof (Byte.to_N_bounded b) as Hb.
  rewrite !hex_digit_lower; [easy| |].
  - apply N.mod_lt. discriminate.
  - apply N.Div0.div_lt_upper_bound. lia.
Qed.

(** ** The cache key *)

Lemma update_all_spec (cmd_parts : list str) :
  forall hs,
    update_all hs cmd_parts
    = match encode_all cmd_parts with
      | Some data => Ok (hs ++ data)
      | None => Raise UnicodeEncodeError
      end.
Proof.
  induction cmd_parts as [|p ps IH]; intros hs; cbn [update_all encode_all].
  - now rewrite app_nil_r.
  - unfold encode_utf8. destruct (Text.encode p) as [b|]; [|reflexivity].
    rewrite IH. unfold sha256_update.
    destruct (encode_all ps) as [bs|]; [|reflexivity].
    now rewrite app_assoc.
Qed.

(** C2, as the code has it.  The digest is the SHA-256 of the UTF-8
    bytes of the text followed by those of every token in order, in
    lower-case hexadecimal (64 digits for its 256 bits); where a text or
    token cannot be encoded the call raises.  It is a function of the
    text and the tokens.  With the tokens fixed, two different texts give
    different messages to hash, so their digests differ unless SHA-256
    collides.  Token lists with the same concatenated bytes give the
    same digest. *)
Theorem cmd_digest_spec (tex : str) (cmd_parts : list str) :
  _cmd_digest tex cmd_parts
  = match spec_digest_message tex cmd_parts with
    | Some message => Ok (Sha256.hexdigest message)
    | None => Raise UnicodeEncodeError
    end
  /\ (forall tex' cmd_parts',
        tex' = tex -> cmd_parts' = cmd_parts ->
        _cmd_digest tex' cmd_parts' = _cmd_digest tex cmd_parts)
  /\ (forall tex' message message',
        spec_digest_message tex cmd_parts = Some message ->
        spec_digest_message tex' cmd_parts = Some message' ->
        tex' <> tex -> message' <> message)
  /\ (forall cmd_parts',
        encode_all cmd_parts' = encode_all cmd_parts ->
        _cmd_digest tex cmd_parts' = _cmd_digest tex cmd_parts)
  /\ (forall digest,
        _cmd_digest tex cmd_parts = Ok digest ->
        List.length digest = 64%nat
        /\ forallb is_lower_hex digest = true).
Proof.
  assert (Hspec : forall parts,
            _cmd_digest tex parts
            = match spec_digest_message tex parts with
              | Some message => Ok (Sha256.hexdigest message)
              | None => Raise UnicodeEncodeError
              end).
  { intros parts. unfold _cmd_digest, spec_digest_message, encode_utf8.
    destruct (Text.encode tex) as [t|]; [|reflexivity].
    rewrite update_all_spec. unfold sha256_new, sha256_hexdigest.
    now destruct (encode_all parts). }
  split; [|split; [|split; [|split]]]; cycle 3.
  { intros cmd_parts' Hsame. rewrite !Hspec. unfold spec_digest_message.
    now rewrite Hsame. }
  { intros digest. rewrite Hspec.
    destruct (spec_digest_message tex cmd_parts) as [m|]; [|discriminate].
    intros [= <-]. unfold Sha256.hexdigest.
    destruct (hex_shape (Sha256.digest m)) as [Hlen Hhex].
    now rewrite Hlen, digest_length. }
  - apply Hspec.
  - now intros ? ? -> ->.
  - unfold spec_digest_message. intros tex' message message'.
    destruct (Text.encode tex) as [t|] eqn:Ht; [|discriminate].
    destruct (Text.encode tex') as [t'|] eqn:Ht'; [|discriminate].
    destruct (encode_all cmd_parts) as [a|]; [|discriminate].
    intros [= <-] [= <-] Hne Heq. apply Hne.
    apply app_inv_tail in Heq. subst t'.
    exact (encode_inj tex' tex t Ht' Ht).
Qed.

(** ** Signal names *)

Lemma insert_desc_In (x y : str * Z) (l : list (str * Z)) :
  In y (insert_desc x l) <-> y = x \/ In y l.
Proof.
  induction l as [|z l IH]; simpl; [intuition|].
  destruct (item_leb z x); simpl; [intuition|].
  rewrite IH. intuition.
Qed.

Lemma sorted_reverse_In (y : str * Z) (l : list (str * Z)) :
  In y (sorted_reverse l) <-> In y l.
Proof.
  induction l as [|x l IH]; simpl; [easy|].
  rewrite insert_desc_In, IH. intuition.
Qed.



(** ** Running computations step by step *)

Lemma bind_ok {A B} (m : M A) (k : A -> M B) w a w1 :
  m w = (Ok a, w1) -> bind m k w = k a w1.
Proof. unfold bind. now intros ->. Qed.

Lemma bind_raise {A B} (m : M A) (k : A -> M B) w e w1 :
  m w = (Raise e, w1) -> bind m k w = (Raise e, w1).
Proof. unfold bind. now intros ->. Qed.

Lemma bind_ok_inv {A B} (m : M A) (k : A -> M B) w b w' :
  bind m k w = (Ok b, w') ->
  exists a w1, m w = (Ok a, w1) /\ k a w1 = (Ok b, w').
Proof.
  unfold bind. destruct (m w) as [[a|e] w1]; [eauto|discriminate].
Qed.

Lemma try_finally_ok {A} (body : M A) (cleanup : M unit) w r w1 w2 :
  body w = (r, w1) -> cleanup w1 = (Ok tt, w2) ->
  try_finally body cleanup w = (r, w2).
Proof. unfold try_finally. now intros -> ->. Qed.

Lemma try_finally_raise {A} (body : M A) (cleanup : M unit) w r w1 e w2 :
  body w = (r, w1) -> cleanup w1 = (Raise e, w2) ->
  try_finally body cleanup w = (Raise e, w2).
Proof. unfold try_finally. now intros -> ->. Qed.

Lemma trace_noted e w : trace (noted e w) = trace w ++ [e].
Proof. reflexivity. Qed.

Section Syscalls.

Context (h : host).

Lemma exists_spec p w :
  examinable (fs w !! p) = true ->
  exists_ p w = (Ok (is_present (fs w !! p)), noted (EvExists p) w).
Proof.
  unfold exists_, examinable, is_present, bind, log, get_fs. cbn [fs noted].
  destruct (stat_errno (fs w !! p)) as [e|]; [|reflexivity].
  now intros ->.
Qed.

Lemma exists_true p w :
  is_present (fs w !! p) = true ->
  exists_ p w = (Ok true, noted (EvExists p) w).
Proof.
  intros H. rewrite exists_spec, H; [reflexivity|].
  unfold is_present, examinable in *.
  now destruct (stat_errno (fs w !! p)).
Qed.

Lemma exists_file p w data m :
  fs w !! p = Some (File data m) ->
  exists_ p w = (Ok true, noted (EvExists p) w).
Proof. intros H. apply exists_true. now rewrite H. Qed.

Lemma exists_false p w :
  fs w !! p = None -> exists_ p w = (Ok false, noted (EvExists p) w).
Proof. intros H. rewrite exists_spec; now rewrite H. Qed.

Lemma exists_refused p w e :
  stat_errno (fs w !! p) = Some e -> _ignore_error e = false ->
  exists_ p w = (Raise (OSError e p), noted (EvExists p) w).
Proof.
  intros H He. unfold exists_, bind, log, get_fs. cbn [fs noted].
  now rewrite H, He.
Qed.

Lemma is_file_spec p w :
  examinable (fs w !! p) = true ->
  is_file p w = (Ok (is_regular (fs w !! p)), noted (EvIsFile p) w).
Proof.
  unfold is_file, examinable, bind, log, get_fs. cbn [fs noted].
  destruct (fs w !! p) as [[d m|m|d m|e]|]; cbn [stat_errno];
    try reflexivity; now intros ->.
Qed.

Lemma is_file_no_file p w :
  is_no_file (fs w !! p) = true ->
  is_file p w = (Ok false, noted (EvIsFile p) w).
Proof.
  unfold is_no_file. intros [He Hr]%andb_true_iff.
  rewrite is_file_spec by exact He.
  now destruct (is_regular (fs w !! p)).
Qed.

Lemma is_file_regular p w :
  is_regular (fs w !! p) = true ->
  is_file p w = (Ok true, noted (EvIsFile p) w).
Proof.
  intros H. rewrite is_file_spec, H; [reflexivity|].
  now destruct (fs w !! p) as [[d m|m|d m|e]|].
Qed.

Lemma is_file_refused p w e :
  stat_errno (fs w !! p) = Some e -> _ignore_error e = false ->
  is_file p w = (Raise (OSError e p), noted (EvIsFile p) w).
Proof.
  intros H He. unfold is_file, bind, log, get_fs. cbn [fs noted].
  now rewrite H, He.
Qed.

(** A path that cannot be examined is one at which [stat] fails with an
    error that is not taken for absence. *)
Lemma not_examinable (n : option node) :
  examinable n = false ->
  exists e, n = Some (Denied e) /\ stat_errno n = Some e
            /\ _ignore_error e = false.
Proof.
  unfold examinable.
  destruct n as [[d m|m|d m|e]|]; cbn [stat_errno]; try discriminate.
  intros H. now exists e.
Qed.

Lemma time_spec w : time w = (Ok (now w), noted EvTime w).
Proof. reflexivity. Qed.

Lemma stat_mtime_file p w data m :
  fs w !! p = Some (File data m) ->
  stat_mtime p w = (Ok m, noted (EvStat p) w).
Proof.
  intros H. unfold stat_mtime, bind, log, get_fs. cbn [fs noted].
  now rewrite H.
Qed.

(** The modification time of a regular file decides whether it is
    stale. *)
Lemma stat_mtime_regular p w :
  is_regular (fs w !! p) = true ->
  exists m, stat_mtime p w = (Ok m, noted (EvStat p) w)
            /\ forall t, stale t (fs w !! p) = (m <? t)%Z.
Proof.
  intros H. unfold stat_mtime, bind, log, get_fs. cbn [fs noted].
  destruct (fs w !! p) as [[d m|m|d m|e]|]; try discriminate;
    exists m; now split.
Qed.

Lemma read_bytes_file p w data m :
  fs w !! p = Some (File data m) ->
  read_bytes p w = (Ok data, noted (EvRead p) w).
Proof.
  intros H. unfold read_bytes, bind, log, get_fs. cbn [fs noted].
  now rewrite H.
Qed.

Lemma holds_present (n : option node) (data : bytes) :
  holds n data -> is_present n = true.
Proof. now intros [m [->| ->]]. Qed.

Lemma holds_regular (n : option node) (data : bytes) :
  holds n data -> is_regular n = true.
Proof. now intros [m [->| ->]]. Qed.

Lemma read_bytes_holds p w data :
  holds (fs w !! p) data ->
  read_bytes p w = (Ok data, noted (EvRead p) w).
Proof.
  intros [m [H|H]]; unfold read_bytes, bind, log, get_fs; cbn [fs noted];
    now rewrite H.
Qed.

Lemma read_text_file p w data m s :
  fs w !! p = Some (File data m) -> decode_text data = Ok s ->
  read_text p w = (Ok s, noted (EvRead p) w).
Proof.
  intros H Hs. unfold read_text.
  erewrite bind_ok by (eapply read_bytes_file; eauto).
  unfold lift. now rewrite Hs.
Qed.

Lemma read_text_holds p w data s :
  holds (fs w !! p) data -> decode_text data = Ok s ->
  read_text p w = (Ok s, noted (EvRead p) w).
Proof.
  intros H Hs. unfold read_text.
  erewrite bind_ok by (eapply read_bytes_holds; eauto).
  unfold lift. now rewrite Hs.
Qed.

Lemma read_text_ok_inv p w s w' :
  read_text p w = (Ok s, w') ->
  exists data, holds (fs w !! p) data
               /\ decode_text data = Ok s /\ w' = noted (EvRead p) w.
Proof.
  unfold read_text, read_bytes, bind, log, get_fs, lift, raise, ret, holds.
  cbn [fs noted].
  destruct (fs w !! p) as [[data m|m|[data|] m|e]|]; try discriminate;
    intros [= Hs <-]; eauto 6.
Qed.

Lemma write_bytes_ok p data w :
  writable (fs w !! p) = true ->
  write_bytes p data w
  = (Ok tt, with_fs (<[p := File data (now w)]> (fs w)) (noted (EvWrite p) w)).
Proof.
  unfold write_bytes, bind, log, get_fs, get_now, put_fs.
  cbn [fs noted now].
  now destruct (fs w !! p) as [[d m|m|d m|e]|] eqn:E.
Qed.

Lemma touch_file p w data m :
  fs w !! p = Some (File data m) ->
  touch p w
  = (Ok tt, with_fs (<[p := File data (now w)]> (fs w)) (noted (EvTouch p) w)).
Proof.
  intros H. unfold touch, bind, log, get_fs, get_now, put_fs.
  cbn [fs noted now]. now rewrite H.
Qed.

Lemma touch_foreign p w content m :
  fs w !! p = Some (Foreign content m) ->
  touch p w = (Raise (OSError PermissionError p), noted (EvTouch p) w).
Proof.
  intros H. unfold touch, bind, log, get_fs, get_now, put_fs.
  cbn [fs noted now]. now rewrite H.
Qed.

Lemma unlink_regular p w :
  is_regular (fs w !! p) = true -> locked h p = false ->
  unlink h p w = (Ok tt, with_fs (delete p (fs w)) (noted (EvUnlink p) w)).
Proof.
  intros H L. unfold unlink, bind, log, get_fs, put_fs.
  cbn [fs noted].
  destruct (fs w !! p) as [[d m|m|d m|e]|]; try discriminate;
    now rewrite L.
Qed.

Lemma unlink_ok p w data m :
  fs w !! p = Some (File data m) -> locked h p = false ->
  unlink h p w = (Ok tt, with_fs (delete p (fs w)) (noted (EvUnlink p) w)).
Proof. intros H. apply unlink_regular. now rewrite H. Qed.

Lemma unlink_regular_locked p w :
  is_regular (fs w !! p) = true -> locked h p = true ->
  unlink h p w = (Raise (OSError PermissionError p), noted (EvUnlink p) w).
Proof.
  intros H L. unfold unlink, bind, log, get_fs, put_fs.
  cbn [fs noted].
  destruct (fs w !! p) as [[d m|m|d m|e]|]; try discriminate;
    now rewrite L.
Qed.

Lemma unlink_locked p w data m :
  fs w !! p = Some (File data m) -> locked h p = true ->
  unlink h p w = (Raise (OSError PermissionError p), noted (EvUnlink p) w).
Proof. intros H. apply unlink_regular_locked. now rewrite H. Qed.

Lemma mkdir_ok p w :
  dir_or_absent (fs w !! p) = true ->
  mkdir p w
  = (Ok tt, with_fs (with_dir p (now w) (fs w)) (noted (EvMkdir p) w)).
Proof.
  unfold mkdir, with_dir, bind, log, get_fs, get_now, put_fs, ret.
  cbn [fs noted now].
  now destruct (fs w !! p) as [[d m|m|d m|e]|] eqn:E.
Qed.

Lemma iterdir_ok p w m :
  fs w !! p = Some (Dir m) ->
  iterdir h p w = (Ok (children h p (fs w)), noted (EvIterdir p) w).
Proof.
  intros H. unfold iterdir, bind, log, get_fs.
  cbn [fs noted]. now rewrite H.
Qed.

Lemma spawn_exited argv w code out f' :
  run h argv (fs w) (now w) = Exited code out f' ->
  spawn h argv w
  = (Ok (Process code out), with_fs f' (noted (EvSpawn argv) w)).
Proof.
  intros H. unfold spawn, bind, log, get_fs, get_now, put_fs.
  cbn [fs noted now]. now rewrite H.
Qed.

Lemma spawn_failure argv w e :
  run h argv (fs w) (now w) = LaunchFailure e ->
  spawn h argv w
  = (Raise (OSError e (hd [] argv)), noted (EvSpawn argv) w).
Proof.
  intros H. unfold spawn, bind, log, get_fs, get_now, put_fs.
  cbn [fs noted now]. now rewrite H.
Qed.

End Syscalls.

(** ** Binary resolution *)

Section Resolution.

Context (h : host).

(** C3.  With a persisted resolution file that is a regular file, the
    caller's or another user's, whose whole content is valid UTF-8 and
    whose first line names a path at which [exists] answers [True],
    resolution returns the lines of the file as they are; the only
    system calls are the two existence checks and the read: the search
    path is not read, no candidate is probed, no program is started. *)
Theorem get_usr_parts_reuses_persisted (w : world)
    (data : bytes) (local_cmd : str) :
  holds (fs w !! TMP_LOCAL_CMD_CACHE h) data ->
  decode_text data = Ok local_cmd ->
  is_present (fs w !! Path h (hd [] (Text.split 10 local_cmd))) = true ->
  let local_cmd_parts := Text.split 10 local_cmd in
  let w' := World (fs w) (now w)
              (trace w ++ [EvExists (TMP_LOCAL_CMD_CACHE h);
                           EvRead (TMP_LOCAL_CMD_CACHE h);
                           EvExists (Path h (hd [] local_cmd_parts))]) in
  _get_usr_parts h w = (Ok (Some local_cmd_parts), w')
  /\ get_bin_cmd h w = (Ok local_cmd_parts, w')
  /\ spawns (trace w') = spawns (trace w).
Proof.
  intros Hfile Hdec Hexe local_cmd_parts w'.
  assert (Hquiet : spawns (trace w') = spawns (trace w)).
  { unfold w', spawns; cbn [trace]. rewrite flat_map_app. simpl.
    now rewrite app_nil_r. }
  assert (Husr : _get_usr_parts h w = (Ok (Some local_cmd_parts), w')).
  { unfold _get_usr_parts.
    erewrite bind_ok by (apply exists_true, holds_present with data, Hfile).
    erewrite bind_ok.
    2:{ erewrite bind_ok by (eapply read_text_holds; eauto).
        erewrite bind_ok by (apply exists_true; exact Hexe).
        reflexivity. }
    unfold ret, noted, w'; cbn [fs now trace].
    now rewrite <- !app_assoc. }
  split; [exact Husr|]. split; [|exact Hquiet].
  unfold get_bin_cmd. erewrite bind_ok by exact Husr. reflexivity.
Qed.

End Resolution.

(** ** What a computation may add to the record *)

Section Traced.

Context (P : event -> Prop).

Lemma traced_ret {A} (a : A) : traced P (ret a).
Proof. intros w; split; [easy|]. exists []. now rewrite app_nil_r. Qed.

Lemma traced_raise {A} e : traced P (@raise A e).
Proof. intros w; split; [easy|]. exists []. now rewrite app_nil_r. Qed.

Lemma traced_lift {A} (r : result A) : traced P (lift r).
Proof. intros w; split; [easy|]. exists []. now rewrite app_nil_r. Qed.

Lemma traced_get_fs : traced P get_fs.
Proof. intros w; split; [easy|]. exists []. now rewrite app_nil_r. Qed.

Lemma traced_get_now : traced P get_now.
Proof. intros w; split; [easy|]. exists []. now rewrite app_nil_r. Qed.

Lemma traced_put_fs f : traced P (put_fs f).
Proof. intros w; split; [easy|]. exists []. now rewrite app_nil_r. Qed.

Lemma traced_log e : P e -> traced P (log e).
Proof. intros He w; split; [easy|]. exists [e]. split; [easy|]. now constructor. Qed.

Lemma traced_bind {A B} (m : M A) (k : A -> M B) :
  traced P m -> (forall a, traced P (k a)) -> traced P (bind m k).
Proof.
  intros Hm Hk w. unfold bind.
  destruct (Hm w) as [Hn [evs [Ht Hall]]].
  destruct (m w) as [[a|e] w1]; cbn [snd] in *.
  - destruct (Hk a w1) as [Hn' [evs' [Ht' Hall']]].
    split; [congruence|].
    exists (evs ++ evs'). rewrite Ht', Ht, app_assoc. split; [easy|].
    apply Forall_app; auto.
  - split; [easy|]. now exists evs.
Qed.

Lemma traced_try_finally {A} (body : M A) (cleanup : M unit) :
  traced P body -> traced P cleanup -> traced P (try_finally body cleanup).
Proof.
  intros Hb Hc w. unfold try_finally.
  destruct (Hb w) as [Hn [evs [Ht Hall]]].
  destruct (body w) as [r w1]; cbn [snd] in *.
  destruct (Hc w1) as [Hn' [evs' [Ht' Hall']]].
  assert (now (cleanup w1).2 = now w /\
          exists evs0, trace (cleanup w1).2 = trace w ++ evs0 /\ Forall P evs0)
    as Hgoal.
  { split; [congruence|]. exists (evs ++ evs').
    rewrite Ht', Ht, app_assoc. split; [easy|]. apply Forall_app; auto. }
  destruct (cleanup w1) as [[[]|e] w2]; exact Hgoal.
Qed.

Lemma traced_try_finally_from {A V} (init : M V) (body : V -> M A)
    (cleanup : option V -> M unit) :
  traced P init -> (forall v, traced P (body v)) ->
  (forall v, traced P (cleanup v)) ->
  traced P (try_finally_from init body cleanup).
Proof.
  intros Hi Hb Hc w. unfold try_finally_from.
  destruct (Hi w) as [Hn [evs [Ht Hall]]].
  destruct (init w) as [[v|e] w1]; cbn [snd] in *.
  - destruct (traced_try_finally (body v) (cleanup (Some v)) (Hb v) (Hc _) w1)
      as [Hn' [evs' [Ht' Hall']]].
    split; [congruence|]. exists (evs ++ evs').
    rewrite Ht', Ht, app_assoc. split; [easy|]. apply Forall_app; auto.
  - destruct (traced_try_finally (@raise A e) (cleanup None)
                (traced_raise e) (Hc _) w1) as [Hn' [evs' [Ht' Hall']]].
    split; [congruence|]. exists (evs ++ evs').
    rewrite Ht', Ht, app_assoc. split; [easy|]. apply Forall_app; auto.
Qed.

Lemma traced_try_except {A} (body : M A) handled (handler : M A) :
  traced P body -> traced P handler ->
  traced P (try_except body handled handler).
Proof.
  intros Hb Hh w. unfold try_except.
  destruct (Hb w) as [Hn [evs [Ht Hall]]].
  destruct (body w) as [[a|e] w1]; cbn [snd] in *.
  - split; [easy|]. now exists evs.
  - destruct (handled e).
    + destruct (Hh w1) as [Hn' [evs' [Ht' Hall']]].
      split; [congruence|]. exists (evs ++ evs').
      rewrite Ht', Ht, app_assoc. split; [easy|]. apply Forall_app; auto.
    + split; [easy|]. now exists evs.
Qed.

Lemma traced_for_each {A} (xs : list A) (body : A -> M unit) :
  (forall x, traced P (body x)) -> traced P (for_each xs body).
Proof.
  intros Hb. induction xs as [|x xs IH]; simpl.
  - apply traced_ret.
  - apply traced_bind; auto.
Qed.

Lemma traced_first_some {A B} (xs : list A) (body : A -> M (option B)) :
  (forall x, traced P (body x)) -> traced P (first_some xs body).
Proof.
  intros Hb. induction xs as [|x xs IH]; simpl.
  - apply traced_ret.
  - apply traced_bind; auto. intros [b|]; auto using traced_ret.
Qed.

End Traced.

(** A computation put together from the combinators is traced as soon
    as the system calls it logs are allowed. *)
Ltac traced_tac :=
  repeat first
    [ apply traced_ret | apply traced_raise | apply traced_lift
    | apply traced_get_fs | apply traced_get_now | apply traced_put_fs
    | apply traced_log; exact I
    | apply traced_bind; [|intros ?]
    | apply traced_for_each; intros ?
    | apply traced_try_finally
    | match goal with
      | |- traced _ (match ?x with _ => _ end) => destruct x
      | |- traced _ (if ?x then _ else _) => destruct x
      end ].

Section TracedSyscalls.

Context (h : host) (P : event -> Prop).

Lemma traced_exists p : P (EvExists p) -> traced P (exists_ p).
Proof. intros HP. unfold exists_. traced_tac. now apply traced_log. Qed.

Lemma traced_is_file p : P (EvIsFile p) -> traced P (is_file p).
Proof. intros HP. unfold is_file. traced_tac. now apply traced_log. Qed.

Lemma traced_time : P EvTime -> traced P time.
Proof. intros HP. unfold time. traced_tac. now apply traced_log. Qed.

Lemma traced_stat_mtime p : P (EvStat p) -> traced P (stat_mtime p).
Proof. intros HP. unfold stat_mtime. traced_tac. now apply traced_log. Qed.

Lemma traced_read_text p : P (EvRead p) -> traced P (read_text p).
Proof.
  intros HP. unfold read_text, read_bytes. traced_tac. now apply traced_log.
Qed.

Lemma traced_write_bytes p data : P (EvWrite p) -> traced P (write_bytes p data).
Proof. intros HP. unfold write_bytes. traced_tac. now apply traced_log. Qed.

Lemma traced_touch p : P (EvTouch p) -> traced P (touch p).
Proof. intros HP. unfold touch. traced_tac. now apply traced_log. Qed.

Lemma traced_unlink p : P (EvUnlink p) -> traced P (unlink h p).
Proof. intros HP. unfold unlink. traced_tac. now apply traced_log. Qed.

Lemma traced_mkdir p : P (EvMkdir p) -> traced P (mkdir p).
Proof. intros HP. unfold mkdir. traced_tac. now apply traced_log. Qed.

Lemma traced_iterdir p : P (EvIterdir p) -> traced P (iterdir h p).
Proof. intros HP. unfold iterdir. traced_tac. now apply traced_log. Qed.

Lemma traced_spawn argv : P (EvSpawn argv) -> traced P (spawn h argv).
Proof. intros HP. unfold spawn. traced_tac. now apply traced_log. Qed.

Lemma traced_sweep_entry min_mtime p :
  (forall e, not_spawn e -> P e) -> traced P (sweep_entry h min_mtime p).
Proof.
  intros HP. unfold sweep_entry.
  apply traced_bind; [apply traced_is_file, HP, I|]. intros [|].
  - apply traced_bind; [apply traced_stat_mtime, HP, I|]. intros m.
    destruct (m <? min_mtime)%Z;
      [apply traced_unlink, HP, I | apply traced_ret].
  - apply traced_ret.
Qed.

Lemma traced_cleanup_tmp_dir :
  (forall e, not_spawn e -> P e) -> traced P (_cleanup_tmp_dir h).
Proof.
  intros HP. unfold _cleanup_tmp_dir.
  apply traced_bind; [apply traced_time, HP, I|]. intros t.
  apply traced_bind; [apply traced_iterdir, HP, I|]. intros entries.
  apply traced_for_each. intros p. now apply traced_sweep_entry.
Qed.

End TracedSyscalls.

(** ** The janitor *)

Section Janitor.

Context (h : host).

Lemma stale_regular min_mtime (n : option node) :
  stale min_mtime n = true -> is_regular n = true.
Proof. now destruct n as [[data m|m|data m|e]|]. Qed.

Lemma regular_examinable (n : option node) :
  is_regular n = true -> examinable n = true.
Proof. now destruct n as [[data m|m|data m|e]|]. Qed.

Lemma regular_is_Some (n : option node) :
  is_regular n = true -> is_Some n.
Proof. destruct n as [[data m|m|data m|e]|]; try discriminate; eauto. Qed.

Lemma stale_is_Some min_mtime (n : option node) :
  stale min_mtime n = true -> is_Some n.
Proof. intros H. eapply regular_is_Some, stale_regular, H. Qed.

Lemma children_spec (dir : str) (f : gmap str node) (p : str) :
  p ∈ children h dir f <-> is_child h dir p = true /\ is_Some (f !! p).
Proof.
  unfold children. rewrite list_elem_of_In, filter_In, in_map_iff.
  split.
  - intros [[[q n] [Hq Hin]] Hc]. simpl in Hq; subst q. split; [easy|].
    apply list_elem_of_In, elem_of_map_to_list in Hin. eauto.
  - intros [Hc [n Hn]]. split; [|easy]. exists (p, n). split; [easy|].
    now apply list_elem_of_In, elem_of_map_to_list.
Qed.

(** One entry that stays. *)
Lemma sweep_entry_keep min_mtime p w :
  examinable (fs w !! p) = true ->
  stale min_mtime (fs w !! p) = false ->
  exists w', sweep_entry h min_mtime p w = (Ok tt, w') /\ fs w' = fs w.
Proof.
  intros He Hs. unfold sweep_entry.
  erewrite bind_ok by (apply is_file_spec, He).
  destruct (is_regular (fs w !! p)) eqn:Hr; [|eauto].
  destruct (stat_mtime_regular p (noted (EvIsFile p) w) Hr) as [m [E Hm]].
  erewrite bind_ok by exact E.
  cbn [fs noted] in Hm. rewrite <- Hm, Hs. eauto.
Qed.

(** One entry that goes. *)
Lemma sweep_entry_delete min_mtime p w :
  stale min_mtime (fs w !! p) = true -> locked h p = false ->
  exists w', sweep_entry h min_mtime p w = (Ok tt, w')
             /\ fs w' = delete p (fs w).
Proof.
  intros Hs L. pose proof (stale_regular _ _ Hs) as Hr. unfold sweep_entry.
  erewrite bind_ok by (apply is_file_regular, Hr).
  destruct (stat_mtime_regular p (noted (EvIsFile p) w) Hr) as [m [E Hm]].
  erewrite bind_ok by exact E.
  cbn [fs noted] in Hm. rewrite <- Hm, Hs.
  erewrite unlink_regular by eauto. eauto.
Qed.

(** One entry that resists removal. *)
Lemma sweep_entry_locked min_mtime p w :
  stale min_mtime (fs w !! p) = true -> locked h p = true ->
  exists w', sweep_entry h min_mtime p w
             = (Raise (OSError PermissionError p), w')
             /\ fs w' = fs w.
Proof.
  intros Hs L. pose proof (stale_regular _ _ Hs) as Hr. unfold sweep_entry.
  erewrite bind_ok by (apply is_file_regular, Hr).
  destruct (stat_mtime_regular p (noted (EvIsFile p) w) Hr) as [m [E Hm]].
  erewrite bind_ok by exact E.
  cbn [fs noted] in Hm. rewrite <- Hm, Hs.
  erewrite unlink_regular_locked by eauto. eauto.
Qed.

(** One entry that cannot be examined. *)
Lemma sweep_entry_refused min_mtime p w e :
  stat_errno (fs w !! p) = Some e -> _ignore_error e = false ->
  exists w', sweep_entry h min_mtime p w = (Raise (OSError e p), w')
             /\ fs w' = fs w.
Proof.
  intros H He. unfold sweep_entry.
  erewrite bind_raise by (apply is_file_refused; eauto). eauto.
Qed.

(** What one entry comes to. *)
Lemma sweep_entry_cases min_mtime p w :
  (exists w', sweep_entry h min_mtime p w = (Ok tt, w')
              /\ examinable (fs w !! p) = true
              /\ (stale min_mtime (fs w !! p) = true -> locked h p = false)
              /\ fs w' = (if stale min_mtime (fs w !! p)
                          then delete p (fs w) else fs w))
  \/ (exists e w', sweep_entry h min_mtime p w = (Raise (OSError e p), w')
                   /\ fs w' = fs w
                   /\ ((stat_errno (fs w !! p) = Some e
                        /\ _ignore_error e = false)
                       \/ (stale min_mtime (fs w !! p) = true
                           /\ locked h p = true /\ e = PermissionError))).
Proof.
  destruct (examinable (fs w !! p)) eqn:He.
  - destruct (stale min_mtime (fs w !! p)) eqn:Hs.
    + destruct (locked h p) eqn:L.
      * destruct (sweep_entry_locked min_mtime p w Hs L) as [w' [E F]].
        right. exists PermissionError, w'. auto 6.
      * destruct (sweep_entry_delete min_mtime p w Hs L) as [w' [E F]].
        left. exists w'. auto.
    + destruct (sweep_entry_keep min_mtime p w He Hs) as [w' [E F]].
      left. exists w'. repeat split; auto. discriminate.
  - destruct (not_examinable _ He) as [e [_ [Hn Hi]]].
    destruct (sweep_entry_refused min_mtime p w e Hn Hi) as [w' [E F]].
    right. exists e, w'. auto.
Qed.

(** The loop, when nothing resists: exactly the stale regular files among
    the entries are gone. *)
Lemma sweep_loop_ok min_mtime (l : list str) :
  forall w,
    (forall p, p ∈ l ->
               examinable (fs w !! p) = true
               /\ (stale min_mtime (fs w !! p) = true -> locked h p = false)) ->
    exists w',
      for_each l (sweep_entry h min_mtime) w = (Ok tt, w')
      /\ forall q, fs w' !! q
                   = if bool_decide (q ∈ l) && stale min_mtime (fs w !! q)
                     then None else fs w !! q.
Proof.
  induction l as [|p l IH]; intros w Hsafe; cbn [for_each].
  - exists w. split; [easy|]. intros q.
    rewrite bool_decide_eq_false_2 by apply not_elem_of_nil. easy.
  - destruct (Hsafe p) as [Hex Hlock]; [left|].
    destruct (stale min_mtime (fs w !! p)) eqn:Hs.
    + destruct (sweep_entry_delete min_mtime p w Hs) as [w1 [E1 F1]];
        [now apply Hlock|].
      destruct (IH w1) as [w' [E' F']].
      { intros q Hq. rewrite F1.
        destruct (decide (q = p)) as [->|Hne].
        - rewrite lookup_delete_eq. now split.
        - rewrite lookup_delete_ne by congruence.
          apply Hsafe. now right. }
      exists w'. erewrite bind_ok by exact E1. split; [exact E'|].
      intros q. rewrite F', F1.
      destruct (decide (q = p)) as [->|Hne].
      * rewrite lookup_delete_eq, Hs.
        rewrite (bool_decide_eq_true_2 (p ∈ p :: l)) by left.
        simpl. now rewrite andb_false_r.
      * rewrite lookup_delete_ne by congruence.
        rewrite (bool_decide_ext (q ∈ p :: l) (q ∈ l)); [easy|].
        rewrite elem_of_cons. tauto.
    + destruct (sweep_entry_keep min_mtime p w Hex Hs) as [w1 [E1 F1]].
      destruct (IH w1) as [w' [E' F']].
      { intros q Hq. rewrite F1. apply Hsafe. now right. }
      exists w'. erewrite bind_ok by exact E1. split; [exact E'|].
      intros q. rewrite F', F1.
      destruct (decide (q = p)) as [->|Hne].
      * rewrite Hs, !andb_false_r. easy.
      * rewrite (bool_decide_ext (q ∈ p :: l) (q ∈ l)); [easy|].
        rewrite elem_of_cons. tauto.
Qed.

(** The loop, whatever happens: a file is as it was, or it was a stale
    regular file among the entries and is gone. *)
Lemma sweep_loop_frame min_mtime (l : list str) :
  forall w q,
    fs (for_each l (sweep_entry h min_mtime) w).2 !! q = fs w !! q
    \/ (fs (for_each l (sweep_entry h min_mtime) w).2 !! q = None
        /\ q ∈ l /\ stale min_mtime (fs w !! q) = true).
Proof.
  induction l as [|p l IH]; intros w q; cbn [for_each]; [now left|].
  destruct (sweep_entry_cases min_mtime p w)
    as [[w1 [E1 [_ [_ F1]]]]|[e [w1 [E1 [F1 _]]]]].
  - erewrite bind_ok by exact E1.
    destruct (stale min_mtime (fs w !! p)) eqn:Hs.
    + destruct (IH w1 q) as [Hq|[Hq [Hin Hst]]].
      * rewrite Hq, F1. destruct (decide (q = p)) as [->|Hne].
        -- rewrite lookup_delete_eq. right. repeat split; auto. left.
        -- rewrite lookup_delete_ne by congruence. now left.
      * right. split; [easy|]. split; [now right|]. rewrite F1 in Hst.
        destruct (decide (q = p)) as [->|Hne]; [easy|].
        now rewrite lookup_delete_ne in Hst by congruence.
    + destruct (IH w1 q) as [Hq|[Hq [Hin Hst]]].
      * left. now rewrite Hq, F1.
      * right. split; [easy|]. split; [now right|]. now rewrite <- F1.
  - erewrite bind_raise by exact E1. cbn [snd]. left. now rewrite F1.
Qed.

(** The loop stops at the first entry that resists, with the error of its
    examination or removal. *)
Lemma sweep_loop_stops t (l : list str) :
  forall w,
    (exists p e, p ∈ l /\ resists h (fs w) t p e) ->
    exists q e w',
      for_each l (sweep_entry h (t - retention)) w = (Raise (OSError e q), w')
      /\ q ∈ l /\ resists h (fs w) t q e.
Proof.
  induction l as [|x l IH]; intros w [p [e [Hin Hres]]].
  - now apply not_elem_of_nil in Hin.
  - cbn [for_each].
    destruct (sweep_entry_cases (t - retention) x w)
      as [[w1 [E1 [Hex [Hlock F1]]]]|[e1 [w1 [E1 [F1 Hwhy]]]]].
    + assert (Hne : p <> x).
      { intros ->. destruct Hres as [[Hn Hi]|[Hs [L _]]].
        - unfold examinable in Hex. rewrite Hn in Hex. congruence.
        - rewrite (Hlock Hs) in L. discriminate. }
      assert (Hkeep : forall q, q <> x -> fs w1 !! q = fs w !! q).
      { intros q Hq. rewrite F1.
        destruct (stale (t - retention) (fs w !! x)); [|reflexivity].
        now rewrite lookup_delete_ne by congruence. }
      destruct (IH w1) as [q [e' [w' [E' [Hq Hqres]]]]].
      { exists p, e. apply elem_of_cons in Hin as [?|Hin]; [easy|].
        split; [exact Hin|]. unfold resists. now rewrite Hkeep. }
      exists q, e', w'. erewrite bind_ok by exact E1.
      split; [exact E'|]. split; [now right|].
      destruct (decide (q = x)) as [->|Hqx].
      * exfalso. unfold resists in Hqres. rewrite F1 in Hqres.
        destruct (stale (t - retention) (fs w !! x)) eqn:Hs.
        -- rewrite lookup_delete_eq in Hqres. cbn in Hqres.
           destruct Hqres as [[[= <-] Hi]|[? _]]; discriminate.
        -- destruct Hqres as [[Hn Hi]|[Hs' _]]; [|congruence].
           unfold examinable in Hex. rewrite Hn in Hex. congruence.
      * unfold resists in *. now rewrite Hkeep in Hqres.
    + exists x, e1, w1. erewrite bind_raise by exact E1.
      split; [reflexivity|]. split; [left|]. exact Hwhy.
Qed.

Lemma cleanup_unfold w m :
  fs w !! TMP_DIR h = Some (Dir m) ->
  _cleanup_tmp_dir h w
  = for_each (children h (TMP_DIR h) (fs w))
             (sweep_entry h (now w - retention))
             (noted (EvIterdir (TMP_DIR h)) (noted EvTime w)).
Proof.
  intros Hd. unfold _cleanup_tmp_dir.
  erewrite bind_ok by apply time_spec.
  erewrite bind_ok by (eapply iterdir_ok; exact Hd).
  reflexivity.
Qed.

(** Without a directory to list the sweep changes no file. *)
Lemma cleanup_no_listing w :
  (forall m, fs w !! TMP_DIR h <> Some (Dir m)) ->
  exists e, _cleanup_tmp_dir h w
            = (Raise (OSError e (TMP_DIR h)),
               noted (EvIterdir (TMP_DIR h)) (noted EvTime w))
            /\ match fs w !! TMP_DIR h with
               | None => e = FileNotFoundError
               | Some (Denied e') => e = e'
               | Some _ => e = NotADirectoryError
               end.
Proof.
  intros Hd. unfold _cleanup_tmp_dir.
  erewrite bind_ok by apply time_spec.
  unfold iterdir, bind, log, get_fs, raise. cbn [fs noted].
  destruct (fs w !! TMP_DIR h) as [[d m|m|d m|e]|] eqn:E; eauto.
  now destruct (Hd m).
Qed.

(** The sweep, when nothing resists. *)
Lemma cleanup_ok w m :
  fs w !! TMP_DIR h = Some (Dir m) ->
  sweep_safe h (fs w) (now w) ->
  exists w',
    _cleanup_tmp_dir h w = (Ok tt, w')
    /\ forall q, fs w' !! q
                 = if is_child h (TMP_DIR h) q
                      && stale (now w - retention) (fs w !! q)
                   then None else fs w !! q.
Proof.
  intros Hd Hsafe. rewrite (cleanup_unfold w m Hd).
  destruct (sweep_loop_ok (now w - retention)
              (children h (TMP_DIR h) (fs w))
              (noted (EvIterdir (TMP_DIR h)) (noted EvTime w)))
    as [w' [E F]].
  { intros p Hp. apply children_spec in Hp as [Hc _].
    now apply Hsafe. }
  exists w'. split; [exact E|]. intros q. rewrite F. cbn [fs noted].
  destruct (stale (now w - retention) (fs w !! q)) eqn:Hs;
    [|now rewrite !andb_false_r].
  rewrite !andb_true_r.
  destruct (is_child h (TMP_DIR h) q) eqn:Hc.
  - rewrite bool_decide_eq_true_2; [easy|].
    apply children_spec. split; [easy|]. eapply stale_is_Some, Hs.
  - rewrite bool_decide_eq_false_2; [easy|].
    rewrite children_spec. intros [? _]. congruence.
Qed.

(** The sweep, whatever happens: a file is as it was, or it was a stale
    regular file among the entries of the cache directory and is gone. *)
Lemma cleanup_frame w q :
  fs (_cleanup_tmp_dir h w).2 !! q = fs w !! q
  \/ (fs (_cleanup_tmp_dir h w).2 !! q = None
      /\ is_child h (TMP_DIR h) q = true
      /\ stale (now w - retention) (fs w !! q) = true).
Proof.
  destruct (fs w !! TMP_DIR h) as [[d m|m|d m|e]|] eqn:Hd.
  2:{ rewrite (cleanup_unfold w m Hd).
      destruct (sweep_loop_frame (now w - retention)
                  (children h (TMP_DIR h) (fs w))
                  (noted (EvIterdir (TMP_DIR h)) (noted EvTime w)) q)
        as [Hq|[Hq [Hin Hst]]]; [now left|].
      right. split; [easy|]. split; [|easy].
      now apply children_spec in Hin as [? _]. }
  all: left; destruct (cleanup_no_listing w) as [e' [-> _]];
    [intros m'; rewrite Hd; discriminate | reflexivity].
Qed.

(** The sweep stops at the first entry that resists, with the error of
    its examination or removal. *)
Lemma cleanup_stops w m :
  fs w !! TMP_DIR h = Some (Dir m) ->
  (exists p e, is_child h (TMP_DIR h) p = true
               /\ resists h (fs w) (now w) p e) ->
  exists q e w',
    _cleanup_tmp_dir h w = (Raise (OSError e q), w')
    /\ is_child h (TMP_DIR h) q = true
    /\ resists h (fs w) (now w) q e.
Proof.
  intros Hd [p [e [Hc Hres]]]. rewrite (cleanup_unfold w m Hd).
  destruct (sweep_loop_stops (now w)
              (children h (TMP_DIR h) (fs w))
              (noted (EvIterdir (TMP_DIR h)) (noted EvTime w)))
    as [q [e' [w' [E [Hq Hqres]]]]].
  { exists p, e. split; [|exact Hres]. apply children_spec.
    split; [easy|]. destruct Hres as [[Hn Hi]|[Hs _]].
    - destruct (fs w !! p) as [n|]; [eauto|].
      cbn [stat_errno] in Hn. injection Hn as <-. discriminate Hi.
    - eapply stale_is_Some, Hs. }
  exists q, e', w'. split; [exact E|]. split; [|exact Hqres].
  now apply children_spec in Hq as [? _].
Qed.

End Janitor.

Section Retention.

Context (h : host).

(** C5, as the code has it.  Whatever a sweep comes to, a path it
    changes was an entry of the cache directory (one of the names the
    directory lists, not a file further below) holding a regular file
    last modified before [now - 86400], and that file is gone.  When the
    cache directory is a directory and the sweep meets no entry it
    cannot examine and no stale file it cannot remove, it returns, and
    has deleted every such file: exactly the stale regular entries are
    gone; a file stamped [now - 86400 - 1] goes, one stamped
    [now - 86400 + 1] stays, and directories stay.  When an entry
    resists, the sweep raises the error of the examination or removal
    of such an entry. *)
Theorem cleanup_tmp_dir_spec (w : world) :
  (forall p,
     fs (_cleanup_tmp_dir h w).2 !! p = fs w !! p
     \/ (fs (_cleanup_tmp_dir h w).2 !! p = None
         /\ is_child h (TMP_DIR h) p = true
         /\ stale (now w - retention) (fs w !! p) = true))
  /\ (forall dm,
        fs w !! TMP_DIR h = Some (Dir dm) ->
        sweep_safe h (fs w) (now w) ->
        exists w',
          _cleanup_tmp_dir h w = (Ok tt, w')
          /\ (forall p, fs w' !! p
                        = if is_child h (TMP_DIR h) p
                             && stale (now w - retention) (fs w !! p)
                          then None else fs w !! p)
          /\ (forall p data,
                is_child h (TMP_DIR h) p = true ->
                fs w !! p = Some (File data (now w - retention - 1)) ->
                fs w' !! p = None)
          /\ (forall p data,
                fs w !! p = Some (File data (now w - retention + 1)) ->
                fs w' !! p = Some (File data (now w - retention + 1)))
          /\ (forall p m, fs w !! p = Some (Dir m) ->
                          fs w' !! p = Some (Dir m)))
  /\ (forall dm p e,
        fs w !! TMP_DIR h = Some (Dir dm) ->
        is_child h (TMP_DIR h) p = true ->
        resists h (fs w) (now w) p e ->
        exists q e' w',
          _cleanup_tmp_dir h w = (Raise (OSError e' q), w')
          /\ is_child h (TMP_DIR h) q = true
          /\ resists h (fs w) (now w) q e').
Proof.
  split; [intros p; apply cleanup_frame|]. split.
  - intros dm Hd Hsafe.
    destruct (cleanup_ok h w dm Hd Hsafe) as [w' [E F]].
    exists w'. split; [exact E|]. split; [exact F|].
    repeat split.
    + intros p data Hc Hp. rewrite F, Hc, Hp. simpl.
      now rewrite (proj2 (Z.ltb_lt _ _)) by lia.
    + intros p data Hp. rewrite F, Hp. simpl.
      rewrite (proj2 (Z.ltb_ge _ _)) by lia. now rewrite andb_false_r.
    + intros p m Hp. rewrite F, Hp. simpl. now rewrite andb_false_r.
  - intros dm p e Hd Hc Hres. apply (cleanup_stops h w dm Hd). eauto.
Qed.

End Retention.

(** ** The render call *)

Lemma spawns_app (a b : list event) : spawns (a ++ b) = spawns a ++ spawns b.
Proof. unfold spawns. apply flat_map_app. Qed.

Lemma spawns_quiet (evs : list event) : Forall not_spawn evs -> spawns evs = [].
Proof.
  induction 1 as [|e evs He _ IH]; [easy|].
  simpl. rewrite IH. now destruct e.
Qed.

Section Render.

Context (h : host).

Lemma path_root_length (s : str) : (List.length (path_root h s) <= 2)%nat.
Proof.
  unfold path_root.
  destruct (_ && _); [simpl; lia|]. destruct (Text.startswith _ _); simpl; lia.
Qed.

Lemma TMP_DIR_length : (7 <= List.length (TMP_DIR h))%nat.
Proof.
  unfold TMP_DIR, joinpath.
  destruct (Text.eqb _ (lit ".")); [|destruct (Text.eqb _ (path_root h _))];
    rewrite ?length_app; simpl; lia.
Qed.

(** A file of the cache directory is not the cache directory. *)
Lemma joinpath_TMP_DIR (name : str) :
  joinpath h (TMP_DIR h) name = TMP_DIR h ++ [os_sep h] ++ name.
Proof.
  pose proof TMP_DIR_length as Hlen. unfold joinpath.
  destruct (Text.eqb (TMP_DIR h) (lit ".")) eqn:E1.
  { apply eqb_eq in E1. rewrite E1 in Hlen. simpl in Hlen. lia. }
  destruct (Text.eqb (TMP_DIR h) (path_root h (TMP_DIR h))) eqn:E2.
  { apply eqb_eq in E2. pose proof (path_root_length (TMP_DIR h)) as Hr.
    rewrite <- E2 in Hr. lia. }
  reflexivity.
Qed.

Lemma joinpath_TMP_DIR_neq (name : str) :
  joinpath h (TMP_DIR h) name <> TMP_DIR h.
Proof.
  rewrite joinpath_TMP_DIR. intros H.
  apply (f_equal (@List.length _)) in H.
  rewrite !length_app in H. simpl in H. lia.
Qed.

Lemma tex2html_unfold tex options w parts w1 digest :
  _iter_cmd_parts h options w = (Ok parts, w1) ->
  _cmd_digest tex parts = Ok digest ->
  tex2html h tex options w
  = try_finally (tex2html_try h parts tex (cache_file h digest))
                (_cleanup_tmp_dir h) w1.
Proof.
  intros Hparts Hdigest. unfold tex2html.
  erewrite bind_ok by exact Hparts.
  erewrite bind_ok by (unfold lift; now rewrite Hdigest).
  reflexivity.
Qed.

(** The [try] block on a hit. *)
Lemma tex2html_try_hit parts tex out w data mtime text :
  fs w !! out = Some (File data mtime) ->
  decode_text data = Ok text ->
  tex2html_try h parts tex out w
  = (Ok (Text.strip text),
     World (<[out := File data (now w)]> (fs w)) (now w)
           (trace w ++ [EvExists out; EvTouch out; EvRead out])).
Proof.
  intros Hout Hdec. unfold tex2html_try.
  erewrite bind_ok by (eapply exists_file; exact Hout).
  erewrite bind_ok by (eapply touch_file; cbn [fs noted]; exact Hout).
  erewrite bind_ok.
  2:{ eapply read_text_file; [|exact Hdec].
      cbn [fs with_fs noted]. apply lookup_insert_eq. }
  unfold ret, noted, with_fs; cbn [fs now trace].
  now rewrite <- !app_assoc.
Qed.

(** A call that returns has read the cache file, and the sweep that
    followed has left that file as it was read or has deleted it. *)
Lemma tex2html_ok_inv tex options w r w' parts w1 digest :
  tex2html h tex options w = (Ok r, w') ->
  _iter_cmd_parts h options w = (Ok parts, w1) ->
  _cmd_digest tex parts = Ok digest ->
  exists data text,
    decode_text data = Ok text /\ r = Text.strip text
    /\ (holds (fs w' !! cache_file h digest) data
        \/ fs w' !! cache_file h digest = None).
Proof.
  intros Hcall Hparts Hdigest.
  rewrite (tex2html_unfold _ _ _ _ _ _ Hparts Hdigest) in Hcall.
  unfold try_finally in Hcall.
  destruct (tex2html_try h parts tex (cache_file h digest) w1)
    as [rb wr] eqn:Hbody.
  pose proof (cleanup_frame h wr (cache_file h digest)) as Hframe.
  destruct (_cleanup_tmp_dir h wr) as [[[]|e] w2]; [|discriminate].
  injection Hcall as -> ->. cbn [snd] in Hframe.
  unfold tex2html_try in Hbody.
  apply bind_ok_inv in Hbody as [hit [wa [_ Hbody]]].
  apply bind_ok_inv in Hbody as [[] [wb [_ Hbody]]].
  apply bind_ok_inv in Hbody as [text [wc [Hread Hret]]].
  injection Hret as <- <-.
  apply read_text_ok_inv in Hread as [data [Hfile [Hdec ->]]].
  exists data, text. repeat split; auto.
  cbn [fs noted] in Hframe.
  destruct Hframe as [Hsame|[? _]]; [left|now right].
  now rewrite Hsame.
Qed.

(** C1, as the code has it.  Once the binary is resolved, if a regular
    cache file for the digest that the caller may write holds UTF-8
    text, the cache directory is a directory and the sweep meets no
    entry it cannot examine and no stale file it cannot remove, then the
    call returns the trimmed text of that file; after resolution its
    system calls are the existence check, the touch and the read of that
    file followed by the sweep, none of which starts a process; the file
    is left with its modification time set to the time of the call.  If
    an earlier call with the same text and options resolved the same
    command and returned, and the cache file is at this lookup as that
    call left it, both calls return the same text. *)
Theorem tex2html_cache_hit (tex : str) (options : option Options)
    (w w1 : world) (parts : list str) (digest : str)
    (data : bytes) (mtime dm : Z) (text : str) :
  _iter_cmd_parts h options w = (Ok parts, w1) ->
  _cmd_digest tex parts = Ok digest ->
  fs w1 !! cache_file h digest = Some (File data mtime) ->
  decode_text data = Ok text ->
  fs w1 !! TMP_DIR h = Some (Dir dm) ->
  sweep_safe h (fs w1) (now w1) ->
  exists w' evs,
    tex2html h tex options w = (Ok (Text.strip text), w')
    /\ trace w' = trace w1 ++ [EvExists (cache_file h digest);
                               EvTouch (cache_file h digest);
                               EvRead (cache_file h digest)] ++ evs
    /\ Forall not_spawn evs
    /\ spawns (trace w') = spawns (trace w1)
    /\ fs w' !! cache_file h digest = Some (File data (now w1))
    /\ (forall w0 r0 w0' wa,
          tex2html h tex options w0 = (Ok r0, w0') ->
          _iter_cmd_parts h options w0 = (Ok parts, wa) ->
          fs w1 !! cache_file h digest = fs w0' !! cache_file h digest ->
          r0 = Text.strip text).
Proof.
  intros Hparts Hdigest Hout Hdec Hdir Hsafe.
  set (out := cache_file h digest) in *.
  set (wr := World (<[out := File data (now w1)]> (fs w1)) (now w1)
                   (trace w1 ++ [EvExists out; EvTouch out; EvRead out])).
  assert (Hne : TMP_DIR h <> out) by (intros E; rewrite E, Hout in Hdir; easy).
  destruct (cleanup_ok h wr dm) as [w' [Hsweep Hfs]].
  { cbn [fs wr]. now rewrite lookup_insert_ne by congruence. }
  { intros p Hc. cbn [fs now wr].
    destruct (decide (p = out)) as [->|Hp].
    - rewrite lookup_insert_eq. split; [reflexivity|]. simpl. intros Hs.
      apply Z.ltb_lt in Hs. unfold retention in Hs. lia.
    - rewrite lookup_insert_ne by congruence. now apply Hsafe. }
  destruct (traced_cleanup_tmp_dir h not_spawn (fun e He => He) wr)
    as [_ [evs [Htrace Hquiet]]].
  rewrite Hsweep in Htrace. cbn [snd trace wr] in Htrace.
  exists w', evs.
  assert (Hcall : tex2html h tex options w = (Ok (Text.strip text), w')).
  { rewrite (tex2html_unfold _ _ _ _ _ _ Hparts Hdigest).
    eapply try_finally_ok; [|exact Hsweep].
    now apply (tex2html_try_hit parts tex out w1 data mtime text). }
  split; [exact Hcall|].
  split; [now rewrite Htrace, <- app_assoc|].
  split; [exact Hquiet|].
  split.
  { rewrite Htrace, !spawns_app, (spawns_quiet evs Hquiet).
    simpl. now rewrite !app_nil_r. }
  split.
  { rewrite Hfs. cbn [fs now wr]. rewrite lookup_insert_eq. simpl.
    rewrite (proj2 (Z.ltb_ge _ _)) by (unfold retention; lia).
    now rewrite andb_false_r. }
  intros w0 r0 w0' wa Hprev Hprev_parts Hsame.
  destruct (tex2html_ok_inv _ _ _ _ _ _ _ _ Hprev Hprev_parts Hdigest)
    as [data0 [text0 [Hdec0 [-> Hleft]]]].
  fold out in Hleft. rewrite <- Hsame, Hout in Hleft.
  destruct Hleft as [[m0 [[= <- _]|?]]|?]; try discriminate.
  congruence.
Qed.

End Render.

(** ** Running the renderer *)

Section Renderer.

Context (h : host).

Lemma with_dir_lookup_ne (p q : str) (t : Z) (f : gmap str node) :
  p <> q -> with_dir p t f !! q = f !! q.
Proof.
  intros Hne. unfold with_dir.
  destruct (f !! p); [easy|]. now rewrite lookup_insert_ne.
Qed.

(** [_write_tex2html] up to the end of the renderer. *)
Lemma write_tex2html_exited cmd_parts tex out w input_data code said f' :
  let tmp_in := tmp_input_file_of h out in
  let argv := extend_cmd_parts cmd_parts tmp_in out in
  encode_utf8 tex = Ok input_data ->
  dir_or_absent (fs w !! TMP_DIR h) = true ->
  writable (fs w !! tmp_in) = true ->
  run h argv (staged h w tmp_in input_data) (now w) = Exited code said f' ->
  let w4 := World f' (now w)
              (trace w ++ [EvMkdir (TMP_DIR h); EvWrite tmp_in;
                           EvSpawn argv; EvClose]) in
  _write_tex2html h cmd_parts tex out w
  = match check_exit h tex (Process code said) with
    | Ok _ => unlink h tmp_in w4
    | Raise e => (Raise e, w4)
    end.
Proof.
  intros tmp_in argv Henc Hdir Hin Hrun w4.
  unfold _write_tex2html. fold tmp_in. fold argv.
  erewrite bind_ok by (unfold lift; now rewrite Henc).
  erewrite bind_ok by (apply mkdir_ok; exact Hdir).
  erewrite bind_ok.
  2:{ apply write_bytes_ok. cbn [fs with_fs noted].
      rewrite with_dir_lookup_ne; [exact Hin|].
      intros E. symmetry in E. revert E. apply joinpath_TMP_DIR_neq. }
  unfold bind, try_finally_from.
  erewrite spawn_exited by (cbn [fs now with_fs noted]; exact Hrun).
  unfold try_finally, lift, close_pipes, log.
  destruct (check_exit h tex (Process code said)) as [[]|e];
    [f_equal | f_equal];
    unfold noted, with_fs, w4; cbn [fs now trace];
    now rewrite <- !app_assoc.
Qed.

(** [_write_tex2html] when the renderer cannot be started. *)
Lemma write_tex2html_launch_failure cmd_parts tex out w input_data e :
  let tmp_in := tmp_input_file_of h out in
  let argv := extend_cmd_parts cmd_parts tmp_in out in
  encode_utf8 tex = Ok input_data ->
  dir_or_absent (fs w !! TMP_DIR h) = true ->
  writable (fs w !! tmp_in) = true ->
  run h argv (staged h w tmp_in input_data) (now w) = LaunchFailure e ->
  _write_tex2html h cmd_parts tex out w
  = (Raise (OSError e (hd [] argv)),
     World (staged h w tmp_in input_data) (now w)
           (trace w ++ [EvMkdir (TMP_DIR h); EvWrite tmp_in; EvSpawn argv])).
Proof.
  intros tmp_in argv Henc Hdir Hin Hrun.
  unfold _write_tex2html. fold tmp_in. fold argv.
  erewrite bind_ok by (unfold lift; now rewrite Henc).
  erewrite bind_ok by (apply mkdir_ok; exact Hdir).
  erewrite bind_ok.
  2:{ apply write_bytes_ok. cbn [fs with_fs noted].
      rewrite with_dir_lookup_ne; [exact Hin|].
      intros E. symmetry in E. revert E. apply joinpath_TMP_DIR_neq. }
  unfold bind, try_finally_from.
  erewrite spawn_failure by (cbn [fs now with_fs noted]; exact Hrun).
  unfold try_finally, raise, ret, staged, noted, with_fs; cbn [fs now trace].
  now rewrite <- !app_assoc.
Qed.

(** Every process [_write_tex2html] starts is started on the command
    extended by the input and output arguments. *)
Lemma traced_write_tex2html cmd_parts tex out :
  traced (spawn_only
            (extend_cmd_parts cmd_parts (tmp_input_file_of h out) out))
         (_write_tex2html h cmd_parts tex out).
Proof.
  unfold _write_tex2html.
  apply traced_bind; [apply traced_lift|]. intros input_data.
  apply traced_bind; [now apply traced_mkdir|]. intros _.
  apply traced_bind; [now apply traced_write_bytes|]. intros _.
  apply traced_bind; [|intros _; now apply traced_unlink].
  apply traced_try_finally_from.
  - now apply traced_spawn.
  - intros proc. apply traced_lift.
  - intros [proc|]; [now apply traced_log | apply traced_ret].
Qed.

Lemma traced_tex2html_try cmd_parts tex out :
  traced (spawn_only
            (extend_cmd_parts cmd_parts (tmp_input_file_of h out) out))
         (let* _ := (fun w => _write_tex2html h cmd_parts tex out w) in
          let* result := read_text out in
          ret (Text.strip result)).
Proof.
  apply traced_bind; [apply traced_write_tex2html|]. intros _.
  apply traced_bind; [now apply traced_read_text|]. intros s.
  apply traced_ret.
Qed.

End Renderer.

(** ** Failures of the renderer *)

Section Failures.

Context (h : host).

Lemma check_exit_positive tex code said stdout errout :
  (0 < code)%Z ->
  read_output (output_of Stdout said) = Ok stdout ->
  read_output (output_of Stderr said) = Ok errout ->
  check_exit h tex (Process code said)
  = Raise (KatexError
             (exit_err_msg tex (Text.strip (stdout ++ [10] ++ errout)))).
Proof.
  intros Hpos Hout Herr. unfold check_exit. cbn [returncode chunks].
  rewrite (proj2 (Z.ltb_ge _ _)) by lia.
  rewrite (proj2 (Z.gtb_gt _ _)) by lia.
  now rewrite Hout, Herr.
Qed.


(** C4, as the code has it.  On a miss, when the input file can be
    staged (the cache directory is absent or a directory, at the name of
    the input file is nothing or a file of the caller), the renderer
    exits with a positive status, both of its streams are UTF-8 and the
    sweep meets no entry it cannot examine and no stale file it cannot
    remove, the call raises [KatexError] with the
    message [Error processing '<text>': <output>], where the output is
    the trimmed text of standard output, a line feed and standard error;
    the message contains the text and that output.  The call itself
    writes no cache file: none is there afterwards unless the renderer
    left one, and one it left, if not stale, is still there. *)
Theorem tex2html_nonzero_exit (tex : str) (options : option Options)
    (w w1 : world) (parts : list str) (digest : str) (input_data : bytes)
    (code : Z) (said : list (stream * bytes)) (f' : gmap str node)
    (stdout errout : str) (dm : Z) :
  let out := cache_file h digest in
  let tmp_in := tmp_input_file_of h out in
  let argv := extend_cmd_parts parts tmp_in out in
  let output := Text.strip (stdout ++ [10] ++ errout) in
  let msg := exit_err_msg tex output in
  _iter_cmd_parts h options w = (Ok parts, w1) ->
  _cmd_digest tex parts = Ok digest ->
  fs w1 !! out = None ->
  encode_utf8 tex = Ok input_data ->
  dir_or_absent (fs w1 !! TMP_DIR h) = true ->
  writable (fs w1 !! tmp_in) = true ->
  run h argv (staged h w1 tmp_in input_data) (now w1) = Exited code said f' ->
  (0 < code)%Z ->
  read_output (output_of Stdout said) = Ok stdout ->
  read_output (output_of Stderr said) = Ok errout ->
  f' !! TMP_DIR h = Some (Dir dm) ->
  sweep_safe h f' (now w1) ->
  exists w',
    tex2html h tex options w = (Raise (KatexError msg), w')
    /\ Text.contains msg tex = true
    /\ Text.contains msg output = true
    /\ (f' !! out = None -> fs w' !! out = None)
    /\ (forall d m, f' !! out = Some (File d m) ->
                    (now w1 - retention <= m)%Z ->
                    fs w' !! out = Some (File d m))
    /\ spawns (trace w') = spawns (trace w1) ++ [argv].
Proof.
  intros out tmp_in argv output msg
         Hparts Hdigest Hmiss Henc Hdir Hin Hrun Hpos Hso Hse Hdir' Hsafe.
  set (w4 := World f' (now w1)
               (trace w1 ++ [EvExists out; EvMkdir (TMP_DIR h);
                             EvWrite tmp_in; EvSpawn argv; EvClose])).
  assert (Hbody : tex2html_try h parts tex out w1
                  = (Raise (KatexError msg), w4)).
  { unfold tex2html_try.
    erewrite bind_ok by (apply exists_false; exact Hmiss).
    erewrite bind_raise; [reflexivity|]. cbv beta iota.
    erewrite (write_tex2html_exited h parts tex out (noted (EvExists out) w1)
                input_data code said f');
      [| exact Henc | exact Hdir | exact Hin | exact Hrun].
    rewrite (check_exit_positive tex code said stdout errout Hpos Hso Hse).
    unfold w4, noted; cbn [fs now trace]. now rewrite <- !app_assoc. }
  destruct (cleanup_ok h w4 dm Hdir' Hsafe) as [w' [Hsweep Hfs]].
  destruct (traced_cleanup_tmp_dir h not_spawn (fun e He => He) w4)
    as [_ [evs [Htrace Hquiet]]].
  rewrite Hsweep in Htrace. cbn [snd trace w4] in Htrace.
  exists w'. split.
  { rewrite (tex2html_unfold _ _ _ _ _ _ _ Hparts Hdigest).
    eapply try_finally_ok; [exact Hbody | exact Hsweep]. }
  destruct (exit_err_msg_contains tex output) as [Htex Houtput].
  split; [exact Htex|]. split; [exact Houtput|].
  split; [|split].
  - intros Hnone. rewrite Hfs. cbn [fs w4]. rewrite Hnone.
    now destruct (is_child h (TMP_DIR h) out && _).
  - intros d m Hleft Hfresh. rewrite Hfs. cbn [fs now w4]. rewrite Hleft.
    simpl. rewrite (proj2 (Z.ltb_ge _ _)) by lia. now rewrite andb_false_r.
  - rewrite Htrace, !spawns_app, (spawns_quiet evs Hquiet).
    simpl. now rewrite app_nil_r.
Qed.

(** C9, as the code has it.  The sweep swallows nothing: whatever the
    [try] block of the render call has come to, if the sweep then finds
    among the entries of the cache directory one that resists, an entry
    it cannot examine or a stale regular file that the system refuses
    to remove, the call raises the error of that examination or
    removal, [PermissionError] for a removal. *)
Theorem tex2html_sweep_failure_propagates (tex : str)
    (options : option Options) (w w1 wr : world) (parts : list str)
    (digest : str) (r : result str) (dm : Z) :
  _iter_cmd_parts h options w = (Ok parts, w1) ->
  _cmd_digest tex parts = Ok digest ->
  tex2html_try h parts tex (cache_file h digest) w1 = (r, wr) ->
  fs wr !! TMP_DIR h = Some (Dir dm) ->
  (exists p e, is_child h (TMP_DIR h) p = true
               /\ resists h (fs wr) (now wr) p e) ->
  exists q e w',
    tex2html h tex options w = (Raise (OSError e q), w')
    /\ is_child h (TMP_DIR h) q = true
    /\ resists h (fs wr) (now wr) q e.
Proof.
  intros Hparts Hdigest Hbody Hdir Hresists.
  destruct (cleanup_stops h wr dm Hdir Hresists)
    as [q [e [w' [Hsweep [Hc Hres]]]]].
  exists q, e, w'. split; [|auto].
  rewrite (tex2html_unfold _ _ _ _ _ _ _ Hparts Hdigest).
  eapply try_finally_raise; [exact Hbody | exact Hsweep].
Qed.

(** C10.  The digest that names the cache file is taken of the text and
    of the command as built from the resolved prefix and the options;
    the first system call after resolution is the existence check of
    the file so named, and any process the call then starts is started
    on that command extended by [--input], the input path, [--output]
    and the output path, which the digest has never seen.  Another call
    with the same text and options, on any machine and in any state
    where resolution gives the same prefix, computes the same digest,
    wherever its temporary files are. *)
Theorem digest_precedes_io_arguments (tex : str) (options : option Options)
    (w w1 : world) (parts : list str) (digest : str) :
  let out := cache_file h digest in
  let argv := extend_cmd_parts parts (tmp_input_file_of h out) out in
  _iter_cmd_parts h options w = (Ok parts, w1) ->
  _cmd_digest tex parts = Ok digest ->
  (exists prefix w0,
     get_bin_cmd h w = (Ok prefix, w0)
     /\ parts = spec_build prefix options
     /\ _cmd_digest tex (spec_build prefix options) = Ok digest
     /\ forall h' w' w0' parts' w1',
          get_bin_cmd h' w' = (Ok prefix, w0') ->
          _iter_cmd_parts h' options w' = (Ok parts', w1') ->
          _cmd_digest tex parts' = Ok digest)
  /\ exists evs,
       trace (tex2html h tex options w).2 = trace w1 ++ EvExists out :: evs
       /\ Forall (spawn_only argv) evs.
Proof.
  intros out argv Hparts Hdigest. split.
  - pose proof Hparts as Hparts0. unfold _iter_cmd_parts in Hparts.
    apply bind_ok_inv in Hparts as [prefix [w0 [Hbin Hret]]].
    assert (Hbuilt : parts = spec_build prefix options).
    { rewrite <- yield_options_spec_build.
      destruct options as [[|item items]|]; injection Hret as <- <-; auto. }
    exists prefix, w0. subst parts. repeat split; auto.
    intros h' w' w0' parts' w1' Hbin' Hparts'.
    unfold _iter_cmd_parts in Hparts'. erewrite bind_ok in Hparts' by exact Hbin'.
    rewrite <- Hdigest. f_equal. rewrite <- yield_options_spec_build.
    destruct options as [[|item items]|]; injection Hparts' as <- <-; auto.
  - rewrite (tex2html_unfold _ _ _ _ _ _ _ Hparts Hdigest). fold out.
    assert (Hrest : forall answer : M bool,
              traced (spawn_only argv) answer ->
              traced (spawn_only argv)
                (try_finally
                   (let* hit := answer in
                    let* _ := (if hit then touch out
                               else _write_tex2html h parts tex out) in
                    let* result := read_text out in
                    ret (Text.strip result))
                   (_cleanup_tmp_dir h))).
    { intros answer Hanswer. apply traced_try_finally.
      - apply traced_bind; [exact Hanswer|]. intros hit.
        apply traced_bind.
        + destruct hit; [now apply traced_touch|].
          apply traced_write_tex2html.
        + intros _. apply traced_bind; [now apply traced_read_text|].
          intros s. apply traced_ret.
      - apply traced_cleanup_tmp_dir. now intros [].
    }
    set (answer := match stat_errno (fs w1 !! out) with
                   | None => ret true
                   | Some e => if _ignore_error e then ret false
                               else raise (OSError e out)
                   end).
    assert (Hanswer : traced (spawn_only argv) answer).
    { unfold answer. destruct (stat_errno (fs w1 !! out)) as [e|];
        [destruct (_ignore_error e)|];
        auto using traced_ret, traced_raise. }
    destruct (Hrest answer Hanswer (noted (EvExists out) w1))
      as [_ [evs [Htrace Hall]]].
    exists evs. split; [|exact Hall].
    cbn [trace noted] in Htrace. rewrite <- app_assoc in Htrace.
    etransitivity; [|exact Htrace]. reflexivity.
Qed.

End Failures.

(** ** Reading a pipe line by line *)

Lemma byte_eqb_lf (b : byte) : Byte.eqb b x0a = true <-> b = x0a.
Proof.
  split.
  - apply Byte.byte_dec_bl.
  - intros ->. reflexivity.
Qed.

Lemma readlines_shape (buf : bytes) :
  forall line,
    ~ In x0a line ->
    exists lines rest,
      readlines line buf = lines ++ rest
      /\ Forall (fun l => exists body, l = body ++ [x0a] /\ ~ In x0a body)
                lines
      /\ (rest = [] \/ exists t, rest = [t] /\ t <> [] /\ ~ In x0a t).
Proof.
  induction buf as [|b buf IH]; intros line Hline; cbn [readlines].
  - exists [], (match line with [] => [] | _ => [rev line] end).
    split; [reflexivity|]. split; [constructor|].
    destruct line as [|c line]; [now left|right].
    exists (rev (c :: line)). split; [reflexivity|]. split.
    + intros E. apply (f_equal (@List.length byte)) in E.
      rewrite length_rev in E. discriminate.
    + now rewrite <- in_rev.
  - destruct (Byte.eqb b x0a) eqn:E.
    + apply byte_eqb_lf in E. subst b.
      destruct (IH [] (fun H => H)) as [lines [rest [Heq [Hlines Hrest]]]].
      exists (rev (x0a :: line) :: lines), rest.
      split; [now rewrite Heq|]. split; [|exact Hrest].
      constructor; [|exact Hlines].
      exists (rev line). split; [reflexivity|]. now rewrite <- in_rev.
    + apply IH. intros [->|H]; [|now apply Hline].
      now rewrite (proj2 (byte_eqb_lf x0a) eq_refl) in E.
Qed.

(** X1.  [_iter_output_lines] cuts a stream after every line feed and
    nowhere else: it yields complete lines, each ending in its only line
    feed, then at most one unterminated remainder, which is not empty;
    joined, the pieces are the stream, byte for byte. *)
Theorem iter_output_lines_spec (buf : bytes) :
  concat (_iter_output_lines buf) = buf
  /\ exists lines rest,
       _iter_output_lines buf = lines ++ rest
       /\ Forall (fun l => exists body, l = body ++ [x0a] /\ ~ In x0a body)
                 lines
       /\ (rest = [] \/ exists t, rest = [t] /\ t <> [] /\ ~ In x0a t).
Proof.
  split.
  - unfold _iter_output_lines. now rewrite readlines_concat.
  - apply readlines_shape. intros [].
Qed.

(** X2.  What a child writes as the UTF-8 encoding of a text,
    [read_output] gives back as that text, wherever the line feeds fall
    and whatever the lines cut through. *)
Theorem read_output_round_trip (s : str) (data : bytes) :
  Text.encode s = Some data -> read_output data = Ok s.
Proof.
  intros Henc. unfold read_output, _iter_output_lines.
  rewrite readlines_concat. cbn [rev app]. unfold decode_utf8.
  now rewrite (decode_encode s data Henc).
Qed.

(** ** The search for an installed command *)

Lemma try_except_ok {A} (body : M A) handled (handler : M A) w a w1 :
  body w = (Ok a, w1) -> try_except body handled handler w = (Ok a, w1).
Proof. unfold try_except. now intros ->. Qed.

Lemma try_except_handled {A} (body : M A) handled (handler : M A) w e w1 :
  body w = (Raise e, w1) -> handled e = true ->
  try_except body handled handler w = handler w1.
Proof. unfold try_except. now intros -> ->. Qed.

Lemma try_except_unhandled {A} (body : M A) handled (handler : M A) w e w1 :
  body w = (Raise e, w1) -> handled e = false ->
  try_except body handled handler w = (Raise e, w1).
Proof. unfold try_except. now intros -> ->. Qed.

(** Iterations that yield nothing are passed over. *)
Lemma first_some_app {A B} (xs ys : list A) (body : A -> M (option B)) :
  forall w w1,
    first_some xs body w = (Ok None, w1) ->
    first_some (xs ++ ys) body w = first_some ys body w1.
Proof.
  induction xs as [|x xs IH]; intros w w1; cbn [first_some app].
  - unfold ret. now intros [= <-].
  - unfold bind. destruct (body x w) as [[[b|]|e] w2]; try discriminate.
    apply IH.
Qed.

Lemma first_some_found {A B} (x : A) (xs : list A) (body : A -> M (option B))
    w b w1 :
  body x w = (Ok (Some b), w1) ->
  first_some (x :: xs) body w = (Ok (Some b), w1).
Proof. intros H. cbn [first_some]. unfold bind. now rewrite H. Qed.

Lemma first_some_raise {A B} (x : A) (xs : list A) (body : A -> M (option B))
    w e w1 :
  body x w = (Raise e, w1) ->
  first_some (x :: xs) body w = (Raise e, w1).
Proof. intros H. cbn [first_some]. unfold bind. now rewrite H. Qed.

(** A loop whose iterations all yield nothing and keep an invariant of
    the world yields nothing and keeps it. *)
Lemma first_some_none {A B} (xs : list A) (body : A -> M (option B))
    (Inv : world -> Prop) :
  (forall x w, In x xs -> Inv w ->
               exists w', body x w = (Ok None, w') /\ Inv w') ->
  forall w, Inv w ->
            exists w', first_some xs body w = (Ok None, w') /\ Inv w'.
Proof.
  induction xs as [|x xs IH]; intros Hbody w Hw; cbn [first_some].
  - now exists w.
  - destruct (Hbody x w (or_introl eq_refl) Hw) as [w1 [Hx Hw1]].
    destruct (IH (fun y v Hy => Hbody y v (or_intror Hy)) w1 Hw1)
      as [w2 [Hxs Hw2]].
    exists w2. split; [|exact Hw2].
    erewrite bind_ok by exact Hx. exact Hxs.
Qed.

Section Search.

Context (h : host).

Lemma undisturbed_refl (w : world) : undisturbed w w.
Proof.
  repeat split. exists []. split; [now rewrite app_nil_r|constructor].
Qed.

Lemma undisturbed_noted (w w' : world) (e : event) :
  is_look e -> undisturbed w w' -> undisturbed w (noted e w').
Proof.
  intros He [Hf [Ht [Hs [evs [Htrace Hevs]]]]].
  split; [exact Hf|]. split; [exact Ht|]. cbn [noted trace]. split.
  - rewrite spawns_app, Hs. destruct e; simpl; try now rewrite app_nil_r.
    destruct He.
  - exists (evs ++ [e]). split; [now rewrite Htrace, <- app_assoc|].
    apply Forall_app. split; [exact Hevs|]. now constructor.
Qed.

Lemma get_env_paths_run (w : world) :
  exists paths, _get_env_paths h w = (Ok paths, noted EvEnviron w).
Proof. eexists. reflexivity. Qed.

Lemma get_env_paths_anywhere (w w' v : world) (paths : list str) :
  _get_env_paths h w = (Ok paths, w') ->
  _get_env_paths h v = (Ok paths, noted EvEnviron v).
Proof.
  unfold _get_env_paths, environ_get_PATH, bind, log, ret.
  now intros [= <- _].
Qed.

Lemma try_candidate_absent (path local_cmd : str) (w : world) :
  is_no_file (fs w !! candidate_bin h path local_cmd) = true ->
  try_candidate h path local_cmd w
  = (Ok None, noted (EvIsFile (candidate_bin h path local_cmd)) w).
Proof.
  intros Habsent. unfold try_candidate, candidate_bin in *.
  erewrite bind_ok by (apply is_file_no_file, Habsent).
  reflexivity.
Qed.

(** A candidate that cannot be examined ends the search. *)
Lemma try_candidate_refused (path local_cmd : str) (w : world) (e : os_error) :
  stat_errno (fs w !! candidate_bin h path local_cmd) = Some e ->
  _ignore_error e = false ->
  try_candidate h path local_cmd w
  = (Raise (OSError e (candidate_bin h path local_cmd)),
     noted (EvIsFile (candidate_bin h path local_cmd)) w).
Proof.
  intros Hn He. unfold try_candidate, candidate_bin in *.
  erewrite bind_raise by (apply is_file_refused; eauto).
  reflexivity.
Qed.

(** The loops of the search pass over the directories and candidates at
    which [is_file] answers [False]. *)
Lemma candidates_absent (path : str) (cands : list str) (w0 w : world) :
  (forall c, In c cands ->
             is_no_file (fs w0 !! candidate_bin h path c) = true) ->
  undisturbed w0 w ->
  exists w',
    first_some cands (try_candidate h path) w = (Ok None, w')
    /\ undisturbed w0 w'.
Proof.
  intros Habsent.
  apply (first_some_none cands (try_candidate h path) (undisturbed w0)).
  intros c v Hc Hv. eexists. split.
  - apply try_candidate_absent. destruct Hv as [-> _]. now apply Habsent.
  - now apply undisturbed_noted.
Qed.

Lemma paths_absent (paths : list str) (w0 w : world) :
  (forall p c, In p paths -> In c (_get_local_bin_candidates h) ->
               is_no_file (fs w0 !! candidate_bin h p c) = true) ->
  undisturbed w0 w ->
  exists w',
    first_some paths
      (fun path => first_some (_get_local_bin_candidates h)
                              (try_candidate h path)) w
    = (Ok None, w')
    /\ undisturbed w0 w'.
Proof.
  intros Habsent.
  apply (first_some_none paths _ (undisturbed w0)).
  intros p v Hp Hv. apply candidates_absent; [|exact Hv].
  intros c Hc. now apply Habsent.
Qed.

(** Without a persisted resolution the search is what resolution does. *)
Lemma get_usr_parts_fresh (w : world) (paths : list str) (w1 : world) :
  fs w !! TMP_LOCAL_CMD_CACHE h = None ->
  _get_env_paths h w = (Ok paths, w1) ->
  _get_usr_parts h w
  = first_some paths
      (fun path => first_some (_get_local_bin_candidates h)
                              (try_candidate h path))
      (noted EvEnviron (noted (EvExists (TMP_LOCAL_CMD_CACHE h)) w)).
Proof.
  intros Hfresh Hpaths. unfold _get_usr_parts.
  erewrite bind_ok by (apply exists_false; exact Hfresh).
  erewrite bind_ok by reflexivity. cbv beta iota.
  erewrite bind_ok by (eapply get_env_paths_anywhere; exact Hpaths).
  reflexivity.
Qed.

(** The search comes to a candidate when [is_file] answers [False] at
    every earlier one; what the candidate yields, if it is not passed
    over, is what resolution yields. *)
Lemma usr_search_reaches (w : world) (w0 : world)
    (before after : list str) (path : str) (cb ca : list str) (cand : str) :
  fs w !! TMP_LOCAL_CMD_CACHE h = None ->
  _get_env_paths h w = (Ok (before ++ path :: after), w0) ->
  _get_local_bin_candidates h = cb ++ cand :: ca ->
  (forall p c, In p before -> In c (_get_local_bin_candidates h) ->
               is_no_file (fs w !! candidate_bin h p c) = true) ->
  (forall c, In c cb ->
             is_no_file (fs w !! candidate_bin h path c) = true) ->
  exists w1,
    undisturbed w w1
    /\ (forall parts w2,
          try_candidate h path cand w1 = (Ok (Some parts), w2) ->
          _get_usr_parts h w = (Ok (Some parts), w2))
    /\ (forall e w2,
          try_candidate h path cand w1 = (Raise e, w2) ->
          _get_usr_parts h w = (Raise e, w2)).
Proof.
  intros Hfresh Hpaths Hcands Hbefore Hcb.
  rewrite (get_usr_parts_fresh w _ w0 Hfresh Hpaths).
  set (wa := noted EvEnviron (noted (EvExists (TMP_LOCAL_CMD_CACHE h)) w)).
  assert (Hwa : undisturbed w wa).
  { apply undisturbed_noted; [exact I|].
    apply undisturbed_noted; [exact I|]. apply undisturbed_refl. }
  destruct (paths_absent before w wa Hbefore Hwa) as [wb [Hskip Hwb]].
  rewrite (first_some_app _ _ _ _ _ Hskip).
  destruct (candidates_absent path cb w wb Hcb Hwb) as [wc [Hskip' Hwc]].
  exists wc. split; [exact Hwc|]. split.
  - intros parts w2 Hfound. apply first_some_found.
    rewrite Hcands, (first_some_app _ _ _ _ _ Hskip').
    now apply first_some_found.
  - intros e w2 Hraise. apply first_some_raise.
    rewrite Hcands, (first_some_app _ _ _ _ _ Hskip').
    now apply first_some_raise.
Qed.

Lemma get_usr_parts_absent (w w0 : world) (paths : list str) :
  fs w !! TMP_LOCAL_CMD_CACHE h = None ->
  _get_env_paths h w = (Ok paths, w0) ->
  (forall p c, In p paths -> In c (_get_local_bin_candidates h) ->
               is_no_file (fs w !! candidate_bin h p c) = true) ->
  exists w', _get_usr_parts h w = (Ok None, w') /\ undisturbed w w'.
Proof.
  intros Hfresh Hpaths Habsent.
  rewrite (get_usr_parts_fresh w _ w0 Hfresh Hpaths).
  apply paths_absent; [exact Habsent|].
  apply undisturbed_noted; [exact I|].
  apply undisturbed_noted; [exact I|]. apply undisturbed_refl.
Qed.

(** X3.  What the search comes to when nothing is installed.  With no
    persisted resolution, when at every candidate name in every
    directory of the search path [is_file] answers [False] (there is
    nothing, a directory, or a name whose lookup fails for want of a
    file or directory), resolution finds no installed command: it
    returns [None], starts no process and leaves the files as they are;
    in particular it does not record the failure in the resolution
    file.  When instead the search, having found nothing so far, comes
    to a candidate name that the system refuses to examine (it lies in
    a directory the caller may not search, or is too long), the test
    raises and so does resolution, with that error; again no process is
    started and no file changes. *)
Theorem get_usr_parts_nothing_installed (w w0 : world) (paths : list str) :
  fs w !! TMP_LOCAL_CMD_CACHE h = None ->
  _get_env_paths h w = (Ok paths, w0) ->
  ((forall p c, In p paths -> In c (_get_local_bin_candidates h) ->
                is_no_file (fs w !! candidate_bin h p c) = true) ->
   exists w',
     _get_usr_parts h w = (Ok None, w')
     /\ fs w' = fs w
     /\ spawns (trace w') = spawns (trace w)
     /\ fs w' !! TMP_LOCAL_CMD_CACHE h = None)
  /\ (forall before path after cb cand ca e,
        paths = before ++ path :: after ->
        _get_local_bin_candidates h = cb ++ cand :: ca ->
        (forall p c, In p before -> In c (_get_local_bin_candidates h) ->
                     is_no_file (fs w !! candidate_bin h p c) = true) ->
        (forall c, In c cb ->
                   is_no_file (fs w !! candidate_bin h path c) = true) ->
        stat_errno (fs w !! candidate_bin h path cand) = Some e ->
        _ignore_error e = false ->
        exists w',
          _get_usr_parts h w
          = (Raise (OSError e (candidate_bin h path cand)), w')
          /\ fs w' = fs w
          /\ spawns (trace w') = spawns (trace w)).
Proof.
  intros Hfresh Hpaths. split.
  - intros Habsent.
    destruct (get_usr_parts_absent w w0 paths Hfresh Hpaths Habsent)
      as [w' [Hnone [Hf [_ [Hs _]]]]].
    exists w'. split; [exact Hnone|]. split; [exact Hf|].
    split; [exact Hs|]. now rewrite Hf.
  - intros before path after cb cand ca e -> Hcands Hbefore Hcb Hstat He.
    destruct (usr_search_reaches w w0 before after path cb ca cand
                Hfresh Hpaths Hcands Hbefore Hcb)
      as [w1 [[Hf [_ [Hs _]]] [_ Hraise]]].
    exists (noted (EvIsFile (candidate_bin h path cand)) w1).
    split; [|split].
    + apply Hraise, try_candidate_refused; [now rewrite Hf|exact He].
    + exact Hf.
    + cbn [noted trace]. rewrite spawns_app, Hs. simpl.
      now rewrite app_nil_r.
Qed.

End Search.

(** ** What becomes of a candidate *)

Section Candidates.

Context (h : host).

Lemma write_text_ok (p s : str) (w : world) (data : bytes) :
  writable (fs w !! p) = true ->
  Text.encode (write_newlines h s) = Some data ->
  write_text h p s w
  = (Ok tt, with_fs (<[p := File data (now w)]> (fs w)) (noted (EvWrite p) w)).
Proof.
  intros Hdir Henc. unfold write_text.
  erewrite bind_ok by (apply write_bytes_ok; exact Hdir).
  rewrite Henc. unfold bind, get_fs, get_now, put_fs, with_fs, noted.
  cbn [fs now trace]. now rewrite insert_insert_eq.
Qed.

Lemma check_output_exited (argv : list str) (w : world) code out f' :
  run h argv (fs w) (now w) = Exited code out f' ->
  check_output h argv w
  = (if (code =? 0)%Z then Ok (merged out)
     else Raise (CalledProcessError code),
     with_fs f' (noted (EvSpawn argv) w)).
Proof.
  intros Hrun. unfold check_output.
  erewrite bind_ok by (apply spawn_exited; exact Hrun).
  cbn [returncode chunks]. now destruct (code =? 0)%Z.
Qed.

(** The world once the version query of a candidate has run. *)
Lemma try_candidate_queried (path local_cmd : str) (w : world) :
  is_regular (fs w !! candidate_bin h path local_cmd) = true ->
  let o := run h (version_argv h path local_cmd) (fs w) (now w) in
  let w2 := World (files_after o (fs w)) (now w)
              (trace w ++ [EvIsFile (candidate_bin h path local_cmd);
                           EvSpawn (version_argv h path local_cmd)]) in
  try_candidate h path local_cmd w
  = match o with
    | LaunchFailure _ => (Ok None, w2)
    | Exited code out _ =>
        if (code =? 0)%Z then
          match Text.decode (merged out) with
          | Some text =>
              if match_version h (Text.strip text) then
                (let* _ := mkdir (TMP_DIR h) in
                 let* _ := write_text h (TMP_LOCAL_CMD_CACHE h)
                             (Text.join [10]
                                (candidate_parts h path local_cmd)) in
                 ret (Some (candidate_parts h path local_cmd))) w2
              else (Ok None, w2)
          | None => (Raise UnicodeDecodeError, w2)
          end
        else (Ok None, w2)
    end.
Proof.
  intros Hfile o w2. unfold try_candidate.
  fold (candidate_bin h path local_cmd).
  fold (candidate_parts h path local_cmd).
  fold (version_argv h path local_cmd).
  erewrite bind_ok by (apply is_file_regular, Hfile).
  cbn [negb].
  set (w1 := noted (EvIsFile (candidate_bin h path local_cmd)) w).
  assert (Hw2 : forall f, with_fs f (noted (EvSpawn (version_argv h path
                                                      local_cmd)) w1)
                          = World f (now w)
                              (trace w ++ [EvIsFile (candidate_bin h path
                                                       local_cmd);
                                           EvSpawn (version_argv h path
                                                      local_cmd)])).
  { intros f. unfold w1, with_fs. unfold noted; cbn [fs now trace].
    now rewrite <- app_assoc. }
  unfold w2, o.
  destruct (run h (version_argv h path local_cmd) (fs w) (now w))
    as [e|code out f'] eqn:Hrun; cbn [files_after].
  - erewrite bind_ok.
    2:{ eapply try_except_handled;
          [erewrite bind_raise; [reflexivity|];
           unfold check_output; erewrite bind_raise; [reflexivity|];
           apply spawn_failure; exact Hrun
          |reflexivity]. }
    cbn [negb]. unfold ret, w1. unfold noted; cbn [fs now trace].
    now rewrite <- app_assoc.
  - destruct (code =? 0)%Z eqn:Hcode.
    + destruct (Text.decode (merged out)) as [text|] eqn:Hdec.
      * erewrite bind_ok.
        2:{ apply try_except_ok.
            erewrite bind_ok
              by (rewrite (check_output_exited _ w1 code out f' Hrun), Hcode;
                  reflexivity).
            unfold decode_utf8. rewrite Hdec.
            erewrite bind_ok by reflexivity. reflexivity. }
        rewrite Hw2.
        now destruct (match_version h (Text.strip text)).
      * erewrite bind_raise.
        2:{ eapply try_except_unhandled;
              [erewrite bind_ok
                 by (rewrite (check_output_exited _ w1 code out f' Hrun),
                       Hcode; reflexivity);
               unfold decode_utf8; rewrite Hdec;
               erewrite bind_raise; reflexivity
              |reflexivity]. }
        now rewrite Hw2.
    + erewrite bind_ok.
      2:{ eapply try_except_handled;
            [erewrite bind_raise; [reflexivity|];
             now rewrite (check_output_exited _ w1 code out f' Hrun), Hcode
            |reflexivity]. }
      cbn [negb]. unfold ret. now rewrite Hw2.
Qed.

Lemma try_candidate_accepted (path local_cmd : str) (w : world)
    (out : list (stream * bytes)) (f' : gmap str node) (text : str)
    (data : bytes) :
  is_regular (fs w !! candidate_bin h path local_cmd) = true ->
  run h (version_argv h path local_cmd) (fs w) (now w) = Exited 0 out f' ->
  Text.decode (merged out) = Some text ->
  match_version h (Text.strip text) = true ->
  dir_or_absent (f' !! TMP_DIR h) = true ->
  writable (f' !! TMP_LOCAL_CMD_CACHE h) = true ->
  Text.encode (write_newlines h
                 (Text.join [10] (candidate_parts h path local_cmd)))
  = Some data ->
  try_candidate h path local_cmd w
  = (Ok (Some (candidate_parts h path local_cmd)),
     World (<[TMP_LOCAL_CMD_CACHE h := File data (now w)]>
              (with_dir (TMP_DIR h) (now w) f'))
           (now w)
           (trace w ++ [EvIsFile (candidate_bin h path local_cmd);
                        EvSpawn (version_argv h path local_cmd);
                        EvMkdir (TMP_DIR h);
                        EvWrite (TMP_LOCAL_CMD_CACHE h)])).
Proof.
  intros Hfile Hrun Hdec Hversion Hdir Hcache Henc.
  rewrite (try_candidate_queried path local_cmd w Hfile).
  rewrite Hrun. cbn [files_after Z.eqb]. rewrite Hdec, Hversion.
  erewrite bind_ok by (apply mkdir_ok; exact Hdir).
  erewrite bind_ok.
  2:{ apply write_text_ok; [|exact Henc].
      unfold with_fs, noted; cbn [fs].
      rewrite with_dir_lookup_ne; [exact Hcache|].
      intros E. symmetry in E. revert E. apply joinpath_TMP_DIR_neq. }
  unfold ret, with_fs, noted; cbn [fs now trace].
  now rewrite <- !app_assoc.
Qed.

(** X4.  A candidate found on the search path becomes the resolved
    command when its version query exits with status 0 and prints UTF-8
    text that, trimmed, begins with a version number.  The search takes
    the first such candidate in the order of the search path, then of
    the candidate list (here: at every earlier one [is_file] answers
    [False]), provided the resolution file can be written (the cache
    directory is absent or a directory, the file absent or the
    caller's);
    the only process started is that version query, and the command is
    persisted, one token per line, in the resolution file. *)
Theorem get_usr_parts_search_accepts (w w0 : world)
    (before after : list str) (path : str) (cb ca : list str) (cand : str)
    (out : list (stream * bytes)) (f' : gmap str node) (text : str)
    (data : bytes) :
  fs w !! TMP_LOCAL_CMD_CACHE h = None ->
  _get_env_paths h w = (Ok (before ++ path :: after), w0) ->
  _get_local_bin_candidates h = cb ++ cand :: ca ->
  (forall p c, In p before -> In c (_get_local_bin_candidates h) ->
               is_no_file (fs w !! candidate_bin h p c) = true) ->
  (forall c, In c cb ->
             is_no_file (fs w !! candidate_bin h path c) = true) ->
  is_regular (fs w !! candidate_bin h path cand) = true ->
  run h (version_argv h path cand) (fs w) (now w) = Exited 0 out f' ->
  Text.decode (merged out) = Some text ->
  match_version h (Text.strip text) = true ->
  dir_or_absent (f' !! TMP_DIR h) = true ->
  writable (f' !! TMP_LOCAL_CMD_CACHE h) = true ->
  Text.encode (write_newlines h (Text.join [10] (candidate_parts h path cand)))
  = Some data ->
  exists w',
    _get_usr_parts h w = (Ok (Some (candidate_parts h path cand)), w')
    /\ fs w' = <[TMP_LOCAL_CMD_CACHE h := File data (now w)]>
                 (with_dir (TMP_DIR h) (now w) f')
    /\ spawns (trace w') = spawns (trace w) ++ [version_argv h path cand].
Proof.
  intros Hfresh Hpaths Hcands Hbefore Hcb Hfile Hrun Hdec Hversion
         Hdir Hcache Henc.
  destruct (usr_search_reaches h w w0 before after path cb ca cand
              Hfresh Hpaths Hcands Hbefore Hcb)
    as [w1 [[Hf [Ht [Hs _]]] [Hfound _]]].
  eexists. split.
  - apply Hfound.
    apply (try_candidate_accepted path cand w1 out f' text data);
      rewrite ?Hf, ?Ht; assumption.
  - cbn [fs trace]. rewrite Ht. split; [reflexivity|].
    rewrite spawns_app, Hs. reflexivity.
Qed.

(** X5.  The version query is decoded outside the reach of the
    handlers for a failed launch or exit: when the candidate the search
    comes to exits with status 0 but prints bytes that are not UTF-8,
    the candidate is not passed over; resolution raises
    [UnicodeDecodeError], and so does the render call, before it looks
    at the cache or sweeps it. *)
Theorem tex2html_version_not_utf8 (tex : str) (options : option Options)
    (w w0 : world)
    (before after : list str) (path : str) (cb ca : list str) (cand : str)
    (out : list (stream * bytes)) (f' : gmap str node) :
  fs w !! TMP_LOCAL_CMD_CACHE h = None ->
  _get_env_paths h w = (Ok (before ++ path :: after), w0) ->
  _get_local_bin_candidates h = cb ++ cand :: ca ->
  (forall p c, In p before -> In c (_get_local_bin_candidates h) ->
               is_no_file (fs w !! candidate_bin h p c) = true) ->
  (forall c, In c cb ->
             is_no_file (fs w !! candidate_bin h path c) = true) ->
  is_regular (fs w !! candidate_bin h path cand) = true ->
  run h (version_argv h path cand) (fs w) (now w) = Exited 0 out f' ->
  Text.decode (merged out) = None ->
  exists w',
    _get_usr_parts h w = (Raise UnicodeDecodeError, w')
    /\ tex2html h tex options w = (Raise UnicodeDecodeError, w')
    /\ fs w' = f'
    /\ spawns (trace w') = spawns (trace w) ++ [version_argv h path cand].
Proof.
  intros Hfresh Hpaths Hcands Hbefore Hcb Hfile Hrun Hdec.
  destruct (usr_search_reaches h w w0 before after path cb ca cand
              Hfresh Hpaths Hcands Hbefore Hcb)
    as [w1 [[Hf [Ht [Hs _]]] [_ Hraise]]].
  assert (Hq : try_candidate h path cand w1
               = (Raise UnicodeDecodeError,
                  World f' (now w1)
                    (trace w1 ++ [EvIsFile (candidate_bin h path cand);
                                  EvSpawn (version_argv h path cand)]))).
  { rewrite (try_candidate_queried path cand w1) by (now rewrite Hf).
    rewrite Hf, Ht, Hrun. cbn [files_after Z.eqb]. now rewrite Hdec. }
  pose proof (Hraise _ _ Hq) as Husr.
  eexists. split; [exact Husr|]. split; [|split].
  - unfold tex2html, _iter_cmd_parts, get_bin_cmd.
    erewrite bind_raise; [reflexivity|].
    erewrite bind_raise; [reflexivity|].
    erewrite bind_raise; [reflexivity|]. exact Husr.
  - reflexivity.
  - cbn [trace]. rewrite spawns_app, Hs. reflexivity.
Qed.

(** The events of a search that accepts nothing: probes and version
    queries; no directory is made and no file written. *)
Lemma try_candidate_passes (paths : list str) (path local_cmd : str)
    (w0 w : world) :
  (forall argv f t, rejected h (run h argv f t)) ->
  (forall argv f t, answered h paths f ->
                    answered h paths (files_after (run h argv f t) f)) ->
  In path paths -> In local_cmd (_get_local_bin_candidates h) ->
  answered h paths (fs w)
  /\ (exists evs, trace w = trace w0 ++ evs /\ Forall is_probe evs) ->
  exists w',
    try_candidate h path local_cmd w = (Ok None, w')
    /\ answered h paths (fs w')
    /\ exists evs, trace w' = trace w0 ++ evs /\ Forall is_probe evs.
Proof.
  intros Hrej Hkeep Hpath Hcmd [Hans [evs [Htrace Hevs]]].
  destruct (is_regular (fs w !! candidate_bin h path local_cmd)) eqn:Hfile.
  - rewrite (try_candidate_queried path local_cmd w Hfile).
    pose proof (Hrej (version_argv h path local_cmd) (fs w) (now w)) as Hr.
    pose proof (Hkeep (version_argv h path local_cmd) (fs w) (now w) Hans)
      as Hans'.
    assert (Hout : exists evs',
               trace w ++ [EvIsFile (candidate_bin h path local_cmd);
                           EvSpawn (version_argv h path local_cmd)]
               = trace w0 ++ evs' /\ Forall is_probe evs').
    { exists (evs ++ [EvIsFile (candidate_bin h path local_cmd);
                      EvSpawn (version_argv h path local_cmd)]).
      split; [now rewrite Htrace, <- app_assoc|].
      apply Forall_app. split; [exact Hevs|]. repeat constructor. }
    destruct (run h (version_argv h path local_cmd) (fs w) (now w))
      as [e|code out f'']; cbn [rejected] in Hr; cbn [files_after] in Hans'.
    + eexists. split; [reflexivity|]. split; [exact Hans'|exact Hout].
    + destruct (code =? 0)%Z eqn:Hcode.
      * destruct Hr as [Hne|[text [Hdec Hv]]];
          [apply Z.eqb_eq in Hcode; contradiction|].
        rewrite Hdec, Hv. eexists. split; [reflexivity|].
        split; [exact Hans'|exact Hout].
      * eexists. split; [reflexivity|]. split; [exact Hans'|exact Hout].
  - rewrite (try_candidate_absent h path local_cmd w).
    2:{ unfold is_no_file. rewrite Hfile, (Hans path local_cmd Hpath Hcmd).
        reflexivity. }
    eexists. split; [reflexivity|]. split; [exact Hans|].
    exists (evs ++ [EvIsFile (candidate_bin h path local_cmd)]).
    cbn [noted trace]. split; [now rewrite Htrace, <- app_assoc|].
    apply Forall_app. split; [exact Hevs|]. repeat constructor.
Qed.

(** X6.  On a machine where [is_file] answers at every candidate name
    of the search path, before and after any program has run, and no
    version query is answered acceptably (each cannot be started,
    fails, or prints no version number), resolution without a persisted
    file finds no installed command, and all it does is probe: it reads
    the search path, tests candidate files and starts version queries;
    it makes no directory and writes no file, so the failure is not
    remembered and the next call searches, and asks, again. *)
Theorem get_usr_parts_all_rejected (w w0 : world) (paths : list str) :
  (forall argv f t, rejected h (run h argv f t)) ->
  _get_env_paths h w = (Ok paths, w0) ->
  answered h paths (fs w) ->
  (forall argv f t, answered h paths f ->
                    answered h paths (files_after (run h argv f t) f)) ->
  fs w !! TMP_LOCAL_CMD_CACHE h = None ->
  exists w' evs,
    _get_usr_parts h w = (Ok None, w')
    /\ trace w' = trace w ++ evs
    /\ Forall is_probe evs.
Proof.
  intros Hrej Hpaths Hans Hkeep Hfresh.
  rewrite (get_usr_parts_fresh h w paths _ Hfresh Hpaths).
  set (Inv := fun v : world =>
                answered h paths (fs v)
                /\ exists evs, trace v = trace w ++ evs
                               /\ Forall is_probe evs).
  destruct (first_some_none paths
              (fun path => first_some (_get_local_bin_candidates h)
                                      (try_candidate h path)) Inv)
    with (w := noted EvEnviron
                 (noted (EvExists (TMP_LOCAL_CMD_CACHE h)) w))
    as [w' [Hnone [_ [evs [Htrace Hevs]]]]].
  - intros p v Hp Hv.
    apply (first_some_none (_get_local_bin_candidates h)
             (try_candidate h p) Inv); [|exact Hv].
    intros c u Hc Hu. now apply (try_candidate_passes paths).
  - split; [exact Hans|].
    exists [EvExists (TMP_LOCAL_CMD_CACHE h); EvEnviron].
    cbn [noted trace]. split; [now rewrite <- app_assoc|].
    repeat constructor.
  - now exists w', evs.
Qed.

End Candidates.

(** ** The persisted resolution, written and read back *)

Lemma split_fields_plain (sep : char) (s : str) :
  ~ In sep s -> Text.split_fields sep s = (s, []).
Proof.
  induction s as [|c s IH]; intros Hs; cbn [Text.split_fields].
  - reflexivity.
  - rewrite IH by (intros H; apply Hs; now right).
    destruct (N.eqb_spec c sep) as [->|_]; [|reflexivity].
    exfalso. apply Hs. now left.
Qed.

Lemma split_fields_app (sep : char) (p r : str) :
  ~ In sep p ->
  Text.split_fields sep (p ++ sep :: r) = (p, Text.split sep r).
Proof.
  unfold Text.split.
  induction p as [|c p IH]; intros Hp; cbn [Text.split_fields app].
  - destruct (Text.split_fields sep r) as [f fs'].
    now rewrite N.eqb_refl.
  - rewrite IH by (intros H; apply Hp; now right).
    destruct (N.eqb_spec c sep) as [->|_]; [|reflexivity].
    exfalso. apply Hp. now left.
Qed.

(** [sep.join(parts).split(sep) == parts] for parts free of [sep]. *)
Lemma split_join (sep : char) (parts : list str) :
  parts <> [] -> Forall (fun p => ~ In sep p) parts ->
  Text.split sep (Text.join [sep] parts) = parts.
Proof.
  induction parts as [|p parts IH]; intros Hne Hparts; [easy|].
  apply Forall_cons_iff in Hparts. destruct Hparts as [Hp Hparts].
  destruct parts as [|q parts].
  - cbn [Text.join]. unfold Text.split. now rewrite split_fields_plain.
  - change (Text.join [sep] (p :: q :: parts))
      with (p ++ sep :: Text.join [sep] (q :: parts)).
    unfold Text.split at 1. rewrite split_fields_app by exact Hp.
    now rewrite IH.
Qed.

Lemma in_join (c sep : char) (parts : list str) :
  In c (Text.join [sep] parts) ->
  c = sep \/ exists p, In p parts /\ In c p.
Proof.
  induction parts as [|p parts IH]; [easy|].
  destruct parts as [|q parts].
  - cbn [Text.join]. intros H. right. exists p. split; [now left|exact H].
  - change (Text.join [sep] (p :: q :: parts))
      with (p ++ sep :: Text.join [sep] (q :: parts)).
    rewrite in_app_iff. intros [H|[H|H]].
    + right. exists p. split; [now left|exact H].
    + now left.
    + destruct (IH H) as [?|[p' [Hp' Hc]]]; [now left|].
      right. exists p'. split; [now right|exact Hc].
Qed.

Lemma universal_newlines_other (c : char) (s : str) :
  c <> 13 -> universal_newlines (c :: s) = c :: universal_newlines s.
Proof.
  intros Hc. destruct c as [|p]; [reflexivity|].
  do 4 (destruct p as [p|p|]; try reflexivity). now destruct Hc.
Qed.

Section RoundTrip.

Context (h : host).

(** Text free of carriage returns survives the translation of line ends
    on writing and on reading. *)
Lemma newline_round_trip (s : str) :
  os_linesep h = [10] \/ os_linesep h = [13; 10] ->
  ~ In 13 s ->
  universal_newlines (write_newlines h s) = s.
Proof.
  intros Hsep.
  induction s as [|c s IH]; intros Hs; [reflexivity|].
  change (write_newlines h (c :: s))
    with ((if c =? 10 then os_linesep h else [c]) ++ write_newlines h s).
  assert (IH' : universal_newlines (write_newlines h s) = s)
    by (apply IH; intros H; apply Hs; now right).
  destruct (N.eqb_spec c 10) as [->|Hc].
  - destruct Hsep as [-> | ->].
    + change ([10] ++ ?x) with (10 :: x).
      rewrite universal_newlines_other by easy. now rewrite IH'.
    + change (universal_newlines ([13; 10] ++ ?x))
        with (10 :: universal_newlines x).
      now rewrite IH'.
  - change ([c] ++ ?x) with (c :: x).
    rewrite universal_newlines_other; [now rewrite IH'|].
    intros ->. apply Hs. now left.
Qed.

(** Resolution on a machine whose resolution file decodes to a text
    with a live first line. *)
Lemma get_usr_parts_persisted (w : world) (data : bytes)
    (local_cmd : str) :
  holds (fs w !! TMP_LOCAL_CMD_CACHE h) data ->
  decode_text data = Ok local_cmd ->
  is_present (fs w !! Path h (hd [] (Text.split 10 local_cmd))) = true ->
  exists w',
    _get_usr_parts h w = (Ok (Some (Text.split 10 local_cmd)), w')
    /\ undisturbed w w'.
Proof.
  intros Hfile Hdec Hexe. eexists. split.
  - unfold _get_usr_parts.
    erewrite bind_ok by (apply exists_true, holds_present with data, Hfile).
    erewrite bind_ok.
    2:{ erewrite bind_ok by (eapply read_text_holds; eauto).
        erewrite bind_ok by (apply exists_true; exact Hexe).
        reflexivity. }
    reflexivity.
  - repeat (apply undisturbed_noted; [exact I|]). apply undisturbed_refl.
Qed.

(** X7.  The resolution file round-trips: a command written to it the
    way the search persists one, joined by line feeds in text mode, is
    what the next resolution returns, token for token, provided the
    file can be written (at its name is nothing or a file of the
    caller), no token contains a line feed or a carriage return, the
    text can be encoded and [exists] answers [True] at the path the
    first token names; that resolution changes no file and starts no
    process. *)
Theorem persisted_resolution_round_trip (parts : list str) (w : world)
    (data : bytes) :
  parts <> [] ->
  Forall (fun p => ~ In 10 p /\ ~ In 13 p) parts ->
  os_linesep h = [10] \/ os_linesep h = [13; 10] ->
  writable (fs w !! TMP_LOCAL_CMD_CACHE h) = true ->
  Text.encode (write_newlines h (Text.join [10] parts)) = Some data ->
  is_present (fs w !! Path h (hd [] parts)) = true ->
  exists w1 w2,
    write_text h (TMP_LOCAL_CMD_CACHE h) (Text.join [10] parts) w
    = (Ok tt, w1)
    /\ _get_usr_parts h w1 = (Ok (Some parts), w2)
    /\ fs w2 = fs w1
    /\ spawns (trace w2) = spawns (trace w).
Proof.
  intros Hne Hparts Hsep Hdir Henc Hexe.
  pose proof (write_text_ok h _ _ w data Hdir Henc) as Hwrite.
  set (w1 := with_fs (<[TMP_LOCAL_CMD_CACHE h := File data (now w)]> (fs w))
                     (noted (EvWrite (TMP_LOCAL_CMD_CACHE h)) w)) in *.
  assert (Hsplit : Text.split 10 (Text.join [10] parts) = parts).
  { apply split_join; [exact Hne|].
    apply List.Forall_forall. intros p Hp.
    rewrite List.Forall_forall in Hparts. now apply (Hparts p Hp). }
  assert (Hcr : ~ In 13 (Text.join [10] parts)).
  { intros H. apply in_join in H. destruct H as [H|[p [Hp Hc]]]; [easy|].
    rewrite List.Forall_forall in Hparts. now apply (Hparts p Hp). }
  destruct (get_usr_parts_persisted w1 data (Text.join [10] parts))
    as [w2 [Husr [Hf [_ [Hs _]]]]].
  - unfold w1; cbn [with_fs fs]. exists (now w). left.
    apply lookup_insert_eq.
  - unfold decode_text. rewrite (decode_encode _ _ Henc).
    now rewrite (newline_round_trip _ Hsep Hcr).
  - rewrite Hsplit. unfold w1; cbn [with_fs fs].
    destruct (decide (TMP_LOCAL_CMD_CACHE h = Path h (hd [] parts)))
      as [<-|Hother].
    + now rewrite lookup_insert_eq.
    + now rewrite lookup_insert_ne.
  - exists w1, w2. rewrite Hsplit in Husr.
    split; [exact Hwrite|]. split; [exact Husr|]. split; [exact Hf|].
    rewrite Hs. unfold w1; cbn [with_fs noted trace].
    rewrite spawns_app. simpl. now rewrite app_nil_r.
Qed.

End RoundTrip.

(** ** The order of text *)

Lemma compare_antisym (a : str) :
  forall b, Text.compare b a = CompOpp (Text.compare a b).
Proof.
  induction a as [|x a IH]; intros [|y b]; simpl; try easy.
  rewrite (N.compare_antisym x y).
  destruct (N.compare x y); simpl; auto.
Qed.

Lemma leb_total (a b : str) : Text.leb a b = false -> Text.leb b a = true.
Proof.
  unfold Text.leb. rewrite (compare_antisym a b).
  now destruct (Text.compare a b).
Qed.

Lemma leb_refl_eq (a : str) :
  Text.compare a a = Eq /\ Text.leb a a = true.
Proof.
  unfold Text.leb. induction a as [|x a IH]; simpl; [easy|].
  now rewrite N.compare_refl.
Qed.

Lemma leb_refl (a : str) : Text.leb a a = true.
Proof. apply leb_refl_eq. Qed.

Lemma leb_trans (a : str) :
  forall b c, Text.leb a b = true -> Text.leb b c = true ->
              Text.leb a c = true.
Proof.
  unfold Text.leb.
  induction a as [|x a IH]; intros [|y b] [|z c]; simpl; try easy.
  destruct (N.compare_spec x y), (N.compare_spec y z),
           (N.compare_spec x z); subst; try easy; try lia.
  apply IH.
Qed.

(** [max] of a list that is not empty: one of its elements, and no
    smaller than any. *)
Lemma max_path_spec (ps : list str) :
  forall p,
    In (max_path p ps) (p :: ps)
    /\ forall q, In q (p :: ps) -> Text.leb q (max_path p ps) = true.
Proof.
  unfold max_path.
  induction ps as [|r ps IH]; intros p; cbn [fold_left].
  - split; [now left|]. intros q [<-|[]]. apply leb_refl.
  - destruct (IH (if Text.leb r p then p else r)) as [Hin Hmax].
    split.
    + destruct Hin as [Hin|Hin]; [|now right; right].
      rewrite <- Hin. destruct (Text.leb r p); [now left|now right; left].
    + intros q Hq.
      assert (Hstep : Text.leb q (if Text.leb r p then p else r) = true
                      \/ In q ps).
      { destruct Hq as [Hq|[Hq|Hq]]; [| |now right]; subst q; left.
        - destruct (Text.leb r p) eqn:E; [apply leb_refl|].
          now apply leb_total.
        - destruct (Text.leb r p) eqn:E; [exact E|apply leb_refl]. }
      destruct Hstep as [Hle|Hq'].
      * eapply leb_trans; [exact Hle|]. apply Hmax. now left.
      * apply Hmax. now right.
Qed.

(** A field of [s.split(sep)] occurs in [s]. *)
Lemma split_fields_prefix (sep : char) (s : str) :
  Text.startswith s (Text.split_fields sep s).1 = true.
Proof.
  induction s as [|c s IH]; cbn [Text.split_fields]; [reflexivity|].
  destruct (Text.split_fields sep s) as [f fs'].
  destruct (c =? sep); cbn [fst Text.startswith]; [reflexivity|].
  now rewrite N.eqb_refl.
Qed.

Lemma split_field_contains (sep : char) (s f : str) :
  In f (Text.split sep s) -> Text.contains s f = true.
Proof.
  unfold Text.split. revert f.
  induction s as [|c s IH]; intros f; cbn [Text.split_fields].
  - intros [<-|[]]. reflexivity.
  - pose proof (split_fields_prefix sep s) as Hpre.
    destruct (Text.split_fields sep s) as [f0 fs0]. cbn [fst] in Hpre.
    destruct (c =? sep).
    + intros [<-|Hf].
      * cbn [Text.contains Text.startswith]. reflexivity.
      * cbn [Text.contains]. rewrite (IH f Hf). apply orb_true_r.
    + intros [<-|Hf].
      * cbn [Text.contains Text.startswith]. now rewrite N.eqb_refl, Hpre.
      * cbn [Text.contains]. rewrite (IH f (or_intror Hf)).
        apply orb_true_r.
Qed.

Lemma split_nonempty (sep : char) (s : str) : Text.split sep s <> [].
Proof. unfold Text.split. now destruct (Text.split_fields sep s). Qed.

Section Bundle.

Context (h : host).

(** X8.  The search path is never empty.  It is the entries of [PATH]
    in their order, followed by the fallback directory
    [/usr/local/bin] unless the text of [PATH] contains the text of that
    directory; it is the fallback alone when [PATH] is unset or empty,
    and when the fallback is one of the entries of [PATH] it is not
    searched a second time. *)
Theorem get_env_paths_spec (w : world) :
  exists paths,
    _get_env_paths h w = (Ok paths, noted EvEnviron w)
    /\ paths <> []
    /\ (environ_PATH h = None \/ environ_PATH h = Some [] ->
        paths = [FALLBACK_BIN_DIR h])
    /\ (forall s, environ_PATH h = Some s -> s <> [] ->
          exists rest,
            paths = map (Path h) (Text.split (os_pathsep h) s) ++ rest
            /\ (rest = [] \/ rest = [FALLBACK_BIN_DIR h])
            /\ (In (FALLBACK_BIN_DIR h) (Text.split (os_pathsep h) s) ->
                rest = [])
            /\ (Text.contains s (FALLBACK_BIN_DIR h) = false ->
                rest = [FALLBACK_BIN_DIR h])).
Proof.
  eexists. split; [reflexivity|].
  destruct (environ_PATH h) as [[|c s]|] eqn:Hpath.
  - split; [easy|]. split; [reflexivity|]. intros s [= <-]. easy.
  - split.
    + pose proof (split_nonempty (os_pathsep h) (c :: s)) as Hne.
      destruct (Text.split (os_pathsep h) (c :: s)); easy.
    + split; [intros [|]; easy|].
      intros s' [= <-] _.
      exists (if Text.contains (c :: s) (FALLBACK_BIN_DIR h) then []
              else [FALLBACK_BIN_DIR h]).
      split; [reflexivity|]. split; [|split].
      * destruct (Text.contains (c :: s) (FALLBACK_BIN_DIR h)); auto.
      * intros Hin. now rewrite (split_field_contains _ _ _ Hin).
      * now intros ->.
  - split; [easy|]. split; [reflexivity|]. intros s [=].
Qed.

Lemma glob_infix_spec (dir infix : str) (w : world) :
  exists bin_files,
    glob_infix h dir infix w = (Ok bin_files, noted (EvGlob dir infix) w)
    /\ forall q, In q bin_files
                 <-> is_child h dir q = true /\ is_Some (fs w !! q)
                     /\ Text.contains (path_name h q) infix = true.
Proof.
  eexists. split; [reflexivity|]. intros q. cbn [noted fs].
  rewrite filter_In, <- list_elem_of_In, children_spec. tauto.
Qed.

Lemma get_pkg_bin_path_run (w : world) :
  let w' := noted (EvGlob (PKG_BIN_DIR h) (bundle_infix h)) w in
  (exists p, _get_pkg_bin_path h w = (Ok p, w')
             /\ bundled h (fs w) p
             /\ forall q, bundled h (fs w) q -> Text.leb q p = true)
  \/ (_get_pkg_bin_path h w = (Raise (NotImplementedError pkg_err_msg), w')
      /\ forall q, ~ bundled h (fs w) q).
Proof.
  intros w'.
  destruct (glob_infix_spec (PKG_BIN_DIR h) (bundle_infix h) w)
    as [bin_files [Hglob Hfiles]].
  unfold _get_pkg_bin_path. fold (bundle_infix h).
  erewrite bind_ok by exact Hglob.
  destruct bin_files as [|p ps].
  - right. split; [reflexivity|]. intros q Hq. now apply (Hfiles q).
  - left. exists (max_path p ps). split; [reflexivity|].
    destruct (max_path_spec ps p) as [Hin Hmax]. split.
    + now apply Hfiles.
    + intros q Hq. apply Hmax. now apply Hfiles.
Qed.

(** X9.  [_get_pkg_bin_path] looks at the entries of the package's
    [bin] directory whose name contains [_<machine>-<system>], with
    [AMD64] read as [x86_64].  When there are any it returns one of
    them, the greatest in the order of text; when there is none it
    raises [NotImplementedError].  It changes no file. *)
Theorem get_pkg_bin_path_spec (w : world) :
  (_get_pkg_bin_path h w).2
  = noted (EvGlob (PKG_BIN_DIR h) (bundle_infix h)) w
  /\ match (_get_pkg_bin_path h w).1 with
     | Ok p =>
         bundled h (fs w) p
         /\ forall q, bundled h (fs w) q -> Text.leb q p = true
     | Raise e =>
         e = NotImplementedError pkg_err_msg
         /\ forall q, ~ bundled h (fs w) q
     end.
Proof.
  destruct (get_pkg_bin_path_run w) as [[p [-> H]]|[-> H]]; now split.
Qed.

(** X10.  With nothing persisted and nothing installed on the search
    path ([is_file] answers [False] at every candidate name), the
    resolved command is the bundled binary of the platform, alone: the
    greatest matching entry of the package's [bin] directory; no
    process is started to find it and no file changes. *)
Theorem get_bin_cmd_bundled (w w0 : world) (paths : list str) (b : str) :
  fs w !! TMP_LOCAL_CMD_CACHE h = None ->
  _get_env_paths h w = (Ok paths, w0) ->
  (forall p c, In p paths -> In c (_get_local_bin_candidates h) ->
               is_no_file (fs w !! candidate_bin h p c) = true) ->
  bundled h (fs w) b ->
  exists p w',
    get_bin_cmd h w = (Ok [p], w')
    /\ bundled h (fs w) p
    /\ Text.leb b p = true
    /\ fs w' = fs w
    /\ spawns (trace w') = spawns (trace w).
Proof.
  intros Hfresh Hpaths Habsent Hb.
  destruct (get_usr_parts_absent h w w0 paths Hfresh Hpaths Habsent)
    as [w1 [Hnone [Hf [_ [Hs _]]]]].
  destruct (get_pkg_bin_path_run w1) as [[p [Hpkg [Hp Hmax]]]|[_ Hno]].
  - exists p, (noted (EvGlob (PKG_BIN_DIR h) (bundle_infix h)) w1).
    rewrite Hf in Hp, Hmax. split.
    + unfold get_bin_cmd. erewrite bind_ok by exact Hnone.
      cbv beta iota. erewrite bind_ok by exact Hpkg. reflexivity.
    + split; [exact Hp|]. split; [now apply Hmax|].
      split; [exact Hf|]. cbn [noted trace].
      rewrite spawns_app, Hs. simpl. now rewrite app_nil_r.
  - exfalso. apply (Hno b). now rewrite Hf.
Qed.

(** X11.  With nothing persisted, nothing installed ([is_file] answers
    [False] at every candidate name of the search path) and no bundled
    binary for the platform, the render call raises
    [NotImplementedError] out of command resolution, which stands before
    its [try] block: no process is started, no file is written and the
    cache directory is not swept. *)
Theorem tex2html_no_binary (tex : str) (options : option Options)
    (w w0 : world) (paths : list str) :
  fs w !! TMP_LOCAL_CMD_CACHE h = None ->
  _get_env_paths h w = (Ok paths, w0) ->
  (forall p c, In p paths -> In c (_get_local_bin_candidates h) ->
               is_no_file (fs w !! candidate_bin h p c) = true) ->
  (forall q, ~ bundled h (fs w) q) ->
  exists w' evs,
    tex2html h tex options w
    = (Raise (NotImplementedError pkg_err_msg), w')
    /\ fs w' = fs w
    /\ trace w' = trace w ++ evs
    /\ Forall is_look evs
    /\ spawns (trace w') = spawns (trace w).
Proof.
  intros Hfresh Hpaths Habsent Hno.
  destruct (get_usr_parts_absent h w w0 paths Hfresh Hpaths Habsent)
    as [w1 [Hnone [Hf [Ht [Hs [evs [Htrace Hevs]]]]]]].
  destruct (get_pkg_bin_path_run w1) as [[p [_ [Hp _]]]|[Hpkg _]].
  { exfalso. apply (Hno p). now rewrite <- Hf. }
  exists (noted (EvGlob (PKG_BIN_DIR h) (bundle_infix h)) w1),
         (evs ++ [EvGlob (PKG_BIN_DIR h) (bundle_infix h)]).
  split; [|split; [exact Hf|split; [|split]]].
  - unfold tex2html, _iter_cmd_parts, get_bin_cmd.
    erewrite bind_raise; [reflexivity|].
    erewrite bind_raise; [reflexivity|].
    erewrite bind_ok by exact Hnone. cbv beta iota.
    erewrite bind_raise; [reflexivity|]. exact Hpkg.
  - cbn [noted trace]. now rewrite Htrace, <- app_assoc.
  - apply Forall_app. split; [exact Hevs|]. now repeat constructor.
  - cbn [noted trace]. rewrite spawns_app, Hs. simpl. now rewrite app_nil_r.
Qed.

(** X12.  A resolution file that is not UTF-8 is not repaired: the
    render call raises [UnicodeDecodeError] out of command resolution,
    having done nothing but test for the file and read it; no file
    changes, the search does not run and the cache directory is not
    swept, so the next call meets the same file. *)
Theorem tex2html_corrupt_resolution (tex : str) (options : option Options)
    (w : world) (data : bytes) (mtime : Z) :
  fs w !! TMP_LOCAL_CMD_CACHE h = Some (File data mtime) ->
  Text.decode data = None ->
  tex2html h tex options w
  = (Raise UnicodeDecodeError,
     World (fs w) (now w)
           (trace w ++ [EvExists (TMP_LOCAL_CMD_CACHE h);
                        EvRead (TMP_LOCAL_CMD_CACHE h)])).
Proof.
  intros Hfile Hdec.
  unfold tex2html, _iter_cmd_parts, get_bin_cmd, _get_usr_parts.
  erewrite bind_raise; [reflexivity|].
  erewrite bind_raise; [reflexivity|].
  erewrite bind_raise; [reflexivity|].
  erewrite bind_ok by (eapply exists_file; exact Hfile).
  erewrite bind_raise; [reflexivity|].
  erewrite bind_raise; [reflexivity|].
  unfold read_text.
  erewrite bind_ok by (eapply read_bytes_file; exact Hfile).
  unfold decode_text, lift. rewrite Hdec.
  unfold noted; cbn [fs now trace]. now rewrite <- app_assoc.
Qed.

End Bundle.

(** ** Renders that miss the cache *)

Section Misses.

Context (h : host).

Lemma update_all_raise (cmd_parts : list str) :
  forall hs p, In p cmd_parts -> Text.encode p = None ->
               update_all hs cmd_parts = Raise UnicodeEncodeError.
Proof.
  induction cmd_parts as [|c rest IH]; intros hs p Hin Hp; [easy|].
  cbn [update_all]. unfold encode_utf8.
  destruct (Text.encode c) as [data|] eqn:Hc; [|reflexivity].
  destruct Hin as [->|Hin]; [congruence|]. now apply (IH _ p).
Qed.

Lemma cmd_digest_raise (tex : str) (cmd_parts : list str) :
  Text.encode tex = None
  \/ (exists p, In p cmd_parts /\ Text.encode p = None) ->
  _cmd_digest tex cmd_parts = Raise UnicodeEncodeError.
Proof.
  intros H. unfold _cmd_digest, encode_utf8.
  destruct (Text.encode tex) as [data|] eqn:Htex; [|reflexivity].
  destruct H as [?|[p [Hin Hp]]]; [easy|].
  now rewrite (update_all_raise cmd_parts _ p Hin Hp).
Qed.

(** X13.  A text, or a token of the command, that has no UTF-8
    encoding (it holds a lone surrogate) makes the render call raise
    [UnicodeEncodeError] when the digest is computed, right after the
    command is resolved: the cache is not looked at, nothing is written
    or started, and the sweep, which belongs to the [try] block further
    down, does not run. *)
Theorem tex2html_unencodable (tex : str) (options : option Options)
    (w w1 : world) (parts : list str) :
  _iter_cmd_parts h options w = (Ok parts, w1) ->
  Text.encode tex = None
  \/ (exists p, In p parts /\ Text.encode p = None) ->
  tex2html h tex options w = (Raise UnicodeEncodeError, w1).
Proof.
  intros Hparts Hbad. unfold tex2html.
  erewrite bind_ok by exact Hparts.
  erewrite bind_raise; [reflexivity|].
  unfold lift. now rewrite (cmd_digest_raise tex parts Hbad).
Qed.

Lemma check_exit_zero (tex : str) (said : list (stream * bytes)) :
  check_exit h tex (Process 0 said) = Ok tt.
Proof. reflexivity. Qed.

Lemma check_exit_unknown_signal (tex : str) (code : Z)
    (said : list (stream * bytes)) :
  (code < 0)%Z -> SIG_NAME_BY_NUM h !! Z.abs code = None ->
  check_exit h tex (Process code said) = Raise (KeyError (Z.abs code)).
Proof.
  intros Hneg Hsig. unfold check_exit. cbn [returncode chunks].
  rewrite (proj2 (Z.ltb_lt _ _)) by lia. now rewrite Hsig.
Qed.

(** X14.  When the renderer is ended by a signal whose number has no
    name in [SIG_NAME_BY_NUM] (a real-time signal, say), the look-up of
    the name fails: [_write_tex2html] raises [KeyError] with the
    signal's number, not [KatexError]; the pipes are closed, and the
    input file is as the renderer left it. *)
Theorem write_tex2html_unknown_signal (cmd_parts : list str) (tex out : str)
    (w : world) (input_data : bytes) (code : Z)
    (said : list (stream * bytes)) (f' : gmap str node) :
  let tmp_in := tmp_input_file_of h out in
  let argv := extend_cmd_parts cmd_parts tmp_in out in
  encode_utf8 tex = Ok input_data ->
  dir_or_absent (fs w !! TMP_DIR h) = true ->
  writable (fs w !! tmp_in) = true ->
  run h argv (staged h w tmp_in input_data) (now w) = Exited code said f' ->
  (code < 0)%Z ->
  SIG_NAME_BY_NUM h !! Z.abs code = None ->
  _write_tex2html h cmd_parts tex out w
  = (Raise (KeyError (Z.abs code)),
     World f' (now w)
           (trace w ++ [EvMkdir (TMP_DIR h); EvWrite tmp_in;
                        EvSpawn argv; EvClose])).
Proof.
  intros tmp_in argv Henc Hdir Hin Hrun Hneg Hsig.
  rewrite (write_tex2html_exited h cmd_parts tex out w input_data
             code said f' Henc Hdir Hin Hrun).
  now rewrite (check_exit_unknown_signal tex code said Hneg Hsig).
Qed.

(** The [try] block of the render call on a miss, up to the point where
    a renderer that exited with status 0 has had its input removed. *)
Lemma tex2html_try_rendered parts tex out w input_data said f' d m :
  let tmp_in := tmp_input_file_of h out in
  let argv := extend_cmd_parts parts tmp_in out in
  fs w !! out = None ->
  encode_utf8 tex = Ok input_data ->
  dir_or_absent (fs w !! TMP_DIR h) = true ->
  writable (fs w !! tmp_in) = true ->
  run h argv (staged h w tmp_in input_data) (now w) = Exited 0 said f' ->
  f' !! tmp_in = Some (File d m) ->
  locked h tmp_in = false ->
  tex2html_try h parts tex out w
  = (let* result := read_text out in ret (Text.strip result))
      (World (delete tmp_in f') (now w)
             (trace w ++ [EvExists out; EvMkdir (TMP_DIR h); EvWrite tmp_in;
                          EvSpawn argv; EvClose; EvUnlink tmp_in])).
Proof.
  intros tmp_in argv Hmiss Henc Hdir Hin Hrun Hleft Hfree.
  unfold tex2html_try.
  erewrite bind_ok by (apply exists_false; exact Hmiss).
  erewrite bind_ok.
  2:{ cbv beta iota.
      erewrite (write_tex2html_exited h parts tex out (noted (EvExists out) w)
                  input_data 0 said f');
        [| exact Henc | exact Hdir | exact Hin | exact Hrun].
      rewrite check_exit_zero.
      eapply unlink_ok; [exact Hleft | exact Hfree]. }
  unfold with_fs, noted; cbn [fs now trace].
  now rewrite <- !app_assoc.
Qed.

Lemma spawns_rendered (evs : list event) (out tmp_in : str)
    (argv : list str) :
  spawns (evs ++ [EvExists out; EvMkdir (TMP_DIR h); EvWrite tmp_in;
                  EvSpawn argv; EvClose; EvUnlink tmp_in])
  = spawns evs ++ [argv].
Proof. now rewrite spawns_app. Qed.

(** X15.  A miss that goes well: the cache file is not there, the
    renderer is started once on the command extended by the input and
    output paths, exits with status 0 and leaves its input and a UTF-8
    output file; the call removes the input file, reads the output and
    returns its trimmed text.  After the sweep the input file is gone
    and the output file, unless stale by its own date, is the cache
    entry for the next call. *)
Theorem tex2html_miss_renders (tex : str) (options : option Options)
    (w w1 : world) (parts : list str) (digest : str) (input_data : bytes)
    (said : list (stream * bytes)) (f' : gmap str node)
    (d : bytes) (m : Z) (data : bytes) (mtime : Z) (text : str) (dm : Z) :
  let out := cache_file h digest in
  let tmp_in := tmp_input_file_of h out in
  let argv := extend_cmd_parts parts tmp_in out in
  _iter_cmd_parts h options w = (Ok parts, w1) ->
  _cmd_digest tex parts = Ok digest ->
  fs w1 !! out = None ->
  encode_utf8 tex = Ok input_data ->
  dir_or_absent (fs w1 !! TMP_DIR h) = true ->
  writable (fs w1 !! tmp_in) = true ->
  run h argv (staged h w1 tmp_in input_data) (now w1) = Exited 0 said f' ->
  f' !! tmp_in = Some (File d m) ->
  locked h tmp_in = false ->
  tmp_in <> out ->
  f' !! out = Some (File data mtime) ->
  decode_text data = Ok text ->
  (now w1 - retention <= mtime)%Z ->
  f' !! TMP_DIR h = Some (Dir dm) ->
  sweep_safe h (delete tmp_in f') (now w1) ->
  exists w',
    tex2html h tex options w = (Ok (Text.strip text), w')
    /\ spawns (trace w') = spawns (trace w1) ++ [argv]
    /\ fs w' !! tmp_in = None
    /\ fs w' !! out = Some (File data mtime).
Proof.
  intros out tmp_in argv Hparts Hdigest Hmiss Henc Hdir Hin Hrun Hleft Hfree
         Hne Hout Hdec Hfresh Hdir' Hsafe.
  set (w5 := World (delete tmp_in f') (now w1)
               (trace w1 ++ [EvExists out; EvMkdir (TMP_DIR h);
                             EvWrite tmp_in; EvSpawn argv; EvClose;
                             EvUnlink tmp_in])).
  set (w6 := noted (EvRead out) w5).
  assert (Hbody : tex2html_try h parts tex out w1
                  = (Ok (Text.strip text), w6)).
  { rewrite (tex2html_try_rendered parts tex out w1 input_data said f' d m
               Hmiss Henc Hdir Hin Hrun Hleft Hfree).
    fold tmp_in argv w5.
    erewrite bind_ok; [reflexivity|].
    eapply read_text_file; [|exact Hdec].
    unfold w5; cbn [fs]. rewrite lookup_delete_ne by exact Hne. exact Hout. }
  assert (Hdir6 : fs w6 !! TMP_DIR h = Some (Dir dm)).
  { unfold w6, w5; cbn [noted fs]. rewrite lookup_delete_ne; [exact Hdir'|].
    apply joinpath_TMP_DIR_neq. }
  destruct (cleanup_ok h w6 dm Hdir6 Hsafe) as [w' [Hsweep Hfs]].
  destruct (traced_cleanup_tmp_dir h not_spawn (fun e He => He) w6)
    as [_ [evs [Htrace Hquiet]]].
  rewrite Hsweep in Htrace. cbn [snd] in Htrace.
  exists w'. split; [|split; [|split]].
  - rewrite (tex2html_unfold _ _ _ _ _ _ _ Hparts Hdigest).
    eapply try_finally_ok; [exact Hbody | exact Hsweep].
  - rewrite Htrace, spawns_app, (spawns_quiet evs Hquiet), app_nil_r.
    unfold w6, w5; cbn [noted trace].
    rewrite spawns_app, spawns_rendered. simpl. now rewrite app_nil_r.
  - rewrite Hfs. unfold w6, w5; cbn [noted fs]. rewrite lookup_delete_eq.
    now destruct (is_child h (TMP_DIR h) tmp_in && _).
  - rewrite Hfs. unfold w6, w5; cbn [noted fs now].
    rewrite lookup_delete_ne by exact Hne. rewrite Hout. simpl.
    rewrite (proj2 (Z.ltb_ge _ _)) by lia. now rewrite andb_false_r.
Qed.

(** X16.  A renderer that exits with status 0 without having written
    the output file is not taken at its word twice: the call removes the
    input file, then fails to read the output and raises
    [FileNotFoundError] for the cache path; nothing is cached. *)
Theorem tex2html_output_missing (tex : str) (options : option Options)
    (w w1 : world) (parts : list str) (digest : str) (input_data : bytes)
    (said : list (stream * bytes)) (f' : gmap str node)
    (d : bytes) (m : Z) (dm : Z) :
  let out := cache_file h digest in
  let tmp_in := tmp_input_file_of h out in
  let argv := extend_cmd_parts parts tmp_in out in
  _iter_cmd_parts h options w = (Ok parts, w1) ->
  _cmd_digest tex parts = Ok digest ->
  fs w1 !! out = None ->
  encode_utf8 tex = Ok input_data ->
  dir_or_absent (fs w1 !! TMP_DIR h) = true ->
  writable (fs w1 !! tmp_in) = true ->
  run h argv (staged h w1 tmp_in input_data) (now w1) = Exited 0 said f' ->
  f' !! tmp_in = Some (File d m) ->
  locked h tmp_in = false ->
  f' !! out = None ->
  f' !! TMP_DIR h = Some (Dir dm) ->
  sweep_safe h (delete tmp_in f') (now w1) ->
  exists w',
    tex2html h tex options w = (Raise (OSError FileNotFoundError out), w')
    /\ spawns (trace w') = spawns (trace w1) ++ [argv]
    /\ fs w' !! tmp_in = None
    /\ fs w' !! out = None.
Proof.
  intros out tmp_in argv Hparts Hdigest Hmiss Henc Hdir Hin Hrun Hleft Hfree
         Hout Hdir' Hsafe.
  set (w5 := World (delete tmp_in f') (now w1)
               (trace w1 ++ [EvExists out; EvMkdir (TMP_DIR h);
                             EvWrite tmp_in; EvSpawn argv; EvClose;
                             EvUnlink tmp_in])).
  set (w6 := noted (EvRead out) w5).
  assert (Hgone : fs w5 !! out = None).
  { unfold w5; cbn [fs].
    destruct (decide (tmp_in = out)) as [->|Hne];
      [apply lookup_delete_eq | now rewrite lookup_delete_ne]. }
  assert (Hbody : tex2html_try h parts tex out w1
                  = (Raise (OSError FileNotFoundError out), w6)).
  { rewrite (tex2html_try_rendered parts tex out w1 input_data said f' d m
               Hmiss Henc Hdir Hin Hrun Hleft Hfree).
    fold tmp_in argv w5.
    erewrite bind_raise; [reflexivity|].
    unfold read_text, read_bytes.
    erewrite bind_raise; [reflexivity|].
    erewrite bind_ok by reflexivity.
    erewrite bind_ok by reflexivity.
    cbn [noted fs]. now rewrite Hgone. }
  assert (Hdir6 : fs w6 !! TMP_DIR h = Some (Dir dm)).
  { unfold w6, w5; cbn [noted fs]. rewrite lookup_delete_ne; [exact Hdir'|].
    apply joinpath_TMP_DIR_neq. }
  destruct (cleanup_ok h w6 dm Hdir6 Hsafe) as [w' [Hsweep Hfs]].
  destruct (traced_cleanup_tmp_dir h not_spawn (fun e He => He) w6)
    as [_ [evs [Htrace Hquiet]]].
  rewrite Hsweep in Htrace. cbn [snd] in Htrace.
  exists w'. split; [|split; [|split]].
  - rewrite (tex2html_unfold _ _ _ _ _ _ _ Hparts Hdigest).
    eapply try_finally_ok; [exact Hbody | exact Hsweep].
  - rewrite Htrace, spawns_app, (spawns_quiet evs Hquiet), app_nil_r.
    unfold w6, w5; cbn [noted trace].
    rewrite spawns_app, spawns_rendered. simpl. now rewrite app_nil_r.
  - rewrite Hfs. unfold w6, w5; cbn [noted fs]. rewrite lookup_delete_eq.
    now destruct (is_child h (TMP_DIR h) tmp_in && _).
  - rewrite Hfs. unfold w6; cbn [noted fs]. rewrite Hgone.
    now destruct (is_child h (TMP_DIR h) out && _).
Qed.

(** The sweep makes no system call but its own. *)
Lemma traced_sweep : traced is_sweep (_cleanup_tmp_dir h).
Proof.
  unfold _cleanup_tmp_dir.
  apply traced_bind; [now apply traced_time|]. intros t.
  apply traced_bind; [now apply traced_iterdir|]. intros entries.
  apply traced_for_each. intros p. unfold sweep_entry.
  apply traced_bind; [now apply traced_is_file|]. intros [|].
  - apply traced_bind; [now apply traced_stat_mtime|]. intros m.
    destruct (m <? _)%Z; [now apply traced_unlink | apply traced_ret].
  - apply traced_ret.
Qed.

Lemma staged_dir (w : world) (tmp_in : str) (input_data : bytes) :
  dir_or_absent (fs w !! TMP_DIR h) = true ->
  tmp_in <> TMP_DIR h ->
  exists dm, staged h w tmp_in input_data !! TMP_DIR h = Some (Dir dm).
Proof.
  intros Hdir Hne. unfold staged.
  rewrite lookup_insert_ne by exact Hne. unfold with_dir.
  destruct (fs w !! TMP_DIR h) as [[d m|m|d m|e]|] eqn:E;
    try discriminate.
  - rewrite E. eauto.
  - rewrite lookup_insert_eq. eauto.
Qed.

(** X17.  When the renderer cannot be started, the render call raises
    the error of the launch as it is, an [OSError] and not a
    [KatexError]; there are no pipes to close, and the input file
    written for the renderer is still in the cache directory when the
    call has ended. *)
Theorem tex2html_launch_failure (tex : str) (options : option Options)
    (w w1 : world) (parts : list str) (digest : str) (input_data : bytes)
    (e : os_error) :
  let out := cache_file h digest in
  let tmp_in := tmp_input_file_of h out in
  let argv := extend_cmd_parts parts tmp_in out in
  _iter_cmd_parts h options w = (Ok parts, w1) ->
  _cmd_digest tex parts = Ok digest ->
  fs w1 !! out = None ->
  encode_utf8 tex = Ok input_data ->
  dir_or_absent (fs w1 !! TMP_DIR h) = true ->
  writable (fs w1 !! tmp_in) = true ->
  run h argv (staged h w1 tmp_in input_data) (now w1) = LaunchFailure e ->
  sweep_safe h (staged h w1 tmp_in input_data) (now w1) ->
  exists w' evs,
    tex2html h tex options w = (Raise (OSError e (hd [] argv)), w')
    /\ trace w' = trace w1 ++ [EvExists out; EvMkdir (TMP_DIR h);
                               EvWrite tmp_in; EvSpawn argv] ++ evs
    /\ Forall not_spawn evs /\ ~ In EvClose evs
    /\ fs w' !! tmp_in = Some (File input_data (now w1)).
Proof.
  intros out tmp_in argv Hparts Hdigest Hmiss Henc Hdir Hin Hrun Hsafe.
  set (w4 := World (staged h w1 tmp_in input_data) (now w1)
               (trace w1 ++ [EvExists out; EvMkdir (TMP_DIR h);
                             EvWrite tmp_in; EvSpawn argv])).
  assert (Hbody : tex2html_try h parts tex out w1
                  = (Raise (OSError e (hd [] argv)), w4)).
  { unfold tex2html_try.
    erewrite bind_ok by (apply exists_false; exact Hmiss).
    erewrite bind_raise; [reflexivity|]. cbv beta iota.
    erewrite (write_tex2html_launch_failure h parts tex out
                (noted (EvExists out) w1) input_data e);
      [| exact Henc | exact Hdir | exact Hin | exact Hrun].
    unfold w4, noted; cbn [fs now trace]. now rewrite <- !app_assoc. }
  destruct (staged_dir w1 tmp_in input_data Hdir) as [dm Hdm].
  { apply joinpath_TMP_DIR_neq. }
  destruct (cleanup_ok h w4 dm Hdm Hsafe) as [w' [Hsweep Hfs]].
  destruct (traced_sweep w4) as [_ [evs [Htrace Hquiet]]].
  rewrite Hsweep in Htrace. cbn [snd] in Htrace.
  exists w', evs. split; [|split; [|split; [|split]]].
  - rewrite (tex2html_unfold _ _ _ _ _ _ _ Hparts Hdigest).
    eapply try_finally_ok; [exact Hbody | exact Hsweep].
  - rewrite Htrace. unfold w4; cbn [trace]. now rewrite <- app_assoc.
  - eapply List.Forall_impl; [|exact Hquiet]. now intros [].
  - intros Hin'. rewrite List.Forall_forall in Hquiet.
    exact (Hquiet _ Hin').
  - rewrite Hfs. unfold w4; cbn [fs now]. unfold staged.
    rewrite lookup_insert_eq. simpl.
    rewrite (proj2 (Z.ltb_ge _ _)) by (unfold retention; lia).
    now rewrite andb_false_r.
Qed.

End Misses.

(** ** The sweep, from outside *)

Section Sweeps.

Context (h : host).

Lemma cleanup_no_dir (w : world) :
  fs w !! TMP_DIR h = None ->
  (_cleanup_tmp_dir h w).1 = Raise (OSError FileNotFoundError (TMP_DIR h)).
Proof.
  intros Hdir. destruct (cleanup_no_listing h w) as [e [-> He]].
  - intros m. now rewrite Hdir.
  - rewrite Hdir in He. now subst e.
Qed.

Lemma cleanup_not_dir (w : world) :
  is_regular (fs w !! TMP_DIR h) = true ->
  (_cleanup_tmp_dir h w).1 = Raise (OSError NotADirectoryError (TMP_DIR h)).
Proof.
  intros Hdir. destruct (cleanup_no_listing h w) as [e [-> He]].
  - intros m E. now rewrite E in Hdir.
  - destruct (fs w !! TMP_DIR h) as [[d m|m|d m|e']|];
      try discriminate; now subst e.
Qed.

Lemma cleanup_denied (w : world) (e : os_error) :
  fs w !! TMP_DIR h = Some (Denied e) ->
  (_cleanup_tmp_dir h w).1 = Raise (OSError e (TMP_DIR h)).
Proof.
  intros Hdir. destruct (cleanup_no_listing h w) as [e' [-> He]].
  - intros m. now rewrite Hdir.
  - rewrite Hdir in He. now subst e'.
Qed.

(** Either some entry resists, or none does. *)
Lemma sweep_safe_dec (w : world) :
  sweep_safe h (fs w) (now w)
  \/ exists p e, is_child h (TMP_DIR h) p = true
                 /\ resists h (fs w) (now w) p e.
Proof.
  set (bad := fun p => negb (examinable (fs w !! p))
                       || (stale (now w - retention) (fs w !! p)
                           && locked h p)).
  destruct (existsb bad (children h (TMP_DIR h) (fs w))) eqn:E.
  - right. apply existsb_exists in E. destruct E as [p [Hp Hbad]].
    apply list_elem_of_In, children_spec in Hp. destruct Hp as [Hc _].
    unfold bad in Hbad. apply orb_true_iff in Hbad.
    destruct Hbad as [Hex|Hsl].
    + apply negb_true_iff in Hex.
      destruct (not_examinable _ Hex) as [e [_ [Hn Hi]]].
      exists p, e. split; [exact Hc|]. now left.
    + apply andb_true_iff in Hsl. destruct Hsl as [Hs Hl].
      exists p, PermissionError. split; [exact Hc|]. now right.
  - left. intros p Hc.
    destruct (fs w !! p) as [n|] eqn:Hp; [|now split].
    assert (Hin : In p (children h (TMP_DIR h) (fs w))).
    { apply list_elem_of_In, children_spec. rewrite Hp. eauto. }
    assert (Hgood : bad p = false).
    { destruct (bad p) eqn:Hb; [|reflexivity].
      assert (existsb bad (children h (TMP_DIR h) (fs w)) = true)
        by (apply existsb_exists; eauto).
      congruence. }
    unfold bad in Hgood. rewrite Hp in Hgood.
    apply orb_false_iff in Hgood. destruct Hgood as [Hex Hsl].
    apply negb_false_iff in Hex. split; [exact Hex|].
    intros Hs. rewrite Hs in Hsl. exact Hsl.
Qed.

(** A sweep that returned found a directory and nothing that resists,
    and deleted the stale entries. *)
Lemma cleanup_ok_inv (w w1 : world) :
  _cleanup_tmp_dir h w = (Ok tt, w1) ->
  (exists m, fs w !! TMP_DIR h = Some (Dir m))
  /\ sweep_safe h (fs w) (now w)
  /\ now w1 = now w
  /\ forall q, fs w1 !! q
               = if is_child h (TMP_DIR h) q
                    && stale (now w - retention) (fs w !! q)
                 then None else fs w !! q.
Proof.
  intros Hfirst.
  destruct (fs w !! TMP_DIR h) as [[d m|m|d m|e]|] eqn:Hdir.
  2:{ destruct (sweep_safe_dec w) as [Hsafe|Hres].
      2:{ destruct (cleanup_stops h w m Hdir Hres) as [q [e [w' [E _]]]].
          rewrite Hfirst in E. discriminate. }
      destruct (cleanup_ok h w m Hdir Hsafe) as [w' [E Hfs]].
      rewrite Hfirst in E. injection E as <-.
      destruct (traced_cleanup_tmp_dir h not_spawn (fun e He => He) w)
        as [Hnow _].
      rewrite Hfirst in Hnow. eauto. }
  all: exfalso; destruct (cleanup_no_listing h w) as [e' [E _]];
    [intros m'; rewrite Hdir; discriminate
    |rewrite Hfirst in E; discriminate].
Qed.

(** X18.  How the sweep ends.  It returns exactly when the cache
    directory is a directory, each of its entries can be examined and
    none of the stale ones resists removal.  Otherwise it raises
    [FileNotFoundError] when the directory is missing,
    [NotADirectoryError] when a regular file stands in its place, the
    error of the system when the directory cannot be examined, and else
    the error of the first examination or removal that fails. *)
Theorem cleanup_tmp_dir_outcome (w : world) :
  match (_cleanup_tmp_dir h w).1 with
  | Ok _ =>
      (exists m, fs w !! TMP_DIR h = Some (Dir m))
      /\ sweep_safe h (fs w) (now w)
  | Raise e =>
      (fs w !! TMP_DIR h = None
       /\ e = OSError FileNotFoundError (TMP_DIR h))
      \/ (is_regular (fs w !! TMP_DIR h) = true
          /\ e = OSError NotADirectoryError (TMP_DIR h))
      \/ (exists e', fs w !! TMP_DIR h = Some (Denied e')
                     /\ e = OSError e' (TMP_DIR h))
      \/ (exists m q e', fs w !! TMP_DIR h = Some (Dir m)
                         /\ e = OSError e' q
                         /\ is_child h (TMP_DIR h) q = true
                         /\ resists h (fs w) (now w) q e')
  end.
Proof.
  destruct (fs w !! TMP_DIR h) as [[d m|m|d m|e]|] eqn:Hdir.
  - rewrite cleanup_not_dir by now rewrite Hdir. right. left. eauto.
  - destruct (sweep_safe_dec w) as [Hsafe|Hres].
    + destruct (cleanup_ok h w m Hdir Hsafe) as [w' [-> _]].
      cbn [fst]. eauto.
    + destruct (cleanup_stops h w m Hdir Hres)
        as [q [e [w' [-> [Hc Hq]]]]].
      cbn [fst]. right. right. right. exists m, q, e. auto.
  - rewrite cleanup_not_dir by now rewrite Hdir. right. left. eauto.
  - rewrite (cleanup_denied w e Hdir). right. right. left. eauto.
  - rewrite (cleanup_no_dir w Hdir). now left.
Qed.

(** X19.  What a sweep that returned has left, a later sweep leaves
    alone until the clock makes it stale.  With the files as the first
    sweep left them and the clock at any reading [t], whatever the
    second sweep removes is an entry that is stale at [t] and was not
    at the time of the first; when no entry has become stale, which is
    so while the clock has not moved on, the second sweep returns and
    changes no file.  (The sweep reads the clock anew at every call, so
    an entry just inside the window at the first sweep goes at a later
    one.) *)
Theorem cleanup_tmp_dir_second_sweep (w w1 : world) (t : Z) :
  _cleanup_tmp_dir h w = (Ok tt, w1) ->
  let v := World (fs w1) t (trace w1) in
  (forall p, fs (_cleanup_tmp_dir h v).2 !! p = fs w1 !! p
             \/ (fs (_cleanup_tmp_dir h v).2 !! p = None
                 /\ is_child h (TMP_DIR h) p = true
                 /\ stale (t - retention) (fs w1 !! p) = true
                 /\ stale (now w - retention) (fs w1 !! p) = false))
  /\ ((forall p, is_child h (TMP_DIR h) p = true ->
                 stale (t - retention) (fs w1 !! p) = false) ->
      exists v', _cleanup_tmp_dir h v = (Ok tt, v') /\ fs v' = fs w1)
  /\ ((t <= now w)%Z ->
      forall p, is_child h (TMP_DIR h) p = true ->
                stale (t - retention) (fs w1 !! p) = false).
Proof.
  intros Hfirst v.
  destruct (cleanup_ok_inv w w1 Hfirst) as [[m Hdir] [Hsafe [Hnow Hfs]]].
  assert (Hfresh : forall q, is_child h (TMP_DIR h) q = true ->
                             stale (now w - retention) (fs w1 !! q) = false).
  { intros q Hc. rewrite Hfs, Hc. cbn [andb].
    now destruct (stale (now w - retention) (fs w !! q)) eqn:Hs. }
  split; [|split].
  - intros p. destruct (cleanup_frame h v p) as [Hp|[Hp [Hc Hs]]];
      [now left|right].
    cbn [fs now v] in *. auto.
  - intros Hnone.
    assert (Hdir1 : fs v !! TMP_DIR h = Some (Dir m)).
    { cbn [fs v]. rewrite Hfs, Hdir. simpl. now rewrite andb_false_r. }
    destruct (cleanup_ok h v m Hdir1) as [v' [Hsecond Hfs2]].
    { intros q Hc. cbn [fs now v]. split.
      - rewrite Hfs, Hc. cbn [andb].
        destruct (stale (now w - retention) (fs w !! q)); [reflexivity|].
        now apply Hsafe.
      - intros Hs. rewrite (Hnone q Hc) in Hs. discriminate. }
    exists v'. split; [exact Hsecond|].
    apply map_eq. intros q. rewrite Hfs2. cbn [fs now v].
    destruct (is_child h (TMP_DIR h) q) eqn:Hc; [|reflexivity].
    now rewrite (Hnone q Hc).
  - intros Hle p Hc. pose proof (Hfresh p Hc) as Hf.
    destruct (fs w1 !! p) as [[d m'|m'|d m'|e]|]; cbn [stale] in *;
      try reflexivity; apply Z.ltb_ge; apply Z.ltb_ge in Hf; lia.
Qed.

End Sweeps.

(** ** The table of signal names *)

Lemma compare_lt_trans (a : str) :
  forall b c, Text.compare a b = Lt -> Text.compare b c = Lt ->
              Text.compare a c = Lt.
Proof.
  induction a as [|x a IH]; intros [|y b] [|z c]; simpl; try easy.
  destruct (N.compare_spec x y), (N.compare_spec y z),
           (N.compare_spec x z); subst; try easy; try lia.
  apply IH.
Qed.

Lemma item_leb_spec (a b : str * Z) :
  item_leb a b = true
  <-> Text.compare a.1 b.1 = Lt \/ (a.1 = b.1 /\ (a.2 <= b.2)%Z).
Proof.
  unfold item_leb. destruct (Text.compare a.1 b.1) eqn:E.
  - apply compare_eq in E. rewrite Z.leb_le. split; [now right|].
    now intros [|[_ ?]].
  - split; [now left|easy].
  - split; [easy|]. intros [|[E' _]]; [easy|].
    rewrite E' in E. rewrite (proj1 (leb_refl_eq b.1)) in E. discriminate.
Qed.

Lemma item_leb_total (a b : str * Z) :
  item_leb a b = false -> item_leb b a = true.
Proof.
  intros H. apply item_leb_spec.
  unfold item_leb in H. rewrite (compare_antisym a.1 b.1).
  destruct (Text.compare a.1 b.1) eqn:E; try discriminate.
  - right. apply compare_eq in E. split; [easy|].
    apply Z.leb_gt in H. lia.
  - now left.
Qed.

Lemma item_leb_trans (a b c : str * Z) :
  item_leb a b = true -> item_leb b c = true -> item_leb a c = true.
Proof.
  rewrite !item_leb_spec.
  intros [Hab|[Eab Hab]] [Hbc|[Ebc Hbc]].
  - left. eapply compare_lt_trans; eauto.
  - left. now rewrite <- Ebc.
  - left. now rewrite Eab.
  - right. split; [congruence|lia].
Qed.

(** [sorted(..., reverse=True)] is in descending order. *)
Lemma insert_desc_sorted (x : str * Z) (l : list (str * Z)) :
  StronglySorted (fun a b => item_leb b a = true) l ->
  StronglySorted (fun a b => item_leb b a = true) (insert_desc x l).
Proof.
  induction 1 as [|y l Hsorted IH Hall]; cbn [insert_desc].
  - repeat constructor.
  - destruct (item_leb y x) eqn:E.
    + constructor; [now constructor|].
      constructor; [exact E|].
      eapply List.Forall_impl; [|exact Hall].
      intros z Hz. now apply (item_leb_trans z y x).
    + constructor; [exact IH|].
      apply List.Forall_forall. intros z Hz.
      apply insert_desc_In in Hz. destruct Hz as [->|Hz].
      * now apply item_leb_total.
      * rewrite List.Forall_forall in Hall. now apply Hall.
Qed.

Lemma sorted_reverse_sorted (l : list (str * Z)) :
  StronglySorted (fun a b => item_leb b a = true) (sorted_reverse l).
Proof.
  induction l as [|x l IH]; cbn [sorted_reverse fold_right].
  - constructor.
  - now apply insert_desc_sorted.
Qed.

(** The dictionary comprehension over a list in descending order: a
    number ends up with the least of its signal names. *)
Lemma fold_names_sorted (l : list (str * Z)) :
  StronglySorted (fun a b => item_leb b a = true) l ->
  forall (d : gmap Z str) (k : Z),
    match fold_left (fun d item => if is_signal_name item.1
                                   then <[item.2 := item.1]> d else d) l d
          !! k with
    | Some n =>
        (d !! k = Some n
         /\ forall n', In (n', k) l -> is_signal_name n' = false)
        \/ (In (n, k) l /\ is_signal_name n = true
            /\ forall n', In (n', k) l -> is_signal_name n' = true ->
                          Text.leb n n' = true)
    | None =>
        d !! k = None
        /\ forall n', In (n', k) l -> is_signal_name n' = false
    end.
Proof.
  induction 1 as [|[name num] l Hsorted IH Hall]; intros d k;
    cbn [fold_left fst snd].
  - destruct (d !! k); [left|]; (split; [reflexivity|now intros ? []]).
  - set (d' := if is_signal_name name then <[num := name]> d else d).
    specialize (IH d' k).
    destruct (fold_left _ l d' !! k) as [n|].
    + destruct IH as [[Hd' Hnone]|[Hin [Hq Hmin]]].
      * unfold d' in Hd'. destruct (is_signal_name name) eqn:Hq.
        -- destruct (decide (num = k)) as [->|Hne].
           ++ rewrite lookup_insert_eq in Hd'. injection Hd' as <-.
              right. split; [now left|]. split; [exact Hq|].
              intros n' [[= <-]|Hin] Hq'; [apply leb_refl|].
              rewrite (Hnone n' Hin) in Hq'. discriminate.
           ++ rewrite lookup_insert_ne in Hd' by exact Hne.
              left. split; [exact Hd'|].
              intros n' [[= _ E]|Hin]; [contradiction|now apply Hnone].
        -- left. split; [exact Hd'|].
           intros n' [[= <- _]|Hin]; [exact Hq|now apply Hnone].
      * right. split; [now right|]. split; [exact Hq|].
        intros n' [[= <- <-]|Hin'] Hq'; [|now apply Hmin].
        rewrite List.Forall_forall in Hall.
        pose proof (Hall _ Hin) as Hle. apply item_leb_spec in Hle.
        cbn [fst snd] in Hle. unfold Text.leb.
        destruct Hle as [->|[-> _]]; [easy|].
        now rewrite (proj1 (leb_refl_eq name)).
    + destruct IH as [Hd' Hnone]. unfold d' in Hd'.
      destruct (is_signal_name name) eqn:Hq.
      * destruct (decide (num = k)) as [->|Hne].
        -- now rewrite lookup_insert_eq in Hd'.
        -- rewrite lookup_insert_ne in Hd' by exact Hne.
           split; [exact Hd'|].
           intros n' [[= _ E]|Hin]; [contradiction|now apply Hnone].
      * split; [exact Hd'|].
        intros n' [[= <- _]|Hin]; [exact Hq|now apply Hnone].
Qed.

Section SignalTable.

Context (h : host).

(** X20.  [SIG_NAME_BY_NUM] knows a number exactly when the [signal]
    module has a name for it that begins with [SIG] and not with
    [SIG_], and maps it to the first of these names in the order of
    text: of aliases for one number ([SIGABRT] and [SIGIOT], say) the
    one that sorts first is kept. *)
Theorem sig_name_by_num_spec (k : Z) :
  match SIG_NAME_BY_NUM h !! k with
  | Some n =>
      In (n, k) (signal_dict h) /\ is_signal_name n = true
      /\ forall n', In (n', k) (signal_dict h) ->
                    is_signal_name n' = true -> Text.leb n n' = true
  | None =>
      forall n', In (n', k) (signal_dict h) -> is_signal_name n' = false
  end.
Proof.
  unfold SIG_NAME_BY_NUM.
  pose proof (fold_names_sorted _ (sorted_reverse_sorted (signal_dict h))
                ∅ k) as H.
  destruct (fold_left _ (sorted_reverse (signal_dict h)) ∅ !! k) as [n|].
  - destruct H as [[Hd _]|[Hin [Hq Hmin]]]; [now rewrite lookup_empty in Hd|].
    split; [now apply sorted_reverse_In|]. split; [exact Hq|].
    intros n' Hin'. apply Hmin. now apply sorted_reverse_In.
  - destruct H as [_ Hnone]. intros n' Hin'. apply Hnone.
    now apply sorted_reverse_In.
Qed.

End SignalTable.

(** ** A renderer ended by a signal *)


Section Signalled.

Context (h : host).



End Signalled.

(** ** Dictionaries *)

Lemma eqb_refl (a : str) : Text.eqb a a = true.
Proof. unfold Text.eqb. now rewrite (proj1 (leb_refl_eq a)). Qed.

Lemma eqb_neq (a b : str) : a <> b -> Text.eqb a b = false.
Proof.
  intros Hne. destruct (Text.eqb a b) eqn:E; [|reflexivity].
  now apply eqb_eq in E.
Qed.

Lemma dict_set_In {V} (k k' : str) (v v' : V) (d : dict V) :
  In (k, v) (dict_set k' v' d) -> (k = k' /\ v = v') \/ In (k, v) d.
Proof.
  induction d as [|[k0 v0] d IH]; cbn [dict_set].
  - intros [[= <- <-]|[]]. now left.
  - destruct (Text.eqb k0 k') eqn:E.
    + apply eqb_eq in E. subst k0.
      intros [[= <- <-]|H]; [now left|right; now right].
    + intros [H|H]; [right; now left|].
      destruct (IH H) as [?|?]; [now left|right; now right].
Qed.

Lemma dict_set_keys {V} (k : str) (v : V) (d : dict V) (k0 : str) :
  In k0 (map fst (dict_set k v d)) -> k0 = k \/ In k0 (map fst d).
Proof.
  induction d as [|[k1 v1] d IH]; cbn [dict_set map fst].
  - intros [<-|[]]. now left.
  - destruct (Text.eqb k1 k); cbn [map fst].
    + intros [<-|H]; right; [now left|now right].
    + intros [<-|H]; [right; now left|].
      destruct (IH H) as [?|?]; [now left|right; now right].
Qed.

Lemma dict_set_NoDup {V} (k : str) (v : V) (d : dict V) :
  List.NoDup (map fst d) -> List.NoDup (map fst (dict_set k v d)).
Proof.
  induction d as [|[k1 v1] d IH]; cbn [dict_set map fst]; intros Hd.
  - apply List.NoDup_cons; [intros []|constructor].
  - apply List.NoDup_cons_iff in Hd. destruct Hd as [Hk1 Hd].
    destruct (Text.eqb k1 k) eqn:E; cbn [map fst].
    + now apply List.NoDup_cons.
    + apply List.NoDup_cons; [|now apply IH].
      intros H. apply dict_set_keys in H. destruct H as [->|H]; [|easy].
      now rewrite eqb_refl in E.
Qed.

Lemma dict_set_fresh {V} (k : str) (v : V) (d : dict V) :
  ~ In k (map fst d) -> dict_set k v d = d ++ [(k, v)].
Proof.
  induction d as [|[k1 v1] d IH]; cbn [dict_set map fst app]; intros Hk.
  - reflexivity.
  - rewrite eqb_neq by (intros ->; apply Hk; now left).
    f_equal. apply IH. intros H. apply Hk. now right.
Qed.

Lemma dict_pop_In {V} (r : str) (d : dict V) (k : str) (v : V) :
  In (k, v) (dict_pop r d) <-> In (k, v) d /\ k <> r.
Proof.
  unfold dict_pop. rewrite filter_In. cbn [fst]. split.
  - intros [Hin Hne]. split; [exact Hin|]. intros ->.
    now rewrite eqb_refl in Hne.
  - intros [Hin Hne]. split; [exact Hin|]. now rewrite eqb_neq.
Qed.

Lemma dict_pop_NoDup {V} (r : str) (d : dict V) :
  List.NoDup (map fst d) -> List.NoDup (map fst (dict_pop r d)).
Proof.
  unfold dict_pop.
  induction d as [|[k v] d IH]; cbn [List.filter map fst]; intros Hd.
  - constructor.
  - apply List.NoDup_cons_iff in Hd. destruct Hd as [Hk Hd].
    destruct (negb (Text.eqb k r)); cbn [map fst]; [|now apply IH].
    apply List.NoDup_cons; [|now apply IH].
    intros H. apply Hk. apply in_map_iff in H.
    destruct H as [[k' v'] [E H]]. cbn [fst] in E. subst k'.
    apply filter_In in H. apply in_map_iff. exists (k, v'). now split.
Qed.

(** A dictionary entered into an empty one key by key is itself. *)
Lemma dict_update_app {V} (other : dict V) :
  forall d, List.NoDup (map fst (d ++ other)) ->
            dict_update d other = d ++ other.
Proof.
  unfold dict_update.
  induction other as [|[k v] other IH]; intros d Hd; cbn [fold_left fst snd].
  - now rewrite app_nil_r.
  - rewrite dict_set_fresh.
    + rewrite IH; rewrite <- app_assoc; [reflexivity|exact Hd].
    + rewrite map_app in Hd. cbn [map fst] in Hd.
      apply List.NoDup_remove_2 in Hd. intros H. apply Hd.
      apply in_or_app. now left.
Qed.

Lemma dict_update_nil {V} (d : dict V) :
  List.NoDup (map fst d) -> dict_update [] d = d.
Proof. intros Hd. now apply (dict_update_app d []). Qed.

(** ** What a match captures *)

Lemma many_greedy_inv {A} (p : char -> bool) (min : nat) (s : str) :
  forall (n : nat) (k : str -> option A) (a : A),
    Re.many_greedy p min n s k = Some a ->
    exists taken rest,
      s = taken ++ rest /\ forallb p taken = true
      /\ (min <= n + List.length taken)%nat /\ k rest = Some a.
Proof.
  induction s as [|c s IH]; intros n k a; cbn [Re.many_greedy].
  - destruct (Nat.leb min n) eqn:E; [|discriminate].
    intros H. exists [], []. apply Nat.leb_le in E.
    repeat split; [simpl; lia | exact H].
  - assert (Hstop : (if Nat.leb min n then k (c :: s) else None) = Some a ->
                    exists taken rest,
                      c :: s = taken ++ rest /\ forallb p taken = true
                      /\ (min <= n + List.length taken)%nat
                      /\ k rest = Some a).
    { destruct (Nat.leb min n) eqn:E; [|discriminate].
      intros H. exists [], (c :: s). apply Nat.leb_le in E.
      repeat split; [simpl; lia | exact H]. }
    destruct (p c) eqn:Hc; [|exact Hstop].
    destruct (Re.many_greedy p min (S n) s k) as [a'|] eqn:Hmore;
      [|exact Hstop].
    intros [= <-].
    destruct (IH _ _ _ Hmore) as [taken [rest [-> [Hp [Hlen Hk]]]]].
    exists (c :: taken), rest. cbn [forallb List.length app].
    rewrite Hc, Hp. repeat split; [lia | exact Hk].
Qed.

Lemma many_lazy_inv {A} (p : char -> bool) (min : nat) (s : str) :
  forall (n : nat) (k : str -> option A) (a : A),
    Re.many_lazy p min n s k = Some a ->
    exists taken rest,
      s = taken ++ rest /\ forallb p taken = true
      /\ (min <= n + List.length taken)%nat /\ k rest = Some a.
Proof.
  induction s as [|c s IH]; intros n k a; cbn [Re.many_lazy].
  - destruct (Nat.leb min n) eqn:E; [|discriminate].
    destruct (k []) as [a'|] eqn:Hk; [|discriminate].
    intros [= <-]. exists [], []. apply Nat.leb_le in E.
    repeat split; [simpl; lia | exact Hk].
  - destruct (if Nat.leb min n then k (c :: s) else None) as [a'|] eqn:Hnow.
    + intros [= <-]. destruct (Nat.leb min n) eqn:E; [|discriminate].
      exists [], (c :: s). apply Nat.leb_le in E.
      repeat split; [simpl; lia | exact Hnow].
    + destruct (p c) eqn:Hc; [|discriminate]. intros Hmore.
      destruct (IH _ _ _ Hmore) as [taken [rest [-> [Hp [Hlen Hk]]]]].
      exists (c :: taken), rest. cbn [forallb List.length app].
      rewrite Hc, Hp. repeat split; [lia | exact Hk].
Qed.

(** A part of a pattern without a group of some name leaves what that
    name has captured as it is. *)
Lemma exec_keeps_group {A} (name : string) (r : Re.regex) :
  Re.has_group name r = false ->
  forall (s : str) (caps : Re.captures)
         (k : str -> Re.captures -> option A) (a : A),
    Re.exec r s caps k = Some a ->
    exists rest caps',
      k rest caps' = Some a /\ Re.group name caps' = Re.group name caps.
Proof.
  induction r as [t|p min greedy|r IH|r1 IH1 r2 IH2|n r IH];
    cbn [Re.has_group Re.exec]; intros Hno s caps k a.
  - destruct (Text.startswith s t); [|discriminate]. eauto.
  - destruct greedy; intros H.
    + destruct (many_greedy_inv _ _ _ _ _ _ H) as [_ [rest [_ [_ [_ Hk]]]]].
      eauto.
    + destruct (many_lazy_inv _ _ _ _ _ _ H) as [_ [rest [_ [_ [_ Hk]]]]].
      eauto.
  - destruct (Re.exec r s caps k) as [a'|] eqn:E.
    + intros [= <-]. now apply (IH Hno s caps k).
    + eauto.
  - apply orb_false_iff in Hno. destruct Hno as [Hno1 Hno2]. intros H.
    destruct (IH1 Hno1 _ _ _ _ H) as [rest [caps' [H2 Hg1]]].
    destruct (IH2 Hno2 _ _ _ _ H2) as [rest' [caps'' [Hk Hg2]]].
    exists rest', caps''. split; [exact Hk|congruence].
  - apply orb_false_iff in Hno. destruct Hno as [Hn Hno]. intros H.
    destruct (IH Hno _ _ _ _ H) as [rest [caps' [Hk Hg]]].
    exists rest, ((n, firstn (List.length s - List.length rest) s) :: caps').
    split; [exact Hk|]. cbn [Re.group]. now rewrite Hn.
Qed.

Lemma finditer_from_In (r : Re.regex) (m : Re.captures) (s : str) :
  forall skip,
    In m (Re.finditer_from r skip s) ->
    exists s' rest, Re.match_at r s' = Some (rest, m).
Proof.
  induction s as [|c s IH]; intros [|n]; cbn [Re.finditer_from].
  - destruct (Re.match_at r []) as [[rest caps]|] eqn:E; [|easy].
    intros [<-|[]]. eauto.
  - easy.
  - destruct (Re.match_at r (c :: s)) as [[rest caps]|] eqn:E.
    + intros [<-|H]; [eauto|]. now apply (IH _ H).
    + apply IH.
  - apply IH.
Qed.

(** A pattern that opens with a literal and a named greedy run: the
    name captures characters of the run's class, at least [min]. *)
Lemma named_run_capture (t : str) (name : string) (p : char -> bool)
    (min : nat) (tail : Re.regex) (s rest : str) (m : Re.captures) :
  Re.has_group name tail = false ->
  Re.match_at
    (Re.Cat (Re.Lit t) (Re.Cat (Re.Group name (Re.Many p min true)) tail)) s
  = Some (rest, m) ->
  forallb p (Re.group name m) = true
  /\ (min <= List.length (Re.group name m))%nat.
Proof.
  intros Hno. unfold Re.match_at. cbn [Re.exec].
  destruct (Text.startswith s t); [|discriminate].
  intros H.
  destruct (many_greedy_inv _ _ _ _ _ _ H)
    as [taken [rest1 [Hs [Hp [Hlen Hk]]]]].
  cbv beta in Hk. rewrite Hs in Hk. rewrite length_app in Hk.
  replace (List.length taken + List.length rest1 - List.length rest1)%nat
    with (List.length taken) in Hk by lia.
  rewrite firstn_app, Nat.sub_diag, firstn_all, firstn_O, app_nil_r in Hk.
  destruct (exec_keeps_group name tail Hno _ _ _ _ Hk)
    as [rest' [caps' [[= _ <-] Hg]]].
  rewrite Hg. cbn [Re.group]. rewrite String.eqb_refl.
  split; [exact Hp|]. simpl in Hlen. lia.
Qed.

Section CatalogueFacts.

Context (isalnum : char -> bool).

(** The name an option match captures: a run of [a-z] and [-], not
    empty. *)
Lemma option_match_name (s rest : str) (m : Re.captures) :
  Re.match_at (OPTION_REGEX isalnum) s = Some (rest, m) ->
  Re.group "name" m <> []
  /\ forallb is_name_char (Re.group "name" m) = true.
Proof.
  unfold OPTION_REGEX, Re.seq. cbn [fold_right]. intros H.
  apply named_run_capture in H; [|reflexivity].
  destruct H as [Hp Hlen]. split; [|exact Hp].
  destruct (Re.group "name" m); [simpl in Hlen; lia | discriminate].
Qed.

Lemma fold_add_option_In (ms : list Re.captures) :
  forall (d : OptionsHelp) (k v : str),
    In (k, v) (fold_left add_option ms d) ->
    In (k, v) d
    \/ exists m, In m ms /\ k = Re.group "name" m
                 /\ v = Text.strip
                          (Text.join (lit " ")
                             (map Text.strip (splitlines (Re.group "text" m)))).
Proof.
  induction ms as [|m ms IH]; intros d k v; cbn [fold_left].
  - now left.
  - intros H. destruct (IH _ _ _ H) as [Hd|[m' [Hin Hm']]].
    + unfold add_option in Hd. apply dict_set_In in Hd.
      destruct Hd as [[-> ->]|Hd]; [|now left].
      right. exists m. split; [now left|easy].
    + right. exists m'. split; [now right|exact Hm'].
Qed.

Lemma fold_add_option_NoDup (ms : list Re.captures) :
  forall d : OptionsHelp,
    List.NoDup (map fst d) ->
    List.NoDup (map fst (fold_left add_option ms d)).
Proof.
  induction ms as [|m ms IH]; intros d Hd; cbn [fold_left]; [exact Hd|].
  apply IH. unfold add_option. now apply dict_set_NoDup.
Qed.

Lemma parse_options_help_text_In (help_text k v : str) :
  In (k, v) (_parse_options_help_text isalnum help_text) ->
  (k <> lit "version" /\ k <> lit "help" /\ k <> lit "input"
   /\ k <> lit "output" /\ k <> lit "display-mode")
  /\ exists s rest m,
       Re.match_at (OPTION_REGEX isalnum) s = Some (rest, m)
       /\ k = Re.group "name" m
       /\ v = Text.strip
                (Text.join (lit " ")
                   (map Text.strip (splitlines (Re.group "text" m)))).
Proof.
  unfold _parse_options_help_text. rewrite !dict_pop_In.
  intros [[[[[H Hv] Hh] Hi] Ho] Hd]. split; [easy|].
  apply fold_add_option_In in H. destruct H as [[]|[m [Hm [Hk Hval]]]].
  apply finditer_from_In in Hm. destruct Hm as [s [rest Hm]].
  now exists s, rest, m.
Qed.

Lemma parse_options_help_text_NoDup (help_text : str) :
  List.NoDup (map fst (_parse_options_help_text isalnum help_text)).
Proof.
  unfold _parse_options_help_text.
  repeat apply dict_pop_NoDup. apply fold_add_option_NoDup. constructor.
Qed.

(** X21.  Whatever the help text, [_parse_options_help_text] returns a
    dictionary whose keys are names of options as the pattern has them,
    not empty and made of [a-z] and [-], each once; and none of them is
    [version], [help], [input], [output] or [display-mode], the options
    the package keeps to itself. *)
Theorem parse_options_help_text_names (help_text : str) :
  List.NoDup (map fst (_parse_options_help_text isalnum help_text))
  /\ forall name text,
       In (name, text) (_parse_options_help_text isalnum help_text) ->
       name <> [] /\ forallb is_name_char name = true
       /\ ~ In name [lit "version"; lit "help"; lit "input"; lit "output";
                     lit "display-mode"].
Proof.
  split; [apply parse_options_help_text_NoDup|].
  intros name text H. apply parse_options_help_text_In in H.
  destruct H as [Hres [s [rest [m [Hm [-> _]]]]]].
  destruct (option_match_name s rest m Hm) as [Hne Hchars].
  split; [exact Hne|]. split; [exact Hchars|].
  cbn [In]. intuition congruence.
Qed.

End CatalogueFacts.

(** ** Trimmed text *)

Lemma lstrip_head (s : str) :
  match Text.lstrip s with
  | c :: _ => Text.isspace c = false
  | [] => True
  end.
Proof.
  induction s as [|c s IH]; cbn [Text.lstrip]; [exact I|].
  destruct (Text.isspace c) eqn:E; [exact IH|exact E].
Qed.

Lemma lstrip_fixed (c : char) (s : str) :
  Text.isspace c = false -> Text.lstrip (c :: s) = c :: s.
Proof. intros E. cbn [Text.lstrip]. now rewrite E. Qed.

Lemma lstrip_idem (s : str) : Text.lstrip (Text.lstrip s) = Text.lstrip s.
Proof.
  pose proof (lstrip_head s) as H.
  destruct (Text.lstrip s) as [|c r]; [reflexivity|].
  now apply lstrip_fixed.
Qed.

Lemma lstrip_In (c : char) (s : str) : In c (Text.lstrip s) -> In c s.
Proof.
  induction s as [|d s IH]; cbn [Text.lstrip]; [easy|].
  destruct (Text.isspace d); [|easy]. intros H. right. now apply IH.
Qed.

Lemma lstrip_snoc (a : str) (c : char) :
  Text.isspace c = false -> Text.lstrip (a ++ [c]) = Text.lstrip a ++ [c].
Proof.
  intros E. induction a as [|d a IH]; cbn [Text.lstrip app].
  - now rewrite E.
  - destruct (Text.isspace d); [exact IH|reflexivity].
Qed.

Lemma rstrip_cons (c : char) (s : str) :
  Text.isspace c = false -> Text.rstrip (c :: s) = c :: Text.rstrip s.
Proof.
  intros E. unfold Text.rstrip. cbn [rev].
  rewrite lstrip_snoc by exact E. now rewrite rev_app_distr.
Qed.

Lemma rstrip_In (c : char) (s : str) : In c (Text.rstrip s) -> In c s.
Proof.
  unfold Text.rstrip. rewrite <- in_rev. intros H.
  apply lstrip_In in H. now rewrite <- in_rev in H.
Qed.

Lemma strip_In (c : char) (s : str) : In c (Text.strip s) -> In c s.
Proof. unfold Text.strip. intros H. now apply lstrip_In, rstrip_In. Qed.

(** [s.strip().strip() == s.strip()] *)
Lemma strip_idem (s : str) : Text.strip (Text.strip s) = Text.strip s.
Proof.
  unfold Text.strip.
  assert (Hl : Text.lstrip (Text.rstrip (Text.lstrip s))
               = Text.rstrip (Text.lstrip s)).
  { pose proof (lstrip_head s) as H.
    destruct (Text.lstrip s) as [|c r]; [reflexivity|].
    rewrite rstrip_cons by exact H. now apply lstrip_fixed. }
  rewrite Hl. unfold Text.rstrip at 1 2.
  now rewrite rev_involutive, lstrip_idem.
Qed.

Lemma splitlines_from_chars (s : str) :
  forall line,
    (forall c, In c line -> is_linebreak c = false) ->
    forall l c, In l (splitlines_from line s) -> In c l ->
                is_linebreak c = false.
Proof.
  assert (H : forall n (s : str), (List.length s <= n)%nat ->
              forall line,
                (forall c, In c line -> is_linebreak c = false) ->
                forall l c, In l (splitlines_from line s) -> In c l ->
                            is_linebreak c = false).
  { clear s. induction n as [|n IH]; intros [|d s] Hn line Hline l c;
      cbn [splitlines_from]; try (simpl in Hn; lia).
    - destruct line as [|e line]; [easy|].
      intros [<-|[]] Hc. apply Hline. now apply in_rev.
    - destruct line as [|e line]; [easy|].
      intros [<-|[]] Hc. apply Hline. now apply in_rev.
    - simpl in Hn. destruct (is_linebreak d) eqn:E.
      + intros [<-|Hl] Hc; [apply Hline; now apply in_rev|].
        destruct s as [|d' s']; [easy|].
        assert (Hnil : forall c0 : char, In c0 (@nil char) ->
                                         is_linebreak c0 = false)
          by (intros ? []).
        destruct ((d =? 13) && (d' =? 10)).
        * apply (IH s' ltac:(simpl in Hn; lia) [] Hnil l c Hl Hc).
        * apply (IH (d' :: s') ltac:(simpl in *; lia) [] Hnil l c Hl Hc).
      + apply (IH s ltac:(lia)).
        intros c0 [<-|H0]; [exact E|now apply Hline]. }
  now apply (H (List.length s)).
Qed.

(** ** The options the command offers *)

Section Offers.

Context (isalnum : char -> bool).

(** X22.  The description [_parse_options_help_text] stores for an
    option is one line and trimmed: it holds no line break, and
    stripping it again changes nothing. *)
Theorem parse_options_help_text_texts (help_text name text : str) :
  In (name, text) (_parse_options_help_text isalnum help_text) ->
  Text.strip text = text
  /\ forall c, In c text -> is_linebreak c = false.
Proof.
  intros H. apply parse_options_help_text_In in H.
  destruct H as [_ [s [rest [m [_ [_ ->]]]]]]. split.
  - apply strip_idem.
  - intros c Hc. apply strip_In in Hc.
    change (lit " ") with [32] in Hc. apply in_join in Hc.
    destruct Hc as [->|[p [Hp Hc]]]; [reflexivity|].
    apply in_map_iff in Hp. destruct Hp as [l [<- Hl]].
    apply strip_In in Hc.
    apply (splitlines_from_chars _ [] (fun _ F => match F with end) l c Hl Hc).
Qed.

Context (h : host).

Lemma get_cmd_help_text_exited (w w1 : world) (parts : list str)
    (code : Z) (out : list (stream * bytes)) (f' : gmap str node) :
  get_bin_cmd h w = (Ok parts, w1) ->
  run h (parts ++ [lit "--help"]) (fs w1) (now w1) = Exited code out f' ->
  _get_cmd_help_text h w
  = (read_output (output_of Stdout out),
     World f' (now w1)
           (trace w1 ++ [EvSpawn (parts ++ [lit "--help"]); EvClose])).
Proof.
  intros Hbin Hrun. unfold _get_cmd_help_text.
  erewrite bind_ok by exact Hbin.
  unfold try_finally_from.
  erewrite spawn_exited by exact Hrun.
  unfold try_finally, lift, close_stdout, log. cbn [chunks].
  unfold noted, with_fs; cbn [fs now trace]. now rewrite <- app_assoc.
Qed.

Lemma get_cmd_help_text_unlaunched (w w1 : world) (parts : list str)
    (e : os_error) :
  get_bin_cmd h w = (Ok parts, w1) ->
  run h (parts ++ [lit "--help"]) (fs w1) (now w1) = LaunchFailure e ->
  _get_cmd_help_text h w
  = (Raise (OSError e (hd [] (parts ++ [lit "--help"]))),
     noted (EvSpawn (parts ++ [lit "--help"])) w1).
Proof.
  intros Hbin Hrun. unfold _get_cmd_help_text.
  erewrite bind_ok by exact Hbin.
  unfold try_finally_from.
  erewrite spawn_failure by exact Hrun. reflexivity.
Qed.

Lemma default_options_empty :
  _parse_options_help_text isalnum DEFAULT_HELP_TEXT = [].
Proof. vm_compute. reflexivity. Qed.

Lemma parse_options_run (w : world) :
  parse_options isalnum h [] w
  = match _get_cmd_help_text h w with
    | (Ok help_text, w1) =>
        (Ok (_parse_options_help_text isalnum help_text,
             _parse_options_help_text isalnum help_text), w1)
    | (Raise e, w1) =>
        if is_not_implemented e then (Ok ([], []), w1) else (Raise e, w1)
    end.
Proof.
  unfold parse_options. rewrite default_options_empty.
  unfold bind at 1, try_except, bind at 1.
  destruct (_get_cmd_help_text h w) as [[help_text|e] w1].
  - unfold ret.
    rewrite !dict_update_nil;
      [reflexivity | apply parse_options_help_text_NoDup ..].
  - now destruct (is_not_implemented e).
Qed.

(** X23.  [parse_options] asks the resolved command for its help with
    [--help] and does not look at the exit status: whatever the command
    exits with, the options offered are those read from what it wrote
    on standard output, and nothing else: the module's own
    [DEFAULT_HELP_TEXT], folded into one line before it is parsed,
    yields a single match, which is the option [version], and that is
    dropped, so it contributes no option. *)
Theorem parse_options_from_command (w w1 : world) (parts : list str)
    (code : Z) (out : list (stream * bytes)) (f' : gmap str node)
    (help_text : str) :
  get_bin_cmd h w = (Ok parts, w1) ->
  run h (parts ++ [lit "--help"]) (fs w1) (now w1) = Exited code out f' ->
  Text.decode (output_of Stdout out) = Some help_text ->
  parse_options isalnum h [] w
  = (Ok (_parse_options_help_text isalnum help_text,
         _parse_options_help_text isalnum help_text),
     World f' (now w1)
           (trace w1 ++ [EvSpawn (parts ++ [lit "--help"]); EvClose])).
Proof.
  intros Hbin Hrun Hdec. rewrite parse_options_run.
  rewrite (get_cmd_help_text_exited w w1 parts code out f' Hbin Hrun).
  rewrite read_output_decode. unfold decode_utf8. now rewrite Hdec.
Qed.

(** X24.  When no command can be resolved ([NotImplementedError]: no
    katex installed and no bundled binary for the platform),
    [parse_options] swallows the error and offers no option at all. *)
Theorem parse_options_no_binary (w w1 : world) (msg : str) :
  get_bin_cmd h w = (Raise (NotImplementedError msg), w1) ->
  parse_options isalnum h [] w = (Ok ([], []), w1).
Proof.
  intros Hbin. rewrite parse_options_run.
  unfold _get_cmd_help_text. erewrite bind_raise by exact Hbin.
  reflexivity.
Qed.

(** X25.  No other error is swallowed: when the resolved command
    cannot be started, [parse_options] raises the error of the launch,
    and when its help is not UTF-8 it raises [UnicodeDecodeError]. *)
Theorem parse_options_propagates (w w1 : world) (parts : list str) :
  get_bin_cmd h w = (Ok parts, w1) ->
  match run h (parts ++ [lit "--help"]) (fs w1) (now w1) with
  | LaunchFailure e =>
      (parse_options isalnum h [] w).1
      = Raise (OSError e (hd [] (parts ++ [lit "--help"])))
  | Exited code out f' =>
      Text.decode (output_of Stdout out) = None ->
      (parse_options isalnum h [] w).1 = Raise UnicodeDecodeError
  end.
Proof.
  intros Hbin. rewrite parse_options_run.
  destruct (run h (parts ++ [lit "--help"]) (fs w1) (now w1))
    as [e|code out f'] eqn:Hrun.
  - now rewrite (get_cmd_help_text_unlaunched w w1 parts e Hbin Hrun).
  - intros Hdec.
    rewrite (get_cmd_help_text_exited w w1 parts code out f' Hbin Hrun).
    rewrite read_output_decode. unfold decode_utf8. now rewrite Hdec.
Qed.

(** X26.  The options are parsed once: after a call that found
    [_PARSED_OPTIONS] empty and returned options, the module holds those
    options, and every later call returns them as they are without a
    system call.  (A call that returns no options leaves
    [_PARSED_OPTIONS] empty, and the next call asks the command
    again.) *)
Theorem parse_options_memoised (w w1 : world)
    (options memo : OptionsHelp) :
  parse_options isalnum h [] w = (Ok (options, memo), w1) ->
  memo = options
  /\ (options <> [] ->
      forall w2, parse_options isalnum h memo w2 = (Ok (options, memo), w2)).
Proof.
  rewrite parse_options_run.
  destruct (_get_cmd_help_text h w) as [[help_text|e] w'].
  - intros [= <- <- <-]. split; [reflexivity|]. intros Hne w2.
    unfold parse_options.
    now destruct (_parse_options_help_text isalnum help_text).
  - destruct (is_not_implemented e); [|discriminate].
    intros [= <- <- <-]. split; [reflexivity|]. now intros [].
Qed.

End Offers.

(** ** Inline formulas *)

Lemma startswith_split (t : str) :
  forall s, Text.startswith s t = true -> s = t ++ skipn (List.length t) s.
Proof.
  induction t as [|a t IH]; intros s; cbn [Text.startswith]; [easy|].
  destruct s as [|b s]; [discriminate|].
  intros H. apply andb_true_iff in H. destruct H as [Hab Hrest].
  apply N.eqb_eq in Hab. subst b. cbn [List.length skipn app].
  f_equal. now apply IH.
Qed.

(** What [INLINE_DELIM_RE] matches at the start of a text. *)
Lemma inline_match_shape (s rest : str) (caps : Re.captures) :
  Re.match_at INLINE_DELIM_RE s = Some (rest, caps) ->
  exists body,
    s = [36] ++ body ++ [36] ++ rest
    /\ body <> [] /\ forallb is_inline_char body = true.
Proof.
  unfold Re.match_at, INLINE_DELIM_RE, Re.seq. cbn [fold_right Re.exec].
  destruct (Text.startswith s (lit "$")) eqn:Hopen; [|discriminate].
  apply startswith_split in Hopen. intros H.
  destruct (many_lazy_inv _ _ _ _ _ _ H)
    as [body [rest1 [Hs [Hp [Hlen Hk]]]]].
  cbv beta in Hk.
  destruct (Text.startswith rest1 (lit "$")) eqn:Hclose; [|discriminate].
  apply startswith_split in Hclose.
  cbn [Text.startswith List.length skipn] in Hk. injection Hk as <- _.
  exists body. split; [|split; [|exact Hp]].
  - rewrite Hopen, Hs. f_equal. f_equal. exact Hclose.
  - destruct body; [simpl in Hlen; lia | discriminate].
Qed.

(** An item of [iter_inline_katex]: a slice of the line that is a
    formula between two dollar signs, after an even number of
    backticks. *)
Lemma iter_inline_from_spec (line : str) (s : str) :
  forall (skip pos : nat) (pre : str),
    line = pre ++ s -> List.length pre = pos ->
    let items := iter_inline_from line skip pos s in
    List.Forall (inline_item line) items
    /\ List.Forall (fun i => (pos + skip <= item_start i)%nat) items
    /\ StronglySorted (fun a b => (item_end a <= item_start b)%nat) items.
Proof.
  induction s as [|c s IH]; intros skip pos pre Hline Hpos.
  - destruct skip as [|n]; cbn [iter_inline_from].
    + destruct (Re.match_at INLINE_DELIM_RE []) as [[rest caps]|] eqn:E.
      * apply inline_match_shape in E. destruct E as [body [E _]].
        discriminate E.
      * repeat split; constructor.
    + repeat split; constructor.
  - destruct skip as [|n]; cbn [iter_inline_from].
    + destruct (Re.match_at INLINE_DELIM_RE (c :: s))
        as [[rest caps]|] eqn:E.
      * apply inline_match_shape in E.
        destruct E as [body [Hs [Hbody Hchars]]].
        assert (Hlen : (List.length (c :: s) - List.length rest
                        = 2 + List.length body)%nat).
        { rewrite Hs. rewrite !length_app. simpl. unfold char. lia. }
        rewrite Hlen.
        destruct (IH (Nat.pred (2 + List.length body)) (S pos) (pre ++ [c]))
          as [Hitems [Hstart Hsorted]].
        { now rewrite <- app_assoc. }
        { rewrite length_app. simpl. lia. }
        destruct (Nat.odd (count_char 96 (firstn pos line))) eqn:Hodd.
        -- split; [exact Hitems|]. split; [|exact Hsorted].
           eapply List.Forall_impl; [|exact Hstart]. intros i Hi.
           simpl in Hi |- *. lia.
        -- split; [|split].
           ++ constructor; [|exact Hitems].
              exists body. cbn [inline_text item_start item_end].
              replace (pos + (2 + List.length body) - pos)%nat
                with (2 + List.length body)%nat by lia.
              assert (Hslice : firstn (2 + List.length body) (skipn pos line)
                               = [36] ++ body ++ [36]).
              { rewrite Hline, <- Hpos, skipn_app, Nat.sub_diag, skipn_all.
                cbn [skipn app]. rewrite Hs.
                replace ([36] ++ body ++ [36] ++ rest)
                  with (([36] ++ body ++ [36]) ++ rest)
                  by (now rewrite <- !app_assoc).
                assert (Hx : List.length ([36] ++ body ++ [36])
                             = (2 + List.length body)%nat)
                  by (rewrite !length_app; simpl; unfold char; lia).
                rewrite <- Hx. apply take_app_length. }
              rewrite Hslice.
              split; [reflexivity|]. split; [exact Hbody|].
              split; [exact Hchars|]. split; [reflexivity|].
              split; [rewrite !length_app; simpl; unfold char; lia|]. split.
              ** rewrite Hline, length_app, Hpos, Hs, !length_app.
                 simpl. unfold char. lia.
              ** rewrite <- Nat.negb_odd. now rewrite Hodd.
           ++ constructor; [cbn [item_start]; lia|].
              eapply List.Forall_impl; [|exact Hstart]. intros i Hi.
              simpl in Hi |- *. lia.
           ++ constructor; [exact Hsorted|].
              eapply List.Forall_impl; [|exact Hstart]. intros i Hi.
              simpl in Hi |- *. lia.
      * destruct (IH O (S pos) (pre ++ [c])) as [Hitems [Hstart Hsorted]].
        { now rewrite <- app_assoc. }
        { rewrite length_app. simpl. lia. }
        split; [exact Hitems|]. split; [|exact Hsorted].
        eapply List.Forall_impl; [|exact Hstart]. intros i Hi.
        cbv beta in Hi |- *. lia.
    + destruct (IH n (S pos) (pre ++ [c])) as [Hitems [Hstart Hsorted]].
      { now rewrite <- app_assoc. }
      { rewrite length_app. simpl. lia. }
      split; [exact Hitems|]. split; [|exact Hsorted].
      eapply List.Forall_impl; [|exact Hstart]. intros i Hi.
      cbv beta in Hi |- *. lia.
Qed.

Lemma iter_inline_katex_items (line : str) :
  List.Forall (inline_item line) (iter_inline_katex line)
  /\ StronglySorted (fun a b => (item_end a <= item_start b)%nat)
                    (iter_inline_katex line).
Proof.
  destruct (iter_inline_from_spec line line O O [] eq_refl eq_refl)
    as [Hitems [_ Hsorted]].
  now split.
Qed.

(** X27.  Every item [iter_inline_katex] yields is a slice of the
    line, [line[start:end]], made of a dollar sign, a formula that is
    not empty and holds neither white space nor a dollar sign, and a
    dollar sign; an even number of backticks stands before it; and the
    items come from left to right without overlap, each starting where
    the one before has ended or later. *)
Theorem iter_inline_katex_spans (line : str) :
  List.Forall (inline_item line) (iter_inline_katex line)
  /\ StronglySorted (fun a b => (item_end a <= item_start b)%nat)
                    (iter_inline_katex line).
Proof. apply iter_inline_katex_items. Qed.

Lemma clean_inline_delimited (body : str) :
  _clean_inline_text ([36] ++ body ++ [36]) = body.
Proof.
  unfold _clean_inline_text.
  change (Text.startswith ([36] ++ body ++ [36]) (lit "$")) with true.
  cbv iota. change (skipn (List.length (lit "$")) ([36] ++ body ++ [36]))
    with (body ++ [36]).
  unfold endswith. rewrite rev_app_distr.
  change (Text.startswith (rev [36] ++ rev body) (rev (lit "$"))) with true.
  cbv iota. rewrite length_app. cbn [List.length lit].
  replace (List.length body + 1 - _)%nat with (List.length body)
    by (simpl; lia).
  rewrite firstn_app, Nat.sub_diag, firstn_all. simpl.
  now rewrite app_nil_r.
Qed.

(** X28.  The text handed on for an item of [iter_inline_katex] is the
    formula between the dollar signs: [_clean_inline_text] takes off
    exactly the two delimiters, so that text is not empty, holds neither
    white space nor a dollar sign, and with the delimiters put back it
    is the item's text. *)
Theorem clean_inline_text_of_item (line : str) (item : InlineCodeItem) :
  In item (iter_inline_katex line) ->
  let tex := _clean_inline_text (inline_text item) in
  inline_text item = [36] ++ tex ++ [36]
  /\ tex <> [] /\ forallb is_inline_char tex = true.
Proof.
  intros Hin. destruct (iter_inline_katex_items line) as [Hitems _].
  rewrite List.Forall_forall in Hitems.
  destruct (Hitems item Hin) as [body [Htext [Hne [Hchars _]]]].
  cbv zeta. rewrite Htext, clean_inline_delimited. now repeat split.
Qed.

(** ** Inline SVG as images *)

Lemma startswith_app_same (t rest : str) :
  Text.startswith (t ++ rest) t = true.
Proof.
  induction t as [|a t IH]; cbn [Text.startswith app]; [reflexivity|].
  now rewrite N.eqb_refl, IH.
Qed.

Lemma skipn_app_same (t rest : str) : skipn (List.length t) (t ++ rest) = rest.
Proof. induction t as [|a t IH]; [reflexivity|exact IH]. Qed.

(** What [SVG_ELEM_RE] matches at the start of a text. *)
Lemma svg_match_shape (s rest : str) (caps : Re.captures) :
  Re.match_at SVG_ELEM_RE s = Some (rest, caps) ->
  exists mid, s = lit "<svg" ++ mid ++ lit "</svg>" ++ rest.
Proof.
  unfold Re.match_at, SVG_ELEM_RE, Re.seq. cbn [fold_right Re.exec].
  destruct (Text.startswith s (lit "<svg")) eqn:Hopen; [|discriminate].
  apply startswith_split in Hopen. intros H.
  destruct (many_lazy_inv _ _ _ _ _ _ H) as [mid [rest1 [Hs [_ [_ Hk]]]]].
  cbv beta in Hk.
  destruct (Text.startswith rest1 (lit "</svg>")) eqn:Hclose; [|discriminate].
  apply startswith_split in Hclose.
  cbn [Text.startswith List.length skipn] in Hk. injection Hk as <- _.
  exists mid. rewrite Hopen at 1. rewrite Hs. f_equal. f_equal. exact Hclose.
Qed.

(** A lazy run finds a way on when there is one. *)
Lemma many_lazy_complete {A} (p : char -> bool) (min : nat) (x : str) :
  forall (n : nat) (y : str) (k : str -> option A) (a : A),
    (min <= n)%nat -> forallb p x = true -> k y = Some a ->
    exists a', Re.many_lazy p min n (x ++ y) k = Some a'.
Proof.
  induction x as [|c x IH]; intros n y k a Hn Hp Hk.
  - cbn [app]. destruct y as [|d y]; cbn [Re.many_lazy];
      rewrite (proj2 (Nat.leb_le _ _) Hn), Hk; eauto.
  - cbn [app Re.many_lazy]. rewrite (proj2 (Nat.leb_le _ _) Hn).
    destruct (k (c :: x ++ y)) as [a'|]; [eauto|].
    cbn [forallb] in Hp. apply andb_true_iff in Hp. destruct Hp as [Hc Hx].
    rewrite Hc. apply (IH (S n) y k a); [lia | exact Hx | exact Hk].
Qed.

(** An opening [<svg] with a [</svg>] somewhere after it is matched. *)
Lemma svg_match_complete (x y : str) :
  Re.match_at SVG_ELEM_RE (lit "<svg" ++ x ++ lit "</svg>" ++ y) <> None.
Proof.
  unfold Re.match_at, SVG_ELEM_RE, Re.seq. cbn [fold_right Re.exec].
  rewrite startswith_app_same, skipn_app_same.
  match goal with
  | |- Re.many_lazy ?p ?m ?n _ ?k <> None =>
      destruct (many_lazy_complete p m x n (lit "</svg>" ++ y) k (y, []))
        as [a' Ha']
  end.
  - lia.
  - now apply forallb_forall.
  - cbv beta. rewrite startswith_app_same, skipn_app_same. reflexivity.
  - rewrite Ha'. discriminate.
Qed.

(** The first match of a search: nothing matches before it. *)
Lemma search_from_spec (r : Re.regex) (s : str) :
  forall (acc before m after : str),
    Re.search_from r acc s = Some (before, m, after) ->
    exists pre caps,
      before = rev acc ++ pre
      /\ Re.match_at r (skipn (List.length pre) s) = Some (after, caps)
      /\ m = firstn (List.length (skipn (List.length pre) s)
                     - List.length after)
                    (skipn (List.length pre) s)
      /\ s = pre ++ skipn (List.length pre) s
      /\ forall a b, pre = a ++ b -> b <> [] ->
                     Re.match_at r (b ++ skipn (List.length pre) s) = None.
Proof.
  induction s as [|c s IH]; intros acc before m after;
    cbn [Re.search_from].
  - destruct (Re.match_at r []) as [[rest caps]|] eqn:E; [|discriminate].
    intros [= <- <- <-]. exists [], caps. cbn [List.length skipn app].
    rewrite app_nil_r. repeat split; try assumption.
    intros a b Hab Hb. destruct a; destruct b; easy.
  - destruct (Re.match_at r (c :: s)) as [[rest caps]|] eqn:E.
    + intros [= <- <- <-]. exists [], caps. cbn [List.length skipn app].
      rewrite app_nil_r. repeat split; try assumption.
      intros a b Hab Hb. destruct a; destruct b; easy.
    + intros H. destruct (IH _ _ _ _ H)
        as [pre [caps [Hbefore [Hmatch [Hm [Hs Hnone]]]]]].
      exists (c :: pre), caps. cbn [List.length skipn app rev] in *.
      split; [now rewrite Hbefore, <- app_assoc|].
      split; [exact Hmatch|]. split; [exact Hm|].
      split; [now rewrite <- Hs|].
      intros a b Hab Hb. destruct a as [|a0 a].
      * cbn [app] in Hab. subst b. cbn [app]. now rewrite <- Hs.
      * injection Hab as _ Hab. now apply (Hnone a b).
Qed.

Lemma search_from_none (r : Re.regex) (s : str) :
  forall acc, Re.search_from r acc s = None ->
              forall a b, s = a ++ b -> Re.match_at r b = None.
Proof.
  induction s as [|c s IH]; intros acc; cbn [Re.search_from].
  - destruct (Re.match_at r []) as [[rest caps]|] eqn:E; [discriminate|].
    intros _ a b Hab. destruct a; destruct b; easy.
  - destruct (Re.match_at r (c :: s)) as [[rest caps]|] eqn:E;
      [discriminate|].
    intros H a b Hab. destruct a as [|a0 a].
    + cbn [app] in Hab. now subst b.
    + injection Hab as _ Hab. now apply (IH _ H a b).
Qed.

(** *** Openings *)

Lemma openings_app_le (p x y : str) :
  (openings p y <= openings p (x ++ y))%nat.
Proof.
  induction x as [|c x IH]; [reflexivity|].
  cbn [app openings]. lia.
Qed.

Lemma openings_app_none (p x y : str) :
  (forall a b, x = a ++ b -> b <> [] ->
               Text.startswith (b ++ y) p = false) ->
  openings p (x ++ y) = openings p y.
Proof.
  induction x as [|c x IH]; intros Hnone; [reflexivity|].
  cbn [app openings].
  change (c :: x ++ y) with ((c :: x) ++ y).
  rewrite (Hnone [] (c :: x) eq_refl) by discriminate.
  apply IH. intros a b Hab Hb. apply (Hnone (c :: a) b); [|exact Hb].
  now rewrite Hab.
Qed.

Lemma startswith_no_head (c : char) (s p0 : str) (d : char) :
  (d =? c) = false -> Text.startswith (c :: s) (d :: p0) = false.
Proof. intros H. cbn [Text.startswith]. now rewrite H. Qed.

(** *** The image tag *)

Lemma b64_alphabet_plain :
  forallb (fun c => (c <? 128) && negb (c =? 60)) (61 :: b64_alphabet)
  = true.
Proof. reflexivity. Qed.

Lemma b64_digit_plain (n : N) :
  exists c, b64_digit n = byte_of_N c /\ c < 128 /\ c <> 60.
Proof.
  unfold b64_digit. exists (nth (N.to_nat n) b64_alphabet 61).
  split; [reflexivity|].
  pose proof b64_alphabet_plain as H. rewrite forallb_forall in H.
  assert (Hin : In (nth (N.to_nat n) b64_alphabet 61) (61 :: b64_alphabet)).
  { destruct (nth_in_or_default (N.to_nat n) b64_alphabet 61) as [Hi| ->];
      [now right | now left]. }
  specialize (H _ Hin). apply andb_true_iff in H. destruct H as [Hlt Hne].
  split; [now apply N.ltb_lt|]. intros E. rewrite E in Hne. discriminate.
Qed.

Lemma decode_plain_cons (c : char) (rest : bytes) :
  c < 128 ->
  Text.decode (byte_of_N c :: rest)
  = option_map (cons c) (Text.decode rest).
Proof.
  intros Hc. cbn [Text.decode].
  rewrite to_N_byte_of_N by lia.
  now rewrite (proj2 (N.ltb_lt _ _) Hc).
Qed.

(** Base64 text decodes, and holds no [<]. *)
Lemma b64_text (data : bytes) :
  exists t, Text.decode (standard_b64encode data) = Some t
            /\ forallb (fun c => negb (c =? 60)) t = true.
Proof.
  assert (Hpad : x3d = byte_of_N 61) by reflexivity.
  assert (Hstep : forall n rest t,
            Text.decode rest = Some t ->
            forallb (fun c => negb (c =? 60)) t = true ->
            exists t', Text.decode (b64_digit n :: rest) = Some t'
                       /\ forallb (fun c => negb (c =? 60)) t' = true).
  { intros n rest t Ht Hall.
    destruct (b64_digit_plain n) as [c [-> [Hlt Hne]]].
    rewrite decode_plain_cons by exact Hlt. rewrite Ht.
    exists (c :: t). split; [reflexivity|]. cbn [forallb].
    rewrite Hall. now rewrite (proj2 (N.eqb_neq _ _) Hne). }
  assert (Hpadstep : forall rest t,
            Text.decode rest = Some t ->
            forallb (fun c => negb (c =? 60)) t = true ->
            exists t', Text.decode (x3d :: rest) = Some t'
                       /\ forallb (fun c => negb (c =? 60)) t' = true).
  { intros rest t Ht Hall. rewrite Hpad.
    rewrite decode_plain_cons by reflexivity. rewrite Ht.
    exists (61 :: t). split; [reflexivity|]. cbn [forallb].
    now rewrite Hall. }
  assert (H : forall n (d : bytes), (List.length d <= n)%nat ->
            exists t, Text.decode (standard_b64encode d) = Some t
                      /\ forallb (fun c => negb (c =? 60)) t = true).
  { induction n as [|n IH]; intros d Hd.
    - destruct d; [|simpl in Hd; lia]. exists []. now split.
    - destruct d as [|a [|b [|c rest]]]; cbn [standard_b64encode].
      + exists []. now split.
      + destruct (Hpadstep [] [] eq_refl eq_refl) as [t1 [H1 A1]].
        destruct (Hpadstep _ _ H1 A1) as [t2 [H2 A2]].
        destruct (Hstep (Byte.to_N a mod 4 * 16) _ _ H2 A2) as [t3 [H3 A3]].
        exact (Hstep _ _ _ H3 A3).
      + destruct (Hpadstep [] [] eq_refl eq_refl) as [t1 [H1 A1]].
        destruct (Hstep (Byte.to_N b mod 16 * 4) _ _ H1 A1) as [t2 [H2 A2]].
        destruct (Hstep (Byte.to_N a mod 4 * 16 + Byte.to_N b / 16)
                    _ _ H2 A2) as [t3 [H3 A3]].
        exact (Hstep _ _ _ H3 A3).
      + destruct (IH rest) as [t0 [H0 A0]]; [simpl in Hd; lia|].
        destruct (Hstep (Byte.to_N c mod 64) _ _ H0 A0) as [t1 [H1 A1]].
        destruct (Hstep (Byte.to_N b mod 16 * 4 + Byte.to_N c / 64)
                    _ _ H1 A1) as [t2 [H2 A2]].
        destruct (Hstep (Byte.to_N a mod 4 * 16 + Byte.to_N b / 16)
                    _ _ H2 A2) as [t3 [H3 A3]].
        exact (Hstep _ _ _ H3 A3). }
  exact (H (List.length data) data (le_n _)).
Qed.

(** The tag begins with [<i] and holds no other [<]. *)
Lemma img_tag_shape (t : str) :
  forallb (fun c => negb (c =? 60)) t = true ->
  exists tl, B64IMG_TMPL t = 60 :: 105 :: tl
             /\ forallb (fun c => negb (c =? 60)) tl = true.
Proof.
  intros Ht. unfold B64IMG_TMPL.
  exists (lit "mg src=" ++ [34] ++ lit "data:image/svg+xml;base64," ++ t
          ++ [34] ++ lit "/>").
  split; [reflexivity|]. rewrite !forallb_app.
  repeat (apply andb_true_iff; split); try reflexivity. exact Ht.
Qed.

Lemma suffix_head_not (q : char -> bool) (x a b : str) :
  forallb q x = true -> x = a ++ b -> b <> [] ->
  exists c b', b = c :: b' /\ q c = true.
Proof.
  intros Hx -> Hb. destruct b as [|c b']; [easy|].
  rewrite forallb_app in Hx. apply andb_true_iff in Hx.
  destruct Hx as [_ Hx]. cbn [forallb] in Hx.
  apply andb_true_iff in Hx. exists c, b'. now split.
Qed.

(** No [<svg] begins inside the tag, whatever follows it. *)
Lemma img_tag_no_opening (t after : str) :
  forallb (fun c => negb (c =? 60)) t = true ->
  forall a b, B64IMG_TMPL t = a ++ b -> b <> [] ->
              Text.startswith (b ++ after) (lit "<svg") = false.
Proof.
  intros Ht a b Hab Hb.
  destruct (img_tag_shape t Ht) as [tl [Htag Htl]]. rewrite Htag in Hab.
  destruct a as [|a0 a].
  - cbn [app] in Hab. subst b. reflexivity.
  - injection Hab as _ Hab. destruct a as [|a1 a].
    + cbn [app] in Hab. subst b. reflexivity.
    + injection Hab as _ Hab.
      destruct (suffix_head_not _ tl a b Htl Hab Hb) as [c [b' [-> Hc]]].
      apply startswith_no_head. apply negb_true_iff in Hc.
      now rewrite N.eqb_sym.
Qed.

(** A turn of the loop that replaces an element takes an opening
    away. *)
Lemma svg2img_step_decreases (html html' : str) :
  svg2img_step html = Ok (Some html') ->
  (openings (lit "<svg") html' < openings (lit "<svg") html)%nat.
Proof.
  unfold svg2img_step, Re.search.
  destruct (Re.search_from SVG_ELEM_RE [] html) as [[[before m] after]|]
    eqn:Hsearch; [|discriminate].
  destruct (search_from_spec _ _ _ _ _ _ Hsearch)
    as [pre [caps [Hbefore [Hmatch [_ [Hhtml Hnone]]]]]].
  cbn [rev app] in Hbefore. subst before.
  remember (skipn (List.length pre) html) as s eqn:Hsdef. clear Hsdef.
  destruct (svg_match_shape _ _ _ Hmatch) as [mid Hs].
  destruct (encode_utf8 _) as [svg_data|e]; [|discriminate].
  destruct (b64_text svg_data) as [t [Hdec Ht]].
  unfold decode_utf8. rewrite Hdec. intros H.
  apply (f_equal (fun r => match r with
                           | Ok (Some x) => x
                           | _ => []
                           end)) in H.
  cbv beta iota in H. subst html'.
  rewrite (openings_app_none _ pre).
  2:{ intros a b Hab Hb. apply not_true_is_false. intros E.
      destruct (img_tag_shape t Ht) as [tl [Htag _]]. rewrite Htag in E.
      change (lit "<svg") with [60; 115; 118; 103] in E.
      destruct b as [|b0 [|b1 [|b2 [|b3 b']]]]; [easy| | | |].
      - cbn [app Text.startswith] in E.
        rewrite !andb_true_iff in E. destruct E as [_ [E _]].
        vm_compute in E. discriminate E.
      - cbn [app Text.startswith] in E.
        rewrite !andb_true_iff in E. destruct E as [_ [_ [E _]]].
        vm_compute in E. discriminate E.
      - cbn [app Text.startswith] in E.
        rewrite !andb_true_iff in E. destruct E as [_ [_ [_ [E _]]]].
        vm_compute in E. discriminate E.
      - assert (Hopen : b0 :: b1 :: b2 :: b3 :: b' = lit "<svg" ++ b').
        { cbn [app Text.startswith] in E. rewrite !andb_true_iff in E.
          destruct E as [E0 [E1 [E2 [E3 _]]]].
          apply N.eqb_eq in E0, E1, E2, E3. now subst. }
        specialize (Hnone a _ Hab Hb). rewrite Hopen, Hs in Hnone.
        rewrite <- !app_assoc in Hnone.
        replace (lit "<svg" ++ b' ++ lit "<svg" ++ mid ++ lit "</svg>"
                 ++ after)
          with (lit "<svg" ++ (b' ++ lit "<svg" ++ mid) ++ lit "</svg>"
                ++ after) in Hnone
          by (now rewrite <- !app_assoc).
        now apply svg_match_complete in Hnone. }
  rewrite (openings_app_none _ (B64IMG_TMPL t))
    by (now apply img_tag_no_opening).
  rewrite Hhtml, Hs.
  eapply Nat.lt_le_trans; [|apply openings_app_le].
  change (lit "<svg" ++ mid ++ lit "</svg>" ++ after)
    with (60 :: (lit "svg" ++ mid ++ lit "</svg>" ++ after)).
  cbn [openings].
  change (Text.startswith (60 :: lit "svg" ++ mid ++ lit "</svg>" ++ after)
                          (lit "<svg"))
    with (Text.startswith (lit "<svg" ++ mid ++ lit "</svg>" ++ after)
                          (lit "<svg")).
  rewrite startswith_app_same.
  pose proof (openings_app_le (lit "<svg")
                (lit "svg" ++ mid ++ lit "</svg>") after) as Hle.
  rewrite <- !app_assoc in Hle. lia.
Qed.

Lemma svg2img_loop_returns (fuel : nat) :
  forall html,
    (openings (lit "<svg") html < fuel)%nat ->
    exists r, svg2img_loop fuel html = Some r.
Proof.
  induction fuel as [|fuel IH]; intros html Hfuel; [lia|].
  cbn [svg2img_loop].
  destruct (svg2img_step html) as [[html'|]|e] eqn:Hstep; eauto.
  apply IH. apply svg2img_step_decreases in Hstep. lia.
Qed.

Lemma svg2img_loop_result (fuel : nat) :
  forall html r,
    svg2img_loop fuel html = Some r ->
    match r with
    | Ok out => Re.search SVG_ELEM_RE out = None
    | Raise e => e = UnicodeEncodeError
    end.
Proof.
  induction fuel as [|fuel IH]; intros html r; [discriminate|].
  cbn [svg2img_loop].
  destruct (svg2img_step html) as [[html'|]|e] eqn:Hstep.
  - apply IH.
  - intros [= <-]. unfold svg2img_step in Hstep.
    destruct (Re.search SVG_ELEM_RE html) as [[[before m] after]|];
      [|reflexivity].
    destruct (encode_utf8 _); [|discriminate].
    destruct (decode_utf8 _); discriminate.
  - intros [= <-]. unfold svg2img_step in Hstep.
    destruct (Re.search SVG_ELEM_RE html) as [[[before m] after]|];
      [|discriminate].
    destruct (encode_utf8 _) as [svg_data|e'] eqn:Henc.
    + destruct (b64_text svg_data) as [t [Hdec _]].
      unfold decode_utf8 in Hstep. rewrite Hdec in Hstep. discriminate.
    + unfold encode_utf8 in Henc. destruct (Text.encode _); [discriminate|].
      congruence.
Qed.

(** X29.  The loop of [svg2img] ends: each turn replaces the first
    [<svg ... </svg>] element by an image tag in which no [<svg]
    begins, so there is a turn that finds no element.  The text it then
    returns holds no such element, and a text without one is returned
    as it is; the only error it can raise is [UnicodeEncodeError], for
    an element that has no UTF-8 encoding. *)
Theorem svg2img_returns (html : str) :
  exists r,
    svg2img html = Some r
    /\ match r with
       | Ok out => Re.search SVG_ELEM_RE out = None
       | Raise e => e = UnicodeEncodeError
       end
    /\ (Re.search SVG_ELEM_RE html = None -> r = Ok html).
Proof.
  unfold svg2img.
  destruct (svg2img_loop_returns (S (openings (lit "<svg") html)) html)
    as [r Hr]; [lia|].
  exists r. split; [exact Hr|]. split.
  - exact (svg2img_loop_result _ _ _ Hr).
  - intros Hnone. cbn [svg2img_loop] in Hr. unfold svg2img_step in Hr.
    rewrite Hnone in Hr. now injection Hr as <-.
Qed.

(** ** The options the extension keeps to itself *)

Lemma dict_pop_get {V} (k : str) (d : dict V) :
  dict_get k (dict_pop k d) = None.
Proof.
  unfold dict_pop. induction d as [|[k' v] d IH]; [reflexivity|].
  cbn [List.filter fst]. destruct (Text.eqb k' k) eqn:E; cbn [negb].
  - exact IH.
  - cbn [dict_get]. now rewrite E.
Qed.

Lemma dict_pop_get_other {V} (k r : str) (d : dict V) :
  k <> r -> dict_get k (dict_pop r d) = dict_get k d.
Proof.
  intros Hne. unfold dict_pop.
  induction d as [|[k' v] d IH]; [reflexivity|].
  cbn [List.filter fst dict_get].
  destruct (Text.eqb k' r) eqn:E; cbn [negb].
  - apply eqb_eq in E. subst k'.
    rewrite (eqb_neq r k) by congruence. exact IH.
  - cbn [dict_get]. now rewrite IH.
Qed.

Lemma dict_pop_absent {V} (k : str) (d : dict V) :
  dict_get k d = None -> dict_pop k d = d.
Proof.
  unfold dict_pop. induction d as [|[k' v] d IH]; [reflexivity|].
  cbn [List.filter fst dict_get].
  destruct (Text.eqb k' k); [discriminate|]. cbn [negb].
  intros H. now rewrite IH.
Qed.

Section Flags.

Context (h : host).

(** The dictionary a call of the extension's [tex2html] leaves. *)
Lemma ext_tex2html_leaves (tex : str) (options : option Options)
    (w w' : world) (r : str) (left : option Options) :
  Extension.tex2html h tex options w = (Ok (r, left), w') ->
  left = match options with
         | Some ((_ :: _) as o) =>
             Some (dict_pop (lit "insert_fonts_css")
                     (dict_pop (lit "no_inline_svg") o))
         | _ => options
         end.
Proof.
  unfold Extension.tex2html. intros H.
  apply bind_ok_inv in H. destruct H as [r1 [w1 [_ H]]].
  apply bind_ok_inv in H. destruct H as [r2 [w2 [_ H]]].
  unfold ret in H. now injection H as _ <- _.
Qed.

(** X30.  The extension's [tex2html] takes [no_inline_svg] and
    [insert_fonts_css] out of the dictionary it is given, in place, and
    hands what is left to the wrapper, so neither becomes an argument of
    the renderer.  After a call that returned, the caller's dictionary
    holds neither key and every other entry as before; a later call
    with that dictionary therefore converts no SVG, whatever the first
    one did: it returns the wrapper's result as it is. *)
Theorem ext_tex2html_consumes_flags (tex : str) (options : option Options)
    (w w' : world) (r : str) (left : Options) :
  Extension.tex2html h tex options w = (Ok (r, Some left), w') ->
  dict_get (lit "no_inline_svg") left = None
  /\ dict_get (lit "insert_fonts_css") left = None
  /\ (forall k, k <> lit "no_inline_svg" -> k <> lit "insert_fonts_css" ->
                dict_get k left = dict_get k (default [] options))
  /\ forall tex2 w2,
       Extension.tex2html h tex2 (Some left) w2
       = (let* r2 := tex2html h tex2 (Some left) in
          ret (r2, Some left)) w2.
Proof.
  intros H. apply ext_tex2html_leaves in H.
  assert (Hleft : left = dict_pop (lit "insert_fonts_css")
                           (dict_pop (lit "no_inline_svg")
                              (default [] options))).
  { destruct options as [[|item o]|]; [now injection H as -> | | easy].
    now injection H as ->. }
  assert (Hsvg : dict_get (lit "no_inline_svg") left = None).
  { rewrite Hleft, dict_pop_get_other by discriminate. apply dict_pop_get. }
  assert (Hcss : dict_get (lit "insert_fonts_css") left = None).
  { rewrite Hleft. apply dict_pop_get. }
  split; [exact Hsvg|]. split; [exact Hcss|]. split.
  - intros k Hk1 Hk2. rewrite Hleft.
    now rewrite !dict_pop_get_other by congruence.
  - intros tex2 w2. unfold Extension.tex2html.
    destruct left as [|item left']; [reflexivity|].
    rewrite Hsvg.
    rewrite (dict_pop_absent (lit "no_inline_svg") _ Hsvg).
    rewrite (dict_pop_absent (lit "insert_fonts_css") _ Hcss).
    unfold bind. destruct (tex2html h tex2 _ w2) as [[r2|e] w2']; reflexivity.
Qed.

End Flags.

(** ** The theorems at work on a concrete machine *)

Import Scenario.

(** Equations between closed terms are settled by evaluation. *)
Ltac by_evaluation :=
  match goal with
  | |- @eq ?T _ ?b => vm_cast_no_check (@eq_refl T b)
  end.

(** A sweep is safe when every listed entry of the cache directory can
    be examined and the stale ones are not held. *)
Lemma sweep_safe_listed (h : host) (f : gmap str node) (t : Z) :
  forallb (fun kv => negb (is_child h (TMP_DIR h) kv.1)
                     || (examinable (Some kv.2)
                         && (negb (stale (t - retention) (Some kv.2))
                             || negb (locked h kv.1))))
          (map_to_list f) = true ->
  sweep_safe h f t.
Proof.
  intros H p Hc.
  destruct (f !! p) as [n|] eqn:E; [|split; [reflexivity|discriminate]].
  rewrite forallb_forall in H. specialize (H (p, n)). cbn [fst snd] in H.
  rewrite Hc in H. cbn [negb orb] in H.
  assert (Hin : In (p, n) (map_to_list f))
    by now apply list_elem_of_In, elem_of_map_to_list.
  apply H, andb_true_iff in Hin. destruct Hin as [Hex Hfree].
  split; [exact Hex|]. intros Hs. rewrite Hs in Hfree.
  now apply negb_true_iff in Hfree.
Qed.

(** The first call on a fresh machine finds katex on the search path,
    asks for its version, persists the resolution, renders and caches;
    the second call reads the persisted resolution and the cached output
    and starts nothing. *)
Example first_and_second_call :
  let first := tex2html hit_host x_squared display_mode fresh_world in
  let second := tex2html hit_host x_squared display_mode first.2 in
  first.1 = Ok (lit "<span>x2</span>")
  /\ spawns (trace first.2) = [[katex_exe; lit "--version"]; x2_argv]
  /\ fs first.2 !! resolution_file = Some (regular "/usr/bin/katex" clock)
  /\ fs first.2 !! x2_html = Some (File x2_output clock)
  /\ fs first.2 !! x2_tex = None
  /\ second.1 = Ok (lit "<span>x2</span>")
  /\ spawns (trace second.2) = spawns (trace first.2).
Proof. vm_compute. repeat split. Qed.

(** On a machine with a persisted resolution, resolution reads the file
    and looks no further. *)
Lemma get_usr_parts_reuses_persisted_witness :
  get_bin_cmd hit_host hit_world = (Ok [katex_exe], resolved hit_files).
Proof.
  apply (get_usr_parts_reuses_persisted hit_host hit_world
           (bytes_of_lit "/usr/bin/katex") katex_exe).
  - exists (clock - 7200)%Z. left. by_evaluation.
  - by_evaluation.
  - by_evaluation.
Defined.

(** A hit returns the cached text, starts nothing and refreshes the
    file. *)
Lemma tex2html_cache_hit_witness :
  exists w',
    tex2html hit_host x_squared display_mode hit_world
    = (Ok (lit "<span>x2</span>"), w')
    /\ spawns (trace w') = []
    /\ fs w' !! x2_html = Some (File x2_output clock).
Proof.
  destruct (tex2html_cache_hit hit_host x_squared display_mode hit_world
              (resolved hit_files) x2_parts x2_digest x2_output
              (clock - 3600) (clock - 7200) (lit "<span>x2</span>" ++ [10]))
    as [w' [evs [Hcall [_ [_ [Hspawns [Hfile _]]]]]]].
  - by_evaluation.
  - by_evaluation.
  - by_evaluation.
  - by_evaluation.
  - by_evaluation.
  - apply sweep_safe_listed. by_evaluation.
  - exists w'. split; [exact Hcall|]. split; [exact Hspawns | exact Hfile].
Defined.

(** The digest of a request, and a text that hashes another message. *)
Lemma cmd_digest_spec_witness :
  _cmd_digest x_squared x2_parts = Ok x2_digest
  /\ spec_digest_message (lit "x^3") x2_parts
     <> spec_digest_message x_squared x2_parts.
Proof.
  destruct (cmd_digest_spec x_squared x2_parts) as [Hdigest [_ [Hdiffer _]]].
  split.
  - rewrite Hdigest. vm_compute; reflexivity.
  - destruct (spec_digest_message x_squared x2_parts) as [m|] eqn:Hm;
      [|discriminate].
    destruct (spec_digest_message (lit "x^3") x2_parts) as [m'|] eqn:Hm';
      [|discriminate].
    intros [= E]. revert E. apply (Hdiffer (lit "x^3") m m' eq_refl Hm').
    discriminate.
Defined.

(** A renderer that exits with status 1 and [parse error] on standard
    error. *)
Lemma tex2html_nonzero_exit_witness :
  exists w',
    tex2html failing_host x_squared display_mode failing_world
    = (Raise (KatexError (lit "Error processing 'x^2': parse error")), w')
    /\ fs w' !! x2_html = None
    /\ spawns (trace w') = [x2_argv].
Proof.
  destruct (tex2html_nonzero_exit failing_host x_squared display_mode
              failing_world (resolved resolved_files) x2_parts x2_digest
              (bytes_of_lit "x^2") 1 [(Stderr, bytes_of_lit "parse error")]
              (<[x2_tex := File (bytes_of_lit "x^2") clock]> resolved_files)
              [] (lit "parse error") (clock - 7200))
    as [w' [Hcall [_ [_ [Hnone [_ Hspawns]]]]]].
  - by_evaluation.
  - by_evaluation.
  - by_evaluation.
  - by_evaluation.
  - by_evaluation.
  - by_evaluation.
  - by_evaluation.
  - reflexivity.
  - by_evaluation.
  - by_evaluation.
  - by_evaluation.
  - apply sweep_safe_listed. by_evaluation.
  - exists w'. split; [exact Hcall|]. split.
    + apply Hnone. vm_compute; reflexivity.
    + exact Hspawns.
Defined.

(** A sweep over entries on both sides of the boundary, and a sweep
    that meets a stale file it cannot remove. *)
Lemma cleanup_tmp_dir_spec_witness :
  (exists w',
     _cleanup_tmp_dir hit_host sweep_world = (Ok tt, w')
     /\ fs w' !! old_file = None
     /\ fs w' !! young_file = Some (regular "young" (clock - retention + 1))
     /\ fs w' !! sub_dir = Some (Dir (clock - 200000))
     /\ fs w' !! deep_file = Some (regular "deep" (clock - 200000)))
  /\ (exists q e w',
        _cleanup_tmp_dir locked_host two_stale_world
        = (Raise (OSError e q), w')
        /\ is_child locked_host cache_dir q = true).
Proof.
  split.
  - destruct (proj1 (proj2 (cleanup_tmp_dir_spec hit_host sweep_world))
                (clock - 7200)%Z)
      as [w' [Hsweep [Hexact [Hold [Hyoung Hdirs]]]]].
    + by_evaluation.
    + apply sweep_safe_listed. by_evaluation.
    + exists w'. split; [exact Hsweep|]. repeat split.
      * apply (Hold old_file (bytes_of_lit "old")); vm_compute; reflexivity.
      * apply (Hyoung young_file (bytes_of_lit "young")).
        vm_compute; reflexivity.
      * apply Hdirs. vm_compute; reflexivity.
      * rewrite Hexact. vm_compute; reflexivity.
  - destruct (proj2 (proj2 (cleanup_tmp_dir_spec locked_host two_stale_world))
                (clock - 7200)%Z stale_file PermissionError)
      as [q [e [w' [Hsweep [Hchild _]]]]].
    + by_evaluation.
    + by_evaluation.
    + right. split; [by_evaluation|]. split; [by_evaluation|reflexivity].
    + exists q, e, w'. split; [exact Hsweep | exact Hchild].
Defined.




(** A stale file that cannot be removed turns a successful hit into an
    error. *)
Lemma tex2html_sweep_failure_propagates_witness :
  exists q e w',
    tex2html locked_host x_squared display_mode locked_world
    = (Raise (OSError e q), w')
    /\ is_child locked_host cache_dir q = true.
Proof.
  destruct (tex2html_sweep_failure_propagates locked_host x_squared
              display_mode locked_world (resolved locked_files)
              (tex2html_try locked_host x2_parts x_squared x2_html
                 (resolved locked_files)).2
              x2_parts x2_digest
              (Ok (lit "<span>x2</span>")) (clock - 7200))
    as [q [e [w' [Hcall [Hchild _]]]]].
  - by_evaluation.
  - by_evaluation.
  - by_evaluation.
  - by_evaluation.
  - exists stale_file, PermissionError. split; [by_evaluation|].
    right. split; [by_evaluation|]. split; [by_evaluation|reflexivity].
  - exists q, e, w'. split; [exact Hcall | exact Hchild].
Defined.

(** The failing call: the key is probed first, and the only process is
    started on the extended command. *)
Lemma digest_precedes_io_arguments_witness :
  exists evs,
    trace (tex2html failing_host x_squared display_mode failing_world).2
    = resolution_events ++ EvExists x2_html :: evs
    /\ Forall (spawn_only x2_argv) evs.
Proof.
  destruct (digest_precedes_io_arguments failing_host x_squared display_mode
              failing_world (resolved resolved_files) x2_parts x2_digest)
    as [_ [evs [Htrace Hall]]].
  - by_evaluation.
  - by_evaluation.
  - exists evs. split; [exact Htrace | exact Hall].
Defined.

(** ** Where the code departs from the contract *)

(** C1 fails as stated.  On a machine where [npx] is on the search path
    but katex is not installed, the second of two identical calls finds
    the cache file, returns its text, and has still started a process:
    the version query of binary resolution.  A cache file that is not
    UTF-8 makes the call raise [UnicodeDecodeError], a stale file the
    sweep cannot remove makes a hit raise [PermissionError], and so does
    a cache file of another user, which the caller may read but not
    touch. *)
Lemma tex2html_hit_asks_npx_again :
  let first := tex2html npx_host x_squared display_mode npx_world in
  let second := tex2html npx_host x_squared display_mode first.2 in
  let cached :=
    lit "/tmp/mdkatex/7f791d4e362b4d2a9cc228d8f5c97fe26a66fd238cdc60b2249c47162668dc01.html" in
  (first.1 = Ok (lit "<span>x2</span>")
   /\ is_regular (fs first.2 !! cached) = true
   /\ second.1 = Ok (lit "<span>x2</span>")
   /\ spawns (trace second.2)
      = spawns (trace first.2)
        ++ [[lit "/usr/bin/npx"; lit "--no-install"; lit "katex";
             lit "--version"]])
  /\ (is_regular (fs garbled_world !! x2_html) = true
      /\ (tex2html hit_host x_squared display_mode garbled_world).1
         = Raise UnicodeDecodeError)
  /\ (is_regular (fs locked_world !! x2_html) = true
      /\ (tex2html locked_host x_squared display_mode locked_world).1
         = Raise (OSError PermissionError stale_file))
  /\ (fs foreign_world !! x2_html
      = Some (Foreign (Some x2_output) (clock - 3600))
      /\ (tex2html hit_host x_squared display_mode foreign_world).1
         = Raise (OSError PermissionError x2_html)).
Proof. vm_compute. repeat split. Qed.

(** C3 fails as stated.  The resolution file exists and the path named
    on its first line exists, yet resolution does not return the
    persisted command: the file is decoded as a whole before it is
    split into lines, and bytes after the first line that are not UTF-8
    make resolution, and with it the render call, raise
    [UnicodeDecodeError].  A resolution file that exists and that the
    caller may not read makes it raise [PermissionError], and so does a
    first line that names a path in a directory the caller may not
    search: the existence check itself raises. *)
Lemma get_usr_parts_torn_resolution :
  fs torn_world !! resolution_file
  = Some (File (bytes_of_lit "/usr/bin/katex" ++ [x0a; xff]) (clock - 7200))
  /\ Text.decode (bytes_of_lit "/usr/bin/katex") = Some katex_exe
  /\ is_present (fs torn_world !! katex_exe) = true
  /\ _get_usr_parts hit_host torn_world
     = (Raise UnicodeDecodeError,
        World (fs torn_world) clock
              [EvExists resolution_file; EvRead resolution_file])
  /\ (get_bin_cmd hit_host torn_world).1 = Raise UnicodeDecodeError
  /\ (tex2html hit_host x_squared display_mode torn_world).1
     = Raise UnicodeDecodeError
  /\ (is_present (fs sealed_world !! resolution_file) = true
      /\ (_get_usr_parts hit_host sealed_world).1
         = Raise (OSError PermissionError resolution_file))
  /\ (fs hidden_world !! lit "/root/bin/katex" = Some (Denied PermissionError)
      /\ (_get_usr_parts hit_host hidden_world).1
         = Raise (OSError PermissionError (lit "/root/bin/katex"))).
Proof. vm_compute. repeat split. Qed.

(** C5 fails as stated.  A sweep that returns leaves a stale regular
    file that lies below the cache directory without being one of its
    entries; and a sweep is not bound to return: where the system lists
    a stale file it refuses to remove before another stale file, the
    sweep raises at the first and the second, which could be removed,
    is still there; so it is when an entry cannot be examined. *)
Lemma cleanup_leaves_stale_files :
  ((_cleanup_tmp_dir hit_host sweep_world).1 = Ok tt
   /\ stale (clock - retention) (fs sweep_world !! deep_file) = true
   /\ fs (_cleanup_tmp_dir hit_host sweep_world).2 !! deep_file
      = fs sweep_world !! deep_file)
  /\ ((_cleanup_tmp_dir locked_host two_stale_world).1
      = Raise (OSError PermissionError stale_file)
      /\ stale (clock - retention) (fs two_stale_world !! old_file) = true
      /\ locked locked_host old_file = false
      /\ fs (_cleanup_tmp_dir locked_host two_stale_world).2 !! old_file
         = fs two_stale_world !! old_file)
  /\ ((_cleanup_tmp_dir hit_host
         (World (<[old_file := regular "old" (clock - 90000)]>
                   (fs barred_world)) clock [])).1
      = Raise (OSError PermissionError barred_file)).
Proof. vm_compute. repeat split. Qed.


(** C2 fails as stated: changing the value of an option from [True] to
    the empty text, or from the text [1] to the number 1, leaves the
    digest as it was. *)
Lemma cmd_digest_blind_to_value_change :
  let digest_of options := _cmd_digest x_squared
                             (yield_options [katex_exe] options) in
  VBool true <> VStr []
  /\ digest_of [(lit "strict", VBool true)]
     = Ok (lit "e19b91ddcd66f5eba009fbe6fa540419d39dc44acb9f9d1d9c47937b5ca91d44")
  /\ digest_of [(lit "strict", VStr [])]
     = Ok (lit "e19b91ddcd66f5eba009fbe6fa540419d39dc44acb9f9d1d9c47937b5ca91d44")
  /\ VStr (lit "1") <> VInt 1
  /\ digest_of [(lit "max-size", VStr (lit "1"))]
     = digest_of [(lit "max-size", VInt 1)].
Proof. vm_compute. repeat split; discriminate. Qed.

(** C4 fails as stated.  When the renderer prints [KaTeX] on standard
    output and [parse error] on standard error, writes part of its
    output and exits with status 1, the message joins the two streams
    with a line feed, so it does not contain their plain concatenation,
    and the cache file the renderer wrote is still there.  When the
    renderer's complaint is not UTF-8 the call raises
    [UnicodeDecodeError], and when the sweep cannot remove a stale file
    it raises [PermissionError], in place of [KatexError]. *)
Lemma tex2html_failure_keeps_partial_output :
  let call := tex2html partial_host x_squared display_mode failing_world in
  let msg := lit "Error processing 'x^2': KaTeX" ++ [10] ++ lit "parse error" in
  (call.1 = Raise (KatexError msg)
   /\ Text.contains msg (Text.strip (lit "KaTeX" ++ lit "parse error")) = false
   /\ fs call.2 !! x2_html
      = Some (File (bytes_of_lit "<span>" ++ [x0a]) clock))
  /\ (tex2html mojibake_host x_squared display_mode failing_world).1
     = Raise UnicodeDecodeError
  /\ (tex2html failing_locked_host x_squared display_mode stale_world).1
     = Raise (OSError PermissionError stale_file).
Proof. vm_compute. repeat split. Qed.

(** C8 fails in the code.  When the renderer exits with status 1, the
    call raises [KatexError] and the temporary input file it wrote is
    still in the cache directory: the removal, placed after the [try]
    statement, is never attempted.  The same holds when the renderer is
    killed by a signal and when it cannot be started.  Only when the
    renderer succeeds is the input file removed. *)
Theorem tex2html_failure_leaves_input_file :
  let call := tex2html failing_host x_squared display_mode failing_world in
  let killed := tex2html killed_host x_squared display_mode failing_world in
  let refused :=
    tex2html unlaunchable_host x_squared display_mode failing_world in
  let fine := tex2html hit_host x_squared display_mode failing_world in
  let input := File (bytes_of_lit "x^2") clock in
  fs failing_world !! x2_tex = None
  /\ (call.1 = Raise (KatexError (lit "Error processing 'x^2': parse error"))
      /\ fs call.2 !! x2_tex = Some input
      /\ trace call.2
         = resolution_events
           ++ [EvExists x2_html; EvMkdir cache_dir; EvWrite x2_tex;
               EvSpawn x2_argv; EvClose;
               EvTime; EvIterdir cache_dir;
               EvIsFile x2_tex; EvStat x2_tex;
               EvIsFile resolution_file; EvStat resolution_file])
  /\ (killed.1
      = Raise (KatexError
          (lit "Error processing 'x^2': katex_cli process ended with code -15 (SIGTERM)"))
      /\ fs killed.2 !! x2_tex = Some input)
  /\ (refused.1 = Raise (OSError PermissionError katex_exe)
      /\ fs refused.2 !! x2_tex = Some input)
  /\ (fine.1 = Ok (lit "<span>x2</span>")
      /\ fs fine.2 !! x2_tex = None
      /\ In (EvUnlink x2_tex) (trace fine.2)).
Proof. vm_compute. repeat split. tauto. Qed.

(** C9 fails as stated: with a stale file in the cache directory that
    the system refuses to remove, a call whose [try] block has returned
    the cached text raises the [PermissionError] of the sweep. *)
Lemma tex2html_sweep_error_surfaces :
  (tex2html_try locked_host x2_parts x_squared x2_html
     (resolved locked_files)).1
  = Ok (lit "<span>x2</span>")
  /\ (tex2html locked_host x_squared display_mode locked_world).1
     = Raise (OSError PermissionError stale_file).
Proof. vm_compute. repeat split. Qed.


(** ** More of the theorems at work *)

Lemma read_output_round_trip_witness :
  read_output (bytes_of_lit "KaTeX" ++ [x0a] ++ bytes_of_lit "parse error")
  = Ok (lit "KaTeX" ++ [10] ++ lit "parse error").
Proof.
  apply (read_output_round_trip
           (lit "KaTeX" ++ [10] ++ lit "parse error")).
  by_evaluation.
Defined.

(** Nothing installed; and a search path that begins with a directory
    the caller may not search, although katex is installed further
    along it. *)
Lemma get_usr_parts_nothing_installed_witness :
  (exists w',
     _get_usr_parts hit_host bundle_world = (Ok None, w')
     /\ fs w' = fs bundle_world
     /\ spawns (trace w') = spawns (trace bundle_world)
     /\ fs w' !! TMP_LOCAL_CMD_CACHE hit_host = None)
  /\ (exists w',
        _get_usr_parts closed_path_host closed_path_world
        = (Raise (OSError PermissionError closed_exe), w')
        /\ fs w' = fs closed_path_world
        /\ spawns (trace w') = spawns (trace closed_path_world)).
Proof.
  split.
  - apply (get_usr_parts_nothing_installed hit_host bundle_world
             (noted EvEnviron bundle_world)
             [lit "/usr/bin"; lit "/usr/local/bin"]).
    + by_evaluation.
    + by_evaluation.
    + intros p c [<-|[<-|[]]] Hc; vm_compute in Hc;
        destruct Hc as [<-|[<-|[]]]; by_evaluation.
  - apply (proj2 (get_usr_parts_nothing_installed closed_path_host
                    closed_path_world (noted EvEnviron closed_path_world)
                    [lit "/root/bin"; lit "/usr/bin"; lit "/usr/local/bin"]
                    ltac:(by_evaluation) ltac:(by_evaluation))
             [] (lit "/root/bin") [lit "/usr/bin"; lit "/usr/local/bin"]
             [] (lit "katex") [lit "npx --no-install katex"]
             PermissionError).
    + reflexivity.
    + by_evaluation.
    + intros p c [].
    + intros c [].
    + by_evaluation.
    + reflexivity.
Defined.

(** The first resolution on a fresh machine with katex installed. *)
Lemma get_usr_parts_search_accepts_witness :
  exists w',
    _get_usr_parts hit_host fresh_world = (Ok (Some [katex_exe]), w')
    /\ fs w' !! resolution_file = Some (regular "/usr/bin/katex" clock)
    /\ spawns (trace w') = [[katex_exe; lit "--version"]].
Proof.
  destruct (get_usr_parts_search_accepts hit_host fresh_world
              (noted EvEnviron fresh_world)
              [] [lit "/usr/local/bin"] (lit "/usr/bin")
              [] [lit "npx --no-install katex"] (lit "katex")
              [(Stdout, bytes_of_lit "0.16.9")] (fs fresh_world)
              (lit "0.16.9") (bytes_of_lit "/usr/bin/katex"))
    as [w' [Hcall [Hfs Hspawns]]].
  - by_evaluation.
  - by_evaluation.
  - by_evaluation.
  - intros p c [].
  - intros c [].
  - by_evaluation.
  - by_evaluation.
  - by_evaluation.
  - by_evaluation.
  - by_evaluation.
  - by_evaluation.
  - by_evaluation.
  - exists w'. split; [exact Hcall|]. split; [|exact Hspawns].
    rewrite Hfs. by_evaluation.
Defined.

(** A katex whose answer to [--version] is not UTF-8. *)
Lemma tex2html_version_not_utf8_witness :
  exists w',
    tex2html garbling_host x_squared display_mode fresh_world
    = (Raise UnicodeDecodeError, w')
    /\ spawns (trace w') = [[katex_exe; lit "--version"]].
Proof.
  destruct (tex2html_version_not_utf8 garbling_host x_squared display_mode
              fresh_world (noted EvEnviron fresh_world)
              [] [lit "/usr/local/bin"] (lit "/usr/bin")
              [] [lit "npx --no-install katex"] (lit "katex")
              [(Stdout, [xff])] (fs fresh_world))
    as [w' [_ [Hcall [_ Hspawns]]]].
  - by_evaluation.
  - by_evaluation.
  - by_evaluation.
  - intros p c [].
  - intros c [].
  - by_evaluation.
  - by_evaluation.
  - by_evaluation.
  - exists w'. split; [exact Hcall | exact Hspawns].
Defined.

(** The programs of the examples leave every name as examinable as it
    was: all they do to the files is write one. *)
Lemma stub_keeps_answered (h : host) (paths : list str)
    (version_code : Z) (version : string) (render_code : Z)
    (said : list (stream * bytes)) (html : option string)
    (argv : list str) (f : gmap str node) (t : Z) :
  answered h paths f ->
  answered h paths
    (files_after (stub version_code version render_code said html argv f t)
                 f).
Proof.
  intros Hf. unfold stub.
  destruct (Text.eqb (List.last argv []) (lit "--version")); [exact Hf|].
  cbn [files_after].
  destruct html as [d|]; [|exact Hf].
  destruct (output_arg argv) as [q|]; [|exact Hf].
  intros p c Hp Hc.
  destruct (decide (q = candidate_bin h p c)) as [->|Hne].
  - now rewrite lookup_insert_eq.
  - rewrite lookup_insert_ne by exact Hne. now apply Hf.
Qed.

(** A machine with [npx] and no katex: every query fails. *)
Lemma get_usr_parts_all_rejected_witness :
  exists w' evs,
    _get_usr_parts npx_host npx_world = (Ok None, w')
    /\ trace w' = trace npx_world ++ evs
    /\ Forall is_probe evs.
Proof.
  apply (get_usr_parts_all_rejected npx_host npx_world
           (noted EvEnviron npx_world)
           [lit "/usr/bin"; lit "/usr/local/bin"]).
  - intros argv f t. cbn [npx_host linux run]. unfold stub.
    destruct (Text.eqb (List.last argv []) (lit "--version")).
    + left. discriminate.
    + right. exists []. split; reflexivity.
  - by_evaluation.
  - intros p c [<-|[<-|[]]] Hc; vm_compute in Hc;
      destruct Hc as [<-|[<-|[]]]; by_evaluation.
  - intros argv f t. apply stub_keeps_answered.
  - by_evaluation.
Defined.

(** The command [npx --no-install katex], persisted and read back. *)
Lemma persisted_resolution_round_trip_witness :
  exists w1 w2,
    write_text npx_host (TMP_LOCAL_CMD_CACHE npx_host)
      (Text.join [10] [lit "/usr/bin/npx"; lit "--no-install"; lit "katex"])
      npx_world
    = (Ok tt, w1)
    /\ _get_usr_parts npx_host w1
       = (Ok (Some [lit "/usr/bin/npx"; lit "--no-install"; lit "katex"]), w2)
    /\ fs w2 = fs w1
    /\ spawns (trace w2) = spawns (trace npx_world).
Proof.
  apply (persisted_resolution_round_trip npx_host
           [lit "/usr/bin/npx"; lit "--no-install"; lit "katex"] npx_world
           (bytes_of_lit "/usr/bin/npx" ++ [x0a]
            ++ bytes_of_lit "--no-install" ++ [x0a] ++ bytes_of_lit "katex")).
  - discriminate.
  - repeat (constructor;
            [split; intros H; vm_compute in H; intuition discriminate|]).
    constructor.
  - left. reflexivity.
  - by_evaluation.
  - by_evaluation.
  - by_evaluation.
Defined.

(** Only the bundled binary. *)
Lemma get_bin_cmd_bundled_witness :
  exists p w',
    get_bin_cmd hit_host bundle_world = (Ok [p], w')
    /\ bundled hit_host (fs bundle_world) p
    /\ Text.leb bundled_exe p = true
    /\ fs w' = fs bundle_world
    /\ spawns (trace w') = spawns (trace bundle_world).
Proof.
  apply (get_bin_cmd_bundled hit_host bundle_world
           (noted EvEnviron bundle_world)
           [lit "/usr/bin"; lit "/usr/local/bin"] bundled_exe).
  - by_evaluation.
  - by_evaluation.
  - intros p c [<-|[<-|[]]] Hc; vm_compute in Hc;
      destruct Hc as [<-|[<-|[]]]; by_evaluation.
  - split; [by_evaluation|]. split; [|by_evaluation].
    vm_compute. eexists; reflexivity.
Defined.

(** No katex anywhere. *)
Lemma tex2html_no_binary_witness :
  exists w' evs,
    tex2html hit_host x_squared display_mode bare_world
    = (Raise (NotImplementedError pkg_err_msg), w')
    /\ fs w' = fs bare_world
    /\ trace w' = trace bare_world ++ evs
    /\ Forall is_look evs
    /\ spawns (trace w') = spawns (trace bare_world).
Proof.
  apply (tex2html_no_binary hit_host x_squared display_mode bare_world
           (noted EvEnviron bare_world)
           [lit "/usr/bin"; lit "/usr/local/bin"]).
  - by_evaluation.
  - by_evaluation.
  - intros p c [<-|[<-|[]]] Hc; vm_compute in Hc;
      destruct Hc as [<-|[<-|[]]]; by_evaluation.
  - intros q [_ [[x Hx] _]]. unfold bare_world in Hx. cbn [fs] in Hx.
    rewrite lookup_empty in Hx. discriminate.
Defined.

(** A resolution file that is not UTF-8. *)
Lemma tex2html_corrupt_resolution_witness :
  tex2html hit_host x_squared display_mode corrupt_world
  = (Raise UnicodeDecodeError,
     World (fs corrupt_world) clock
           [EvExists resolution_file; EvRead resolution_file]).
Proof.
  apply (tex2html_corrupt_resolution hit_host x_squared display_mode
           corrupt_world [xff; xfe] (clock - 7200)).
  - by_evaluation.
  - by_evaluation.
Defined.

(** A text with a lone surrogate. *)
Lemma tex2html_unencodable_witness :
  tex2html hit_host surrogate_text display_mode hit_world
  = (Raise UnicodeEncodeError, resolved hit_files).
Proof.
  apply (tex2html_unencodable hit_host surrogate_text display_mode hit_world
           (resolved hit_files) x2_parts).
  - by_evaluation.
  - left. by_evaluation.
Defined.

(** A renderer ended by signal 35, which has no name in the table. *)
Lemma write_tex2html_unknown_signal_witness :
  (_write_tex2html signalled_host x2_parts x_squared x2_html failing_world).1
  = Raise (KeyError 35).
Proof.
  rewrite (write_tex2html_unknown_signal signalled_host x2_parts x_squared
             x2_html failing_world (bytes_of_lit "x^2") (-35) []
             (<[x2_tex := File (bytes_of_lit "x^2") clock]> resolved_files)).
  - reflexivity.
  - by_evaluation.
  - by_evaluation.
  - by_evaluation.
  - by_evaluation.
  - reflexivity.
  - by_evaluation.
Defined.

(** The first render of [x^2] on a machine with a persisted
    resolution. *)
Lemma tex2html_miss_renders_witness :
  exists w',
    tex2html hit_host x_squared display_mode failing_world
    = (Ok (lit "<span>x2</span>"), w')
    /\ spawns (trace w') = [x2_argv]
    /\ fs w' !! x2_tex = None
    /\ fs w' !! x2_html = Some (File x2_output clock).
Proof.
  destruct (tex2html_miss_renders hit_host x_squared display_mode
              failing_world (resolved resolved_files) x2_parts x2_digest
              (bytes_of_lit "x^2") []
              (<[x2_html := File x2_output clock]>
                 (<[x2_tex := File (bytes_of_lit "x^2") clock]>
                    resolved_files))
              (bytes_of_lit "x^2") clock x2_output clock
              (lit "<span>x2</span>" ++ [10]) (clock - 7200))
    as [w' [Hcall [Hspawns [Hin Hout]]]].
  - by_evaluation.
  - by_evaluation.
  - by_evaluation.
  - by_evaluation.
  - by_evaluation.
  - by_evaluation.
  - by_evaluation.
  - by_evaluation.
  - reflexivity.
  - intros E. vm_compute in E. discriminate E.
  - by_evaluation.
  - by_evaluation.
  - vm_compute. discriminate.
  - by_evaluation.
  - apply sweep_safe_listed. by_evaluation.
  - exists w'. split; [exact Hcall|]. split; [exact Hspawns|].
    split; [exact Hin | exact Hout].
Defined.

(** A renderer that exits with 0 and writes nothing. *)
Lemma tex2html_output_missing_witness :
  exists w',
    tex2html silent_host x_squared display_mode failing_world
    = (Raise (OSError FileNotFoundError x2_html), w')
    /\ spawns (trace w') = [x2_argv]
    /\ fs w' !! x2_tex = None
    /\ fs w' !! x2_html = None.
Proof.
  destruct (tex2html_output_missing silent_host x_squared display_mode
              failing_world (resolved resolved_files) x2_parts x2_digest
              (bytes_of_lit "x^2") []
              (<[x2_tex := File (bytes_of_lit "x^2") clock]> resolved_files)
              (bytes_of_lit "x^2") clock (clock - 7200))
    as [w' [Hcall [Hspawns [Hin Hout]]]].
  - by_evaluation.
  - by_evaluation.
  - by_evaluation.
  - by_evaluation.
  - by_evaluation.
  - by_evaluation.
  - by_evaluation.
  - by_evaluation.
  - reflexivity.
  - by_evaluation.
  - by_evaluation.
  - apply sweep_safe_listed. by_evaluation.
  - exists w'. split; [exact Hcall|]. split; [exact Hspawns|].
    split; [exact Hin | exact Hout].
Defined.

(** A renderer that cannot be started. *)
Lemma tex2html_launch_failure_witness :
  exists w',
    tex2html unlaunchable_host x_squared display_mode failing_world
    = (Raise (OSError PermissionError katex_exe), w')
    /\ fs w' !! x2_tex = Some (File (bytes_of_lit "x^2") clock).
Proof.
  destruct (tex2html_launch_failure unlaunchable_host x_squared display_mode
              failing_world (resolved resolved_files) x2_parts x2_digest
              (bytes_of_lit "x^2") PermissionError)
    as [w' [evs [Hcall [_ [_ [_ Hin]]]]]].
  - by_evaluation.
  - by_evaluation.
  - by_evaluation.
  - by_evaluation.
  - by_evaluation.
  - by_evaluation.
  - by_evaluation.
  - apply sweep_safe_listed. by_evaluation.
  - exists w'. split; [exact Hcall | exact Hin].
Defined.

(** Sweeping the swept directory while the clock stands. *)
Lemma cleanup_tmp_dir_second_sweep_witness :
  let w1 := (_cleanup_tmp_dir hit_host sweep_world).2 in
  exists v',
    _cleanup_tmp_dir hit_host (World (fs w1) clock (trace w1)) = (Ok tt, v')
    /\ fs v' = fs w1.
Proof.
  intros w1.
  destruct (cleanup_tmp_dir_second_sweep hit_host sweep_world w1 clock)
    as [_ [Hsame Hstill]].
  - by_evaluation.
  - apply Hsame, Hstill. reflexivity.
Defined.

(** Two seconds on, the file that was one second inside the window is
    stale, and the second sweep removes it. *)
Example second_sweep_later :
  let w1 := (_cleanup_tmp_dir hit_host sweep_world).2 in
  let v := World (fs w1) (clock + 2) (trace w1) in
  fs w1 !! young_file = Some (regular "young" (clock - retention + 1))
  /\ (_cleanup_tmp_dir hit_host v).1 = Ok tt
  /\ fs (_cleanup_tmp_dir hit_host v).2 !! young_file = None.
Proof. vm_compute. repeat split. Qed.

(** A search path that begins with a directory the caller may not
    search: the test of the first candidate raises, although katex is
    installed further along the path. *)
Example closed_path_entry :
  fs closed_path_world !! closed_exe = Some (Denied PermissionError)
  /\ is_regular (fs closed_path_world !! katex_exe) = true
  /\ _get_usr_parts closed_path_host closed_path_world
     = (Raise (OSError PermissionError closed_exe),
        World (fs closed_path_world) clock
              [EvExists (lit "/tmp/mdkatex/local_katex_cmd.txt");
               EvEnviron; EvIsFile closed_exe])
  /\ (tex2html closed_path_host x_squared display_mode closed_path_world).1
     = Raise (OSError PermissionError closed_exe).
Proof. vm_compute. repeat split. Qed.

(** The help of katex, parsed. *)
Example katex_help_parsed :
  _parse_options_help_text ascii_alnum katex_help_text = katex_options.
Proof. vm_compute. reflexivity. Qed.

Lemma parse_options_help_text_texts_witness :
  let text := lit "A color string given in the format 'rgb' or 'rrggbb'" in
  Text.strip text = text /\ forall c, In c text -> is_linebreak c = false.
Proof.
  apply (parse_options_help_text_texts ascii_alnum katex_help_text
           (lit "error-color")).
  vm_compute. right. left. reflexivity.
Defined.

(** The options of a katex that prints its help and exits with 2. *)
Lemma parse_options_from_command_witness :
  (parse_options ascii_alnum helpful_host [] hit_world).1
  = Ok (katex_options, katex_options).
Proof.
  rewrite (parse_options_from_command ascii_alnum helpful_host hit_world
             (resolved hit_files) [katex_exe] 2 [(Stdout, katex_help)]
             hit_files katex_help_text).
  - by_evaluation.
  - by_evaluation.
  - by_evaluation.
  - by_evaluation.
Defined.

Lemma parse_options_no_binary_witness :
  (parse_options ascii_alnum hit_host [] bare_world).1 = Ok ([], []).
Proof.
  rewrite (parse_options_no_binary ascii_alnum hit_host bare_world
             (get_bin_cmd hit_host bare_world).2 pkg_err_msg).
  - reflexivity.
  - by_evaluation.
Defined.

Lemma parse_options_propagates_witness :
  (parse_options ascii_alnum unlaunchable_host [] hit_world).1
  = Raise (OSError PermissionError katex_exe).
Proof.
  apply (parse_options_propagates ascii_alnum unlaunchable_host hit_world
           (resolved hit_files) [katex_exe]).
  by_evaluation.
Defined.

(** A later call, on a machine where nothing is left. *)
Lemma parse_options_memoised_witness :
  parse_options ascii_alnum helpful_host katex_options bare_world
  = (Ok (katex_options, katex_options), bare_world).
Proof.
  destruct (parse_options_memoised ascii_alnum helpful_host hit_world
              (parse_options ascii_alnum helpful_host [] hit_world).2
              katex_options katex_options)
    as [_ Hnext].
  - by_evaluation.
  - apply Hnext. discriminate.
Defined.

(** The formulas of a line; the one in the code span is passed over. *)
Example inline_sample_items :
  iter_inline_katex inline_sample
  = [{| inline_text := lit "$a+b$"; item_start := 5; item_end := 10 |};
     {| inline_text := lit "$d$"; item_start := 24; item_end := 27 |}].
Proof. vm_compute. reflexivity. Qed.

Lemma clean_inline_text_of_item_witness :
  lit "$a+b$" = [36] ++ _clean_inline_text (lit "$a+b$") ++ [36]
  /\ _clean_inline_text (lit "$a+b$") <> []
  /\ forallb is_inline_char (_clean_inline_text (lit "$a+b$")) = true.
Proof.
  apply (clean_inline_text_of_item inline_sample
           {| inline_text := lit "$a+b$"; item_start := 5; item_end := 10 |}).
  vm_compute. left. reflexivity.
Defined.

(** An element without a name space gets one and becomes an image. *)
Example svg2img_sample :
  svg2img (lit "<p><svg >x2</svg></p>")
  = Some (Ok (lit "<p>"
              ++ B64IMG_TMPL (lit "PHN2ZyB4bWxucz0iaHR0cDovL3d3dy53My5vcmcvMjAwMC9zdmciIHhtbG5zOnhsaW5rPSJodHRwOi8vd3d3LnczLm9yZy8xOTk5L3hsaW5rIiA+eDI8L3N2Zz4=")
              ++ lit "</p>")).
Proof. vm_compute. reflexivity. Qed.

(** The first call with a dictionary converts, the second does not. *)
Example no_inline_svg_works_once :
  let first := Extension.tex2html svg_host x_squared flagged failing_world in
  let left := match first.1 with Ok (_, o) => o | Raise _ => None end in
  let second := Extension.tex2html svg_host x_squared left first.2 in
  left = display_mode
  /\ first.1 = Ok (lit "<p>"
                   ++ B64IMG_TMPL (lit "PHN2ZyB4bWxucz0iaHR0cDovL3d3dy53My5vcmcvMjAwMC9zdmciIHhtbG5zOnhsaW5rPSJodHRwOi8vd3d3LnczLm9yZy8xOTk5L3hsaW5rIiA+eDI8L3N2Zz4=")
                   ++ lit "</p>", display_mode)
  /\ second.1 = Ok (lit "<p><svg >x2</svg></p>", display_mode).
Proof. vm_compute. repeat split. Qed.

Lemma ext_tex2html_consumes_flags_witness :
  dict_get (lit "no_inline_svg") [(lit "display-mode", VBool true)] = None
  /\ Extension.tex2html hit_host x_squared display_mode hit_world
     = (let* r2 := tex2html hit_host x_squared display_mode in
        ret (r2, display_mode)) hit_world.
Proof.
  destruct (ext_tex2html_consumes_flags hit_host x_squared flagged hit_world
              (Extension.tex2html hit_host x_squared flagged hit_world).2
              (lit "<span>x2</span>") [(lit "display-mode", VBool true)])
    as [Hsvg [_ [_ Hnext]]].
  - by_evaluation.
  - split; [exact Hsvg | apply Hnext].
Defined.
